(** * The comment pipeline of the consultation dashboard backend (src/app.py)

    A shallow embedding of the scrape / normalize / analyze / merge / persist
    pipeline and of the per-source refresh state machine, followed by the
    properties the specification states about them.

    Conventions.
    - A Python [str] is a list of Unicode code points, each a [Z].
    - A Python [float] that the program computes is a rational [Q]: every
      quantity the heuristic adds up is a multiple of 0.5, and the only
      rounding the program performs is [round(_, 4)] and the [.4f] format,
      both modelled on the exact value.
    - Library behaviour that is a table of the Unicode Character Database
      (case mapping, digits, word characters outside ASCII) is a parameter,
      the class [Unicode]; ASCII is always written out.
    - The network, the language detector and the optional external model are
      oracles, the class [World]. *)

From Stdlib Require Import ZArith QArith Qround Qabs Qminmax List String Ascii Lia Bool.
From stdpp Require Import base option list sets gmap functions.
Local Open Scope Z_scope.

(** ** Strings *)

Abbreviation str := (list Z).

(** The code points of an ASCII literal. *)
Definition s2l (s : string) : str :=
  map (fun a => Z.of_N (N_of_ascii a)) (list_ascii_of_string s).

Definition str_eqb (a b : str) : bool := bool_decide (a = b).

Definition in_range (lo hi c : Z) : bool := (lo <=? c) && (c <=? hi).

(** [str.isspace] on one character, which is also the class [\s] of [re] on
    text patterns. *)
Definition is_space (c : Z) : bool :=
  in_range 9 13 c || in_range 28 32 c || (c =? 133) || (c =? 160)
  || (c =? 5760) || in_range 8192 8202 c || (c =? 8232) || (c =? 8233)
  || (c =? 8239) || (c =? 8287) || (c =? 12288).

(** [re.sub(r"\s+", " ", s)]: [in_run] tells that the previous character
    belonged to the whitespace run already replaced. *)
Fixpoint sub_spaces (in_run : bool) (s : str) : str :=
  match s with
  | [] => []
  | c :: s' =>
      if is_space c
      then (if in_run then sub_spaces true s' else 32 :: sub_spaces true s')
      else c :: sub_spaces false s'
  end.

Fixpoint lstrip (s : str) : str :=
  match s with
  | [] => []
  | c :: s' => if is_space c then lstrip s' else s
  end.

Definition rstrip (s : str) : str := rev (lstrip (rev s)).

Definition strip (s : str) : str := rstrip (lstrip s).

(** [normalize_whitespace] on a string; [str(value or '')] is the identity
    there. The value [None] is handled where a field is read ([field]). *)
Definition normalize_whitespace (value : str) : str :=
  strip (sub_spaces false value).

(** ** Hashing: [text_hash] *)

(** [value.encode("utf-8", errors="ignore")]: a surrogate cannot be encoded
    and is left out. *)
Definition utf8_char (c : Z) : list Z :=
  if c <? 0 then []
  else if c <? 128 then [c]
  else if c <? 2048 then [192 + c / 64; 128 + c mod 64]
  else if in_range 55296 57343 c then []
  else if c <? 65536 then [224 + c / 4096; 128 + (c / 64) mod 64; 128 + c mod 64]
  else if c <? 1114112
       then [240 + c / 262144; 128 + (c / 4096) mod 64;
             128 + (c / 64) mod 64; 128 + c mod 64]
  else [].

Definition utf8_encode (s : str) : list Z := flat_map utf8_char s.

Module SHA256.

Definition w32 (x : Z) : Z := x mod 4294967296.
Definition add32 (x y : Z) : Z := w32 (x + y).
Definition rotr (n x : Z) : Z :=
  Z.lor (Z.shiftr x n) (w32 (Z.shiftl x (32 - n))).
Definition not32 (x : Z) : Z := Z.lxor x 4294967295.

Definition Ch (x y z : Z) : Z := Z.lxor (Z.land x y) (Z.land (not32 x) z).
Definition Maj (x y z : Z) : Z :=
  Z.lxor (Z.lxor (Z.land x y) (Z.land x z)) (Z.land y z).
Definition Sigma0 (x : Z) : Z := Z.lxor (Z.lxor (rotr 2 x) (rotr 13 x)) (rotr 22 x).
Definition Sigma1 (x : Z) : Z := Z.lxor (Z.lxor (rotr 6 x) (rotr 11 x)) (rotr 25 x).
Definition sigma0 (x : Z) : Z := Z.lxor (Z.lxor (rotr 7 x) (rotr 18 x)) (Z.shiftr x 3).
Definition sigma1 (x : Z) : Z := Z.lxor (Z.lxor (rotr 17 x) (rotr 19 x)) (Z.shiftr x 10).

(** The constants of FIPS 180-4 are the first 32 bits of the fractional parts
    of the square roots (initial hash value) and of the cube roots (round
    constants) of the first primes; [hashlib] has them as tables. *)
Definition PRIMES : list Z :=
  [2; 3; 5; 7; 11; 13; 17; 19; 23; 29; 31; 37; 41; 43; 47; 53; 59; 61; 67; 71;
   73; 79; 83; 89; 97; 101; 103; 107; 109; 113; 127; 131; 137; 139; 149; 151;
   157; 163; 167; 173; 179; 181; 191; 193; 197; 199; 211; 223; 227; 229; 233;
   239; 241; 251; 257; 263; 269; 271; 277; 281; 283; 293; 307; 311].

(** The largest [r] in [lo, hi) with [r ^ 3 <= n], by bisection. *)
Fixpoint cube_root_in (fuel : nat) (lo hi n : Z) : Z :=
  match fuel with
  | O => lo
  | S fuel' =>
      let mid := (lo + hi) / 2 in
      if mid =? lo then lo
      else if mid * mid * mid <=? n then cube_root_in fuel' mid hi n
      else cube_root_in fuel' lo mid n
  end.

Definition cube_root (n : Z) : Z := cube_root_in 64 0 (2 ^ 35) n.

Definition H0 : list Z :=
  map (fun p => w32 (Z.sqrt (p * 2 ^ 64))) (firstn 8 PRIMES).

Definition K : list Z :=
  map (fun p => w32 (cube_root (p * 2 ^ 96))) PRIMES.

(** Big-endian bytes of [x], [n] of them. *)
Fixpoint be_bytes (n : nat) (x : Z) : list Z :=
  match n with
  | O => []
  | S n' => (x / 256 ^ Z.of_nat n') mod 256 :: be_bytes n' x
  end.

Definition pad (msg : list Z) : list Z :=
  let len := Z.of_nat (length msg) in
  let zeros := Z.to_nat ((55 - len) mod 64) in
  msg ++ [128] ++ repeat 0 zeros ++ be_bytes 8 (8 * len).

Fixpoint words (n : nat) (bytes : list Z) : list Z :=
  match n, bytes with
  | S n', a :: b :: c :: d :: rest =>
      (((a * 256 + b) * 256 + c) * 256 + d) :: words n' rest
  | _, _ => []
  end.

(** The message schedule, most recent word first. *)
Fixpoint schedule (n : nat) (rev_w : list Z) : list Z :=
  match n with
  | O => rev_w
  | S n' =>
      let w := add32 (add32 (sigma1 (nth 1 rev_w 0)) (nth 6 rev_w 0))
                     (add32 (sigma0 (nth 14 rev_w 0)) (nth 15 rev_w 0)) in
      schedule n' (w :: rev_w)
  end.

Definition round (st : list Z) (kw : Z * Z) : list Z :=
  match st with
  | [a; b; c; d; e; f; g; h] =>
      let t1 := add32 (add32 (add32 h (Sigma1 e)) (add32 (Ch e f g) (fst kw))) (snd kw) in
      let t2 := add32 (Sigma0 a) (Maj a b c) in
      [add32 t1 t2; a; b; c; add32 d t1; e; f; g]
  | _ => st
  end.

Definition compress (h : list Z) (block : list Z) : list Z :=
  let w := rev (schedule 48 (rev (words 16 block))) in
  let st := fold_left round (combine K w) h in
  map (fun p => add32 (fst p) (snd p)) (combine h st).

Fixpoint blocks (n : nat) (bytes : list Z) : list (list Z) :=
  match n with
  | O => []
  | S n' =>
      match bytes with
      | [] => []
      | _ => firstn 64 bytes :: blocks n' (skipn 64 bytes)
      end
  end.

Definition digest (msg : list Z) : list Z :=
  let p := pad msg in
  fold_left compress (blocks (length p) p) H0.

Definition hex_digit (d : Z) : Z := if d <? 10 then 48 + d else 87 + d.

Definition hex_byte (b : Z) : list Z := [hex_digit (b / 16); hex_digit (b mod 16)].

(** [hashlib.sha256(bytes).hexdigest()]. *)
Definition hexdigest (msg : list Z) : str :=
  flat_map (fun w => flat_map hex_byte (be_bytes 4 w)) (digest msg).

End SHA256.

(** ** The [csv] module, excel dialect

    Delimiter [,], quote character U+0022, doubled, line terminator
    CR LF, minimal quoting, no escape character, not strict. *)

Module CSV.

Definition COMMA : Z := 44.
Definition QUOTE : Z := 34.
Definition CR : Z := 13.
Definition LF : Z := 10.

(** *** Writer *)

Definition special (c : Z) : bool :=
  (c =? COMMA) || (c =? QUOTE) || (c =? CR) || (c =? LF).

Definition escape_quotes (f : str) : str :=
  flat_map (fun c => if c =? QUOTE then [QUOTE; QUOTE] else [c]) f.

Definition write_field (f : str) : str :=
  if existsb special f then [QUOTE] ++ escape_quotes f ++ [QUOTE] else f.

Fixpoint join_fields (fs : list str) : str :=
  match fs with
  | [] => []
  | [f] => write_field f
  | f :: rest => write_field f ++ [COMMA] ++ join_fields rest
  end.

(** [writer.writerow]: a record made of one empty field is written quoted. *)
Definition write_row (fs : list str) : str :=
  match fs with
  | [[]] => [QUOTE; QUOTE; CR; LF]
  | _ => join_fields fs ++ [CR; LF]
  end.

(** *** Reader *)

Inductive parser_state :=
| START_RECORD | START_FIELD | IN_FIELD | IN_QUOTED_FIELD
| QUOTE_IN_QUOTED_FIELD | EAT_CRNL.

#[export] Instance parser_state_eq_dec : EqDecision parser_state.
Proof. solve_decision. Defined.

(** The field being read and the fields read, both last element first. *)
Record reader := {
  state : parser_state;
  field : str;
  fields : list str
}.

Definition parse_reset : reader :=
  {| state := START_RECORD; field := []; fields := [] |}.

(** [csv.field_size_limit()] *)
Definition FIELD_LIMIT : Z := 131072.

(** [None] stands for [_csv.Error]. *)
Definition parse_add_char (r : reader) (st : parser_state) (c : Z) : option reader :=
  if FIELD_LIMIT <=? Z.of_nat (length (field r)) then None
  else Some {| state := st; field := c :: field r; fields := fields r |}.

Definition parse_save_field (r : reader) (st : parser_state) : reader :=
  {| state := st; field := []; fields := rev (field r) :: fields r |}.

Definition goto (r : reader) (st : parser_state) : reader :=
  {| state := st; field := field r; fields := fields r |}.

(** A character of a line, or the end of the line. *)
Inductive event := Char (c : Z) | EOL.

Definition is_newline (e : event) : bool :=
  match e with
  | Char c => (c =? CR) || (c =? LF)
  | EOL => false
  end.

Definition after_newline (e : event) : parser_state :=
  match e with EOL => START_RECORD | Char _ => EAT_CRNL end.

Definition start_field (r : reader) (e : event) : option reader :=
  match e with
  | EOL => Some (parse_save_field r START_RECORD)
  | Char c =>
      if (c =? CR) || (c =? LF) then Some (parse_save_field r EAT_CRNL)
      else if c =? QUOTE then Some (goto r IN_QUOTED_FIELD)
      else if c =? COMMA then Some (parse_save_field r START_FIELD)
      else parse_add_char r IN_FIELD c
  end.

Definition parse_process_char (r : reader) (e : event) : option reader :=
  match state r with
  | START_RECORD =>
      match e with
      | EOL => Some r
      | Char c =>
          if (c =? CR) || (c =? LF) then Some (goto r EAT_CRNL)
          else start_field r e
      end
  | START_FIELD => start_field r e
  | IN_FIELD =>
      match e with
      | EOL => Some (parse_save_field r START_RECORD)
      | Char c =>
          if (c =? CR) || (c =? LF) then Some (parse_save_field r EAT_CRNL)
          else if c =? COMMA then Some (parse_save_field r START_FIELD)
          else parse_add_char r IN_FIELD c
      end
  | IN_QUOTED_FIELD =>
      match e with
      | EOL => Some r
      | Char c =>
          if c =? QUOTE then Some (goto r QUOTE_IN_QUOTED_FIELD)
          else parse_add_char r IN_QUOTED_FIELD c
      end
  | QUOTE_IN_QUOTED_FIELD =>
      match e with
      | EOL => Some (parse_save_field r START_RECORD)
      | Char c =>
          if c =? QUOTE then parse_add_char r IN_QUOTED_FIELD c
          else if c =? COMMA then Some (parse_save_field r START_FIELD)
          else if (c =? CR) || (c =? LF) then Some (parse_save_field r EAT_CRNL)
          else parse_add_char r IN_FIELD c
      end
  | EAT_CRNL =>
      match e with
      | EOL => Some (goto r START_RECORD)
      | Char c => if (c =? CR) || (c =? LF) then Some r else None
      end
  end.

Fixpoint feed (r : reader) (line : str) : option reader :=
  match line with
  | [] => parse_process_char r EOL
  | c :: rest =>
      match parse_process_char r (Char c) with
      | Some r' => feed r' rest
      | None => None
      end
  end.

(** The lines of a text file opened with [newline='']: cut after LF, CR LF or
    a lone CR, terminators kept. [cur] is the line being read, reversed. *)
Fixpoint split_lines (cur : str) (s : str) : list str :=
  match s with
  | [] => match cur with [] => [] | _ => [rev cur] end
  | c :: s' =>
      if c =? LF then rev (c :: cur) :: split_lines [] s'
      else if c =? CR then
        match s' with
        | d :: s'' =>
            if d =? LF then rev (d :: c :: cur) :: split_lines [] s''
            else rev (c :: cur) :: split_lines [] s'
        | [] => [rev (c :: cur)]
        end
      else split_lines (c :: cur) s'
  end.

(** All the records that iterating [csv.reader] yields on these lines. *)
Fixpoint records (r : reader) (lines : list str) : option (list (list str)) :=
  match lines with
  | [] =>
      match field r, state r with
      | [], IN_QUOTED_FIELD | _ :: _, _ =>
          Some [rev (fields (parse_save_field r START_RECORD))]
      | [], _ => Some []
      end
  | line :: rest =>
      match feed r line with
      | None => None
      | Some r' =>
          match state r' with
          | START_RECORD => cons (rev (fields r')) <$> records parse_reset rest
          | _ => records r' rest
          end
      end
  end.

(** The value that [DictReader] binds to [key]. *)
Inductive cell := Absent | Missing | Text (s : str).

(** [zip(fieldnames, row)] bound left to right, then the names beyond the
    row bound to [None]. *)
Fixpoint lookup_zip (key : str) (names : list str) (row : list str) (found : cell) : cell :=
  match names, row with
  | [], _ => found
  | n :: names', [] =>
      lookup_zip key names' [] (if bool_decide (n = key) then Missing else found)
  | n :: names', v :: row' =>
      lookup_zip key names' row' (if bool_decide (n = key) then Text v else found)
  end.

(** The dicts that iterating [csv.DictReader] yields, each as its lookup
    function: the first record names the fields, empty records are skipped. *)
Definition dict_rows (recs : list (list str)) : list (str -> cell) :=
  match recs with
  | [] => []
  | names :: rows =>
      map (fun row key => lookup_zip key names row Absent)
          (filter (fun row => bool_decide (row ≠ [])) rows)
  end.

End CSV.

(** ** Unicode tables *)

Class Unicode := {
  uni_lower : Z -> list Z;          (* full lowercase mapping *)
  uni_title : Z -> list Z;          (* full titlecase mapping *)
  uni_cased : Z -> bool;
  uni_case_ignorable : Z -> bool;
  uni_digit : Z -> bool;            (* \d *)
  uni_word : Z -> bool;             (* \w *)
  uni_fold_eq : Z -> Z -> bool      (* re.IGNORECASE: pattern letter, text character *)
}.

(** Tables in which no character outside ASCII has case, is a digit or a word
    character. They agree with the Unicode database on every ASCII string and
    on the emoji of the sentiment lexicon, which is where they are evaluated. *)
Definition ascii_tables : Unicode :=
  {| uni_lower := fun c => [c];
     uni_title := fun c => [c];
     uni_cased := fun _ => false;
     uni_case_ignorable := fun _ => false;
     uni_digit := fun _ => false;
     uni_word := fun _ => false;
     uni_fold_eq := fun _ _ => false |}.

Definition is_ascii (c : Z) : bool := in_range 0 127 c.
Definition is_upper_az (c : Z) : bool := in_range 65 90 c.
Definition is_lower_az (c : Z) : bool := in_range 97 122 c.
Definition is_latin (c : Z) : bool := is_upper_az c || is_lower_az c.
Definition is_digit09 (c : Z) : bool := in_range 48 57 c.

(** ** Oracles *)

(** What the external model answers to one prompt, once parsed: the values of
    [str(parsed.get('sentiment', ''))], of [parsed.get("score")] converted by
    [float] ([None] when absent or not a number),
    [str(parsed.get("language", "Unknown"))] and [parsed.get("summary")]. *)
Record reply := {
  reply_sentiment : str;
  reply_score : option Q;
  reply_language : str;
  reply_summary : option str
}.

Class World := {
  (** [langdetect.detect]; [None] when it raises. *)
  detect : str -> option str;
  (** The [n]-th call of the external model on a text; [None] when the model
      is disabled, the call raises, or the answer does not parse. *)
  external_model : nat -> str -> option reply
}.

(** A process that runs without the optional tiers. *)
Definition offline : World :=
  {| detect := fun _ => None; external_model := fun _ _ => None |}.

Section Pipeline.
Context {U : Unicode} {W : World}.

Definition cased (c : Z) : bool :=
  if is_ascii c then is_latin c else uni_cased c.

(** CPython's [handle_capital_sigma]: U+03A3 lowers to the final form U+03C2
    when a cased character precedes it (skipping case-ignorable ones) and none
    follows. [before] is the text to the left, nearest character first. *)
Fixpoint skip_ignorable (s : str) : str :=
  match s with
  | [] => []
  | c :: s' => if uni_case_ignorable c then skip_ignorable s' else s
  end.

Definition final_sigma (before after : str) : bool :=
  match skip_ignorable before with
  | [] => false
  | c :: _ =>
      cased c &&
      match skip_ignorable after with
      | [] => true
      | d :: _ => negb (cased d)
      end
  end.

Definition lower_char (before : str) (c : Z) (after : str) : list Z :=
  if is_ascii c then [if is_upper_az c then c + 32 else c]
  else if c =? 931 then [if final_sigma before after then 962 else 963]
  else uni_lower c.

Fixpoint lower_from (before : str) (s : str) : str :=
  match s with
  | [] => []
  | c :: s' => lower_char before c s' ++ lower_from (c :: before) s'
  end.

(** [str.lower]. *)
Definition lower (s : str) : str := lower_from [] s.

(** ** Identity of a comment *)

Definition text_hash (value : str) : str :=
  SHA256.hexdigest (utf8_encode value).

(** The string that [make_comment_key] hashes:
    [f"{normalize_whitespace(author).lower()}|{normalize_whitespace(text).lower()}"]. *)
Definition key_string (author text : str) : str :=
  lower (normalize_whitespace author) ++ [124] ++ lower (normalize_whitespace text).

Definition make_comment_key (author text : str) : str :=
  text_hash (key_string author text).

(** ** A small regular-expression matcher

    The patterns of the program use literals, character classes, alternation,
    [+], [*], [^] and [\b]. [re.search] is used for its truth value only, which
    is whether some match exists, so a backtracking matcher with a
    continuation decides it. [prev] is the character before the position. *)

Inductive regex :=
| Eps
| Chr (p : Z -> bool)
| Seq (a b : regex)
| Alt (a b : regex)
| Star (a : regex)
| Bol
| WordBoundary.

Definition Plus (a : regex) : regex := Seq a (Star a).

Definition lit_with (eq : Z -> Z -> bool) (s : str) : regex :=
  fold_right (fun c r => Seq (Chr (eq c)) r) Eps s.

Definition lit (s : string) : regex := lit_with Z.eqb (s2l s).

Definition alts (rs : list regex) : regex :=
  match rs with
  | [] => Chr (fun _ => false)
  | r :: rs' => fold_left Alt rs' r
  end.

(** [\w] *)
Definition is_word (c : Z) : bool :=
  if is_ascii c then is_latin c || is_digit09 c || (c =? 95) else uni_word c.

(** [\d] *)
Definition is_digit (c : Z) : bool :=
  if is_ascii c then is_digit09 c else uni_digit c.

(** A pattern letter [p] (lower case ASCII) against a character, under
    [re.IGNORECASE]. *)
Definition fold_eq (p c : Z) : bool :=
  if is_ascii c then (if is_upper_az c then c + 32 else c) =? p
  else uni_fold_eq p c.

Definition lit_i (s : string) : regex := lit_with fold_eq (s2l s).

Definition word_opt (c : option Z) : bool :=
  match c with Some x => is_word x | None => false end.

Fixpoint rmatch (r : regex) (prev : option Z) (s : str)
    (k : option Z -> str -> bool) : bool :=
  match r with
  | Eps => k prev s
  | Chr p =>
      match s with
      | c :: s' => p c && k (Some c) s'
      | [] => false
      end
  | Seq a b => rmatch a prev s (fun prev' s' => rmatch b prev' s' k)
  | Alt a b => rmatch a prev s k || rmatch b prev s k
  | Star a =>
      (fix star (fuel : nat) (prev : option Z) (s : str) : bool :=
         k prev s ||
         match fuel with
         | O => false
         | S fuel' =>
             rmatch a prev s
               (fun prev' s' =>
                  (length s' <? length s)%nat && star fuel' prev' s')
         end) (length s) prev s
  | Bol => match prev with None => k prev s | Some _ => false end
  | WordBoundary => xorb (word_opt prev) (word_opt (hd_error s)) && k prev s
  end.

Fixpoint search_from (r : regex) (prev : option Z) (s : str) : bool :=
  rmatch r prev s (fun _ _ => true) ||
  match s with
  | [] => false
  | c :: s' => search_from r (Some c) s'
  end.

(** The truth value of [re.search(r, s)]. *)
Definition re_search (r : regex) (s : str) : bool := search_from r None s.

(** ** Sentiment *)

Inductive sentiment := Positive | Negative | Neutral | Unknown.

#[export] Instance sentiment_eq_dec : EqDecision sentiment.
Proof. solve_decision. Defined.

Definition sentiment_name (l : sentiment) : str :=
  match l with
  | Positive => s2l "positive"
  | Negative => s2l "negative"
  | Neutral => s2l "neutral"
  | Unknown => s2l "unknown"
  end.

Definition POSITIVE_WORDS : list str :=
  map s2l ["good"; "great"; "excellent"; "awesome"; "amazing"; "helpful"; "best";
           "love"; "support"; "thank"; "thanks"; "semma"; "vera"; "level";
           "verithanam"; "super"; "nice"; "improve"; "improved"; "useful"]%string.

Definition NEGATIVE_WORDS : list str :=
  map s2l ["bad"; "worst"; "poor"; "waste"; "useless"; "issue"; "problem"; "bug";
           "hate"; "slow"; "broken"; "mokkai"; "not"; "spam"; "fake"; "difficult";
           "error"; "dislike"; "delay"]%string.

Definition POSITIVE_EMOJI : list str :=
  [[128512]; [128516]; [128522]; [128077]; [10084; 65039]; [10084];
   [128293]; [128079]; [128591]].

Definition NEGATIVE_EMOJI : list str :=
  [[128545]; [128542]; [128078]; [128148]; [128546]; [128557]].

Definition DEFAULT_SENTIMENT_SCORE (l : sentiment) : Q :=
  match l with
  | Positive => 0.62
  | Negative => 0.62
  | Neutral => 0.50
  | Unknown => 0.00
  end.

Definition in_words (token : str) (ws : list str) : bool :=
  existsb (str_eqb token) ws.

Definition is_token_char (c : Z) : bool := is_latin c || (c =? 39).

(** [re.findall(r"[a-zA-Z']+", s)]: the maximal runs; [cur] is the run being
    read, last character first. *)
Fixpoint findall_words (cur : str) (s : str) : list str :=
  match s with
  | [] => match cur with [] => [] | _ => [rev cur] end
  | c :: s' =>
      if is_token_char c then findall_words (c :: cur) s'
      else match cur with
           | [] => findall_words [] s'
           | _ => rev cur :: findall_words [] s'
           end
  end.

Fixpoint starts_with (sub s : str) : bool :=
  match sub, s with
  | [], _ => true
  | a :: sub', b :: s' => (a =? b) && starts_with sub' s'
  | _ :: _, [] => false
  end.

(** [s.count(sub)] for a non-empty [sub]: occurrences that do not overlap,
    from the left. [skip] characters belong to the occurrence just counted. *)
Fixpoint count_from (sub : str) (skip : nat) (s : str) : nat :=
  match s with
  | [] => 0
  | _ :: s' =>
      match skip with
      | S n => count_from sub n s'
      | O => if starts_with sub s
             then S (count_from sub (length sub - 1) s')
             else count_from sub 0 s'
      end
  end.

Definition count (s sub : str) : nat := count_from sub 0 s.

Definition sum_counts (s : str) (subs : list str) : nat :=
  fold_right (fun x acc => (count s x + acc)%nat) 0%nat subs.

Definition Qltb (x y : Q) : bool := negb (Qle_bool y x).

(** Rounding to the nearest integer, ties to even. *)
Definition round_half_even (q : Q) : Z :=
  let f := Qfloor q in
  let r := (q - inject_Z f)%Q in
  if Qltb r (1 # 2) then f
  else if Qltb (1 # 2) r then f + 1
  else if Z.even f then f else f + 1.

(** [round(x, 4)] *)
Definition round4 (x : Q) : Q :=
  Qred (inject_Z (round_half_even (x * 10000)) / 10000).

Definition NOT_GOOD : regex :=
  Seq WordBoundary (Seq (alts [lit "not"; lit "no"; lit "never"])
    (Seq (Plus (Chr is_space))
      (Seq (alts [lit "good"; lit "great"; lit "excellent"; lit "super"; lit "nice"])
           WordBoundary))).

Definition NOT_BAD : regex :=
  Seq WordBoundary (Seq (alts [lit "not"; lit "no"; lit "never"])
    (Seq (Plus (Chr is_space))
      (Seq (alts [lit "bad"; lit "poor"; lit "waste"; lit "worst"])
           WordBoundary))).

(** [[a-zA-Zऀ-ൿ]] *)
Definition is_alphabetic (c : Z) : bool := is_latin c || in_range 2304 3455 c.

Record verdict := { v_sentiment : sentiment; v_score : Q }.

Definition count_words (words ws : list str) : Q :=
  inject_Z (Z.of_nat (length (filter (fun t => in_words t ws) words))).

Definition emoji_weight (s : str) (emoji : list str) : Q :=
  (inject_Z (Z.of_nat (sum_counts s emoji)) * 0.5)%Q.

(** [pos] and [neg] as the function has them before [delta] is taken. *)
Definition positive_score (lowered : str) : Q :=
  (count_words (findall_words [] lowered) POSITIVE_WORDS
   + emoji_weight lowered POSITIVE_EMOJI
   + (if re_search NOT_BAD lowered then 1 else 0))%Q.

Definition negative_score (lowered : str) : Q :=
  (count_words (findall_words [] lowered) NEGATIVE_WORDS
   + emoji_weight lowered NEGATIVE_EMOJI
   + (if re_search NOT_GOOD lowered then 1 else 0))%Q.

Definition sentiment_delta (lowered : str) : Q :=
  (positive_score lowered - negative_score lowered)%Q.

Definition classify (delta : Q) (lowered : str) : sentiment :=
  if Qltb 0.35 delta then Positive
  else if Qltb delta (-0.35) then Negative
  else if existsb is_alphabetic lowered then Neutral
  else Unknown.

Definition confidence (l : sentiment) (delta : Q) : Q :=
  match l with
  | Positive | Negative => Qmin 0.99 (0.55 + Qmin (Qabs delta) 5 * 0.08)
  | _ => DEFAULT_SENTIMENT_SCORE l
  end.

Definition heuristic_sentiment (text : str) : verdict :=
  let cleaned := normalize_whitespace text in
  match cleaned with
  | [] => {| v_sentiment := Unknown; v_score := DEFAULT_SENTIMENT_SCORE Unknown |}
  | _ =>
      let lowered := lower cleaned in
      if (length lowered <=? 3)%nat
      then {| v_sentiment := Unknown; v_score := DEFAULT_SENTIMENT_SCORE Unknown |}
      else
        let delta := sentiment_delta lowered in
        let l := classify delta lowered in
        {| v_sentiment := l; v_score := round4 (confidence l delta) |}
  end.

(** ** Summary *)

(** [cut.rsplit(" ", 1)[0]] when [" " in cut]: what precedes the last space;
    [None] when there is no space. *)
Fixpoint before_last_space (s : str) : option str :=
  match s with
  | [] => None
  | c :: s' =>
      match before_last_space s' with
      | Some t => Some (c :: t)
      | None => if c =? 32 then Some [] else None
      end
  end.

Definition ELLIPSIS : str := s2l "...".

Definition short_summary_at (max_chars : nat) (text : str) : str :=
  let cleaned := normalize_whitespace text in
  if (length cleaned <=? max_chars)%nat then cleaned
  else
    let cut := firstn (max_chars - 3) cleaned in
    let cut := match before_last_space cut with
               | Some t => t
               | None => cut
               end in
    cut ++ ELLIPSIS.

Definition short_summary (text : str) : str := short_summary_at 220 text.

(** ** Rows *)

(** A value of a row that was not analysed yet. *)
Inductive value := VNone | VStr (s : str) | VFloat (x : Q).

(** A row as the extractor or the CSV reader hands it over. The program reads
    such a row with [row.get(key, default)] and passes the result through
    [normalize_whitespace], whose [str(value or '')] makes an absent key and a
    key bound to [None] indistinguishable: both are [None] here. The extractor
    sets the first three fields only. *)
Record raw_row := {
  raw_author : option str;
  raw_timestamp : option str;
  raw_text : option str;
  raw_lang : option str;
  raw_sentiment : option str;
  raw_score : value;
  raw_summary : option str
}.

(** [normalize_whitespace(row.get(key, dflt))] *)
Definition field (v : option str) : str := normalize_whitespace (default [] v).

(** A row after [normalize_rows]. *)
Record comment := {
  author : str;
  timestamp : str;
  text : str;
  lang : str;
  sentiment_label : sentiment;
  sentiment_score : Q;
  summary : str
}.

Definition comment_key (row : comment) : str :=
  make_comment_key (author row) (text row).

(** [make_comment_key(row.get('author', ''), row.get('text', ''))] on a raw
    row. *)
Definition raw_key (row : raw_row) : str :=
  make_comment_key (default [] (raw_author row)) (default [] (raw_text row)).

(** ** Merge *)

(** One iteration of the loop of [merge_with_existing] on the pair
    ([merged], [seen]). *)
Definition merge_step (st : list comment * gset str) (row : comment)
    : list comment * gset str :=
  let key := comment_key row in
  if decide (key ∈ st.2) then st
  else (st.1 ++ [row], {[key]} ∪ st.2).

Definition merge_with_existing (new_rows existing_rows : list comment)
    : list comment :=
  (fold_left merge_step (new_rows ++ existing_rows) ([], ∅)).1.

(** ** Pagination *)

Inductive result (A : Type) := Ok (a : A) | Raise (msg : str).
#[global] Arguments Ok {A} a.
#[global] Arguments Raise {A} msg.

(** A page token: [Composite n] is [f"0,{n}"] and [Plain n] is [str(n)]. *)
Inductive token := Composite (n : nat) | Plain (n : nat).

#[export] Instance token_eq_dec : EqDecision token.
Proof. solve_decision. Defined.

(** What the remote site answers during one scrape: [site_root] is the outcome
    of [fetch_html] followed by [extract_view_params], and [site_page t] the
    outcome of [extract_comments_from_html(fetch_ajax_page(url, params, t))]. *)
Record site := {
  site_root : result unit;
  site_page : token -> result (list raw_row)
}.

Record scrape_state := {
  collected : list raw_row;
  seen_keys : gset str;
  empty_streak : nat;
  fetched : list token          (* the requests made so far, oldest first *)
}.

Definition page_tokens (page_index : nat) : list token :=
  match page_index with
  | O => [Plain 0]
  | _ => [Composite page_index; Plain page_index]
  end.

(** The inner loop over [tokens]: the first non-empty extraction, and the
    requests it took. *)
Fixpoint first_rows (w : site) (tokens : list token) (log : list token)
    : result (list raw_row) * list token :=
  match tokens with
  | [] => (Ok [], log)
  | t :: rest =>
      match site_page w t with
      | Raise e => (Raise e, log ++ [t])
      | Ok [] => first_rows w rest (log ++ [t])
      | Ok extracted => (Ok extracted, log ++ [t])
      end
  end.

(** The loop over [page_rows]: rows with an unseen key are appended. The
    result carries [new_in_page]. *)
Definition add_row (st : list raw_row * gset str * nat) (row : raw_row)
    : list raw_row * gset str * nat :=
  let '(coll, seen, new_in_page) := st in
  let key := raw_key row in
  if decide (key ∈ seen) then st
  else (coll ++ [row], {[key]} ∪ seen, S new_in_page).

Inductive flow :=
| Continue (st : scrape_state)
| Break (st : scrape_state)
| Raised (msg : str) (log : list token).

(** The body of the loop over [page_index]. *)
Definition page_body (w : site) (st : scrape_state) (page_index : nat) : flow :=
  match first_rows w (page_tokens page_index) (fetched st) with
  | (Raise e, log) => Raised e log
  | (Ok [], log) =>
      let streak := S (empty_streak st) in
      let st' := {| collected := collected st; seen_keys := seen_keys st;
                    empty_streak := streak; fetched := log |} in
      if (0 <? page_index)%nat && (2 <=? streak)%nat then Break st'
      else Continue st'
  | (Ok page_rows, log) =>
      let '(coll, seen, new_in_page) :=
        fold_left add_row page_rows (collected st, seen_keys st, 0%nat) in
      let st' := {| collected := coll; seen_keys := seen;
                    empty_streak := 0; fetched := log |} in
      if (0 <? page_index)%nat && (new_in_page =? 0)%nat then Break st'
      else Continue st'
  end.

Fixpoint page_loop (w : site) (indexes : list nat) (st : scrape_state) : flow :=
  match indexes with
  | [] => Break st
  | page_index :: rest =>
      match page_body w st page_index with
      | Continue st' => page_loop w rest st'
      | stop => stop
      end
  end.

Definition initial_scrape : scrape_state :=
  {| collected := []; seen_keys := ∅; empty_streak := 0; fetched := [] |}.

(** [scrape_comments_paginated] with [MAX_PAGES_PER_SCRAPE = max_pages]: the
    rows collected, or the exception, and the page requests made. *)
Definition scrape_comments_paginated (max_pages : nat) (w : site)
    : result (list raw_row) * list token :=
  match site_root w with
  | Raise e => (Raise e, [])
  | Ok _ =>
      match page_loop w (seq 0 max_pages) initial_scrape with
      | Continue st | Break st => (Ok (collected st), fetched st)
      | Raised e log => (Raise e, log)
      end
  end.

(** ** Text repair and filters *)

Definition continuation (b : Z) : bool := in_range 128 191 b.

(** [bytes.decode("utf-8")], strict: [None] when it raises. *)
Fixpoint utf8_decode (bs : list Z) : option str :=
  match bs with
  | [] => Some []
  | b0 :: rest =>
      if in_range 0 127 b0 then cons b0 <$> utf8_decode rest
      else if in_range 194 223 b0 then
        match rest with
        | b1 :: rest1 =>
            if continuation b1
            then cons ((b0 - 192) * 64 + (b1 - 128)) <$> utf8_decode rest1
            else None
        | _ => None
        end
      else if in_range 224 239 b0 then
        match rest with
        | b1 :: b2 :: rest2 =>
            if in_range (if b0 =? 224 then 160 else 128)
                        (if b0 =? 237 then 159 else 191) b1
               && continuation b2
            then cons (((b0 - 224) * 64 + (b1 - 128)) * 64 + (b2 - 128))
                   <$> utf8_decode rest2
            else None
        | _ => None
        end
      else if in_range 240 244 b0 then
        match rest with
        | b1 :: b2 :: b3 :: rest3 =>
            if in_range (if b0 =? 240 then 144 else 128)
                        (if b0 =? 244 then 143 else 191) b1
               && continuation b2 && continuation b3
            then cons ((((b0 - 240) * 64 + (b1 - 128)) * 64 + (b2 - 128)) * 64
                       + (b3 - 128)) <$> utf8_decode rest3
            else None
        | _ => None
        end
      else None
  end.

(** [str.encode("latin1")], strict. *)
Definition latin1_encode (s : str) : option (list Z) :=
  if forallb (in_range 0 255) s then Some s else None.

Definition fix_mojibake (text : str) : str :=
  let cleaned := normalize_whitespace text in
  match cleaned with
  | [] => []
  | _ =>
      if existsb (fun c => (c =? 195) || (c =? 194) || (c =? 226)) cleaned
      then match latin1_encode cleaned ≫= utf8_decode with
           | Some repaired => normalize_whitespace repaired
           | None => cleaned
           end
      else cleaned
  end.

Definition paren_digits : regex :=
  Seq (lit "(") (Seq (Plus (Chr is_digit)) (lit ")")).

Definition JUNK_PATTERNS : list regex :=
  [ Seq Bol (Seq (lit_i "like") (Seq (Star (Chr is_space)) (Seq paren_digits
      (Seq (Star (Chr is_space)) (Seq (lit_i "dislike")
        (Seq (Star (Chr is_space)) paren_digits))))));
    Seq (lit_i "facebook") (Seq (Plus (Chr is_space)) (lit_i "twitter"));
    Seq Bol (Seq (lit_i "report") (Seq (Plus (Chr is_space)) (lit_i "spam"))) ].

Definition is_junk_or_boilerplate (text : str) : bool :=
  let cleaned := normalize_whitespace text in
  match cleaned with
  | [] => true
  | _ =>
      if (length cleaned <? 3)%nat then true
      else existsb (fun pattern => re_search pattern cleaned) JUNK_PATTERNS
  end.

Definition PLACEHOLDER_AUTHORS : list str :=
  map s2l [EmptyString; "unknown"; "default icon for user"; "home"; "user"]%string.

Definition is_placeholder_author (author : str) : bool :=
  in_words (lower (normalize_whitespace author)) PLACEHOLDER_AUTHORS.

(** ** Language *)

Definition LANGUAGE_CODE_MAP : list (str * str) :=
  map (fun p => (s2l p.1, s2l p.2))
    [("en", "English"); ("hi", "Hindi"); ("ta", "Tamil"); ("te", "Telugu");
     ("ml", "Malayalam"); ("kn", "Kannada"); ("mr", "Marathi");
     ("gu", "Gujarati"); ("bn", "Bengali"); ("pa", "Punjabi"); ("or", "Odia");
     ("ur", "Urdu")]%string.

Fixpoint assoc (k : str) (m : list (str * str)) : option str :=
  match m with
  | [] => None
  | (k', v) :: m' => if str_eqb k k' then Some v else assoc k m'
  end.

Definition SCRIPT_PATTERNS : list (Z * Z * str) :=
  [ (2304, 2431, s2l "Hindi"); (2432, 2559, s2l "Bengali");
    (2560, 2687, s2l "Punjabi"); (2688, 2815, s2l "Gujarati");
    (2816, 2943, s2l "Odia"); (2944, 3071, s2l "Tamil");
    (3072, 3199, s2l "Telugu"); (3200, 3327, s2l "Kannada");
    (3328, 3455, s2l "Malayalam"); (1536, 1791, s2l "Urdu") ].

Fixpoint first_script (patterns : list (Z * Z * str)) (text : str) : option str :=
  match patterns with
  | [] => None
  | (lo, hi, language) :: rest =>
      if existsb (in_range lo hi) text then Some language
      else first_script rest text
  end.

Definition detect_language_from_script (text : str) : str :=
  match first_script SCRIPT_PATTERNS text with
  | Some language => language
  | None => if existsb is_latin text then s2l "English" else s2l "Unknown"
  end.

Definition title_char (c : Z) : list Z :=
  if is_ascii c then [if is_lower_az c then c - 32 else c] else uni_title c.

(** [str.title]: a character that follows a cased one is lowered, any other
    gets its titlecase form. *)
Fixpoint title_from (before : str) (s : str) : str :=
  match s with
  | [] => []
  | c :: s' =>
      (match before with
       | p :: _ => if cased p then lower_char before c s' else title_char c
       | [] => title_char c
       end) ++ title_from (c :: before) s'
  end.

Definition title (s : str) : str := title_from [] s.

Definition normalize_language_name (raw : str) : str :=
  let value := normalize_whitespace raw in
  match value with
  | [] => s2l "Unknown"
  | _ =>
      match assoc (lower value) LANGUAGE_CODE_MAP with
      | Some name => name
      | None =>
          let titled := title value in
          if in_words titled (map snd LANGUAGE_CODE_MAP) then titled else value
      end
  end.

Definition detect_language_name (text : str) : str :=
  let cleaned := normalize_whitespace text in
  match cleaned with
  | [] => s2l "Unknown"
  | _ =>
      let script_guess := detect_language_from_script cleaned in
      match detect cleaned ≫= (fun code => assoc (lower code) LANGUAGE_CODE_MAP) with
      | Some ((_ :: _) as mapped) => mapped
      | _ => normalize_language_name script_guess
      end
  end.

(** ** Analysis *)

(** [sub in s] *)
Fixpoint contains (sub s : str) : bool :=
  starts_with sub s ||
  match s with
  | [] => false
  | _ :: s' => contains sub s'
  end.

Definition SENTIMENT_ALIASES : list (str * sentiment) :=
  [ (s2l "pos", Positive); (s2l "neg", Negative); (s2l "neu", Neutral);
    (s2l "label_0", Negative); (s2l "label_1", Neutral);
    (s2l "label_2", Positive) ].

Definition normalize_sentiment (raw : str) : sentiment :=
  let label := lower (normalize_whitespace raw) in
  match filter (fun l => str_eqb label (sentiment_name l))
               [Positive; Negative; Neutral; Unknown] with
  | l :: _ => l
  | [] =>
      match filter (fun p => str_eqb label p.1) SENTIMENT_ALIASES with
      | p :: _ => p.2
      | [] =>
          if contains (s2l "pos") label then Positive
          else if contains (s2l "neg") label then Negative
          else if contains (s2l "neu") label then Neutral
          else Unknown
      end
  end.

(** The dict that [analyze_comment] returns and caches. *)
Record analysis := {
  a_sentiment : sentiment;
  a_score : Q;
  a_lang : str;
  a_summary : str
}.

Definition clamp01 (x : Q) : Q := Qmax 0 (Qmin 1 x).

(** [analyze_with_gemini], given the answer of the external model. *)
Definition analyze_with_gemini (answer : option reply) (text_input : str)
    : option analysis :=
  r ← answer;
  let l := normalize_sentiment (reply_sentiment r) in
  match l with
  | Unknown => None
  | _ =>
      Some {| a_sentiment := l;
              a_score := clamp01 (default (DEFAULT_SENTIMENT_SCORE l) (reply_score r));
              a_lang := normalize_language_name (reply_language r);
              a_summary := short_summary (default text_input (reply_summary r)) |}
  end.

(** The process-wide analysis state: [_analysis_cache], keyed by the hash of
    the cleaned text, and the number of calls made to the external model. *)
Record memo := {
  cache : gmap str analysis;
  model_calls : nat
}.

Definition empty_analysis : analysis :=
  {| a_sentiment := Unknown; a_score := DEFAULT_SENTIMENT_SCORE Unknown;
     a_lang := s2l "Unknown"; a_summary := [] |}.

Definition analyze_comment (m : memo) (text : str) : analysis * memo :=
  let cleaned := fix_mojibake text in
  match cleaned with
  | [] => (empty_analysis, m)
  | _ =>
      let cache_key := text_hash cleaned in
      match cache m !! cache_key with
      | Some cached => (cached, m)
      | None =>
          let local := heuristic_sentiment cleaned in
          let result := {| a_sentiment := v_sentiment local;
                           a_score := v_score local;
                           a_lang := detect_language_name cleaned;
                           a_summary := short_summary cleaned |} in
          let result :=
            match analyze_with_gemini (external_model (model_calls m) cleaned) cleaned with
            | Some gemini => gemini
            | None => result
            end in
          (result, {| cache := <[cache_key := result]> (cache m);
                      model_calls := S (model_calls m) |})
      end
  end.

Definition or_unknown (s : str) : str :=
  match s with [] => s2l "Unknown" | _ => s end.

(** One iteration of the loop of [normalize_rows] on ([normalized], memo). *)
Definition normalize_row (st : list comment * memo) (row : raw_row)
    : list comment * memo :=
  let text := fix_mojibake (default [] (raw_text row)) in
  if is_junk_or_boilerplate text then st
  else
    let author := or_unknown (fix_mojibake (default (s2l "Unknown") (raw_author row))) in
    let author := if is_placeholder_author author then s2l "Unknown" else author in
    let timestamp := fix_mojibake (default [] (raw_timestamp row)) in
    let '(analysis, m) := analyze_comment st.2 text in
    (st.1 ++ [ {| author := author;
                  timestamp := timestamp;
                  text := text;
                  lang := or_unknown (normalize_language_name (a_lang analysis));
                  sentiment_label := normalize_sentiment (sentiment_name (a_sentiment analysis));
                  sentiment_score := a_score analysis;
                  summary := short_summary (a_summary analysis) |} ], m).

Definition normalize_rows (m : memo) (rows : list raw_row) : list comment * memo :=
  fold_left normalize_row rows ([], m).

(** ** Persistence *)

Definition CSV_FIELDS : list str :=
  map s2l ["author"; "timestamp"; "text"; "lang"; "sentiment";
           "sentiment_score"; "summary"]%string.

Definition digit_char (d : Z) : Z := 48 + d.

Fixpoint uint_digits (u : Decimal.uint) : str :=
  match u with
  | Decimal.Nil => []
  | Decimal.D0 u' => digit_char 0 :: uint_digits u'
  | Decimal.D1 u' => digit_char 1 :: uint_digits u'
  | Decimal.D2 u' => digit_char 2 :: uint_digits u'
  | Decimal.D3 u' => digit_char 3 :: uint_digits u'
  | Decimal.D4 u' => digit_char 4 :: uint_digits u'
  | Decimal.D5 u' => digit_char 5 :: uint_digits u'
  | Decimal.D6 u' => digit_char 6 :: uint_digits u'
  | Decimal.D7 u' => digit_char 7 :: uint_digits u'
  | Decimal.D8 u' => digit_char 8 :: uint_digits u'
  | Decimal.D9 u' => digit_char 9 :: uint_digits u'
  end.

(** The decimal digits of a natural number. *)
Definition decimal (n : Z) : str := uint_digits (N.to_uint (Z.to_N n)).

(** The number of ten-thousandths that [.4f] prints for [x]. *)
Definition ten_thousandths (x : Q) : Z := round_half_even (Qabs x * 10000).

(** [f"{x:.4f}"] *)
Definition format_4f (x : Q) : str :=
  let n := ten_thousandths x in
  (if Qltb x 0 then [45] else [])
  ++ decimal (n / 10000) ++ [46]
  ++ [digit_char (n / 1000 mod 10); digit_char (n / 100 mod 10);
      digit_char (n / 10 mod 10); digit_char (n mod 10)].

(** The fields of the dict that [save_rows_to_csv] hands to the writer. *)
Definition csv_record (row : comment) : list str :=
  [ author row; timestamp row; text row; lang row;
    sentiment_name (normalize_sentiment (sentiment_name (sentiment_label row)));
    format_4f (sentiment_score row); summary row ].

Definition is_scalar (c : Z) : bool :=
  in_range 0 55295 c || in_range 57344 1114111 c.

(** [str.encode("utf-8")], strict: [None] stands for [UnicodeEncodeError]. *)
Definition utf8_strict (s : str) : option (list Z) :=
  if forallb is_scalar s then Some (utf8_encode s) else None.

Definition BOM : list Z := [239; 187; 191].

Definition ENCODE_ERROR : str :=
  s2l "'utf-8' codec can't encode character: surrogates not allowed".

(** Writing the lines of a table one [write] at a time: the bytes that reach
    the file, and whether a line could not be encoded. *)
Fixpoint write_lines (lines : list str) : list Z * result unit :=
  match lines with
  | [] => ([], Ok tt)
  | line :: rest =>
      match utf8_strict line with
      | None => ([], Raise ENCODE_ERROR)
      | Some bytes => let '(more, r) := write_lines rest in (bytes ++ more, r)
      end
  end.

(** [save_rows_to_csv]: the content of the file when the function is left,
    and how it is left. The codec [utf-8-sig] writes the mark with the first
    line, the header, which always encodes. *)
Definition save_rows_to_csv (rows : list comment) : list Z * result unit :=
  let '(bytes, r) :=
    write_lines (CSV.write_row CSV_FIELDS
                 :: map (fun row => CSV.write_row (csv_record row)) rows) in
  (BOM ++ bytes, r).

Inductive encoding := utf_8_sig | utf_8 | cp1252.

Definition CP1252_HIGH : list Z :=
  [8364; -1; 8218; 402; 8222; 8230; 8224; 8225; 710; 8240; 352; 8249; 338; -1;
   381; -1; -1; 8216; 8217; 8220; 8221; 8226; 8211; 8212; 732; 8482; 353; 8250;
   339; -1; 382; 376].

Definition cp1252_char (b : Z) : option Z :=
  if in_range 128 159 b
  then (let c := nth (Z.to_nat (b - 128)) CP1252_HIGH (-1) in
        if c <? 0 then None else Some c)
  else Some b.

(** [bytes.decode(encoding)]: [None] stands for [UnicodeDecodeError]. *)
Definition decode (e : encoding) (bytes : list Z) : option str :=
  match e with
  | utf_8_sig =>
      match bytes with
      | 239 :: 187 :: 191 :: rest => utf8_decode rest
      | _ => utf8_decode bytes
      end
  | utf_8 => utf8_decode bytes
  | cp1252 => mapM cp1252_char bytes
  end.

Definition text_cell (dflt : str) (c : CSV.cell) : option str :=
  match c with
  | CSV.Absent => Some dflt
  | CSV.Missing => None
  | CSV.Text s => Some s
  end.

(** The dict that [load_rows_from_csv] builds from one dict of the reader. *)
Definition loaded_row (get : str -> CSV.cell) : raw_row :=
  {| raw_author := text_cell (s2l "Unknown") (get (s2l "author"));
     raw_timestamp := text_cell [] (get (s2l "timestamp"));
     raw_text := text_cell [] (get (s2l "text"));
     raw_lang := text_cell (s2l "Unknown") (get (s2l "lang"));
     raw_sentiment := text_cell (s2l "unknown") (get (s2l "sentiment"));
     raw_score := match get (s2l "sentiment_score") with
                  | CSV.Absent => VFloat 0
                  | CSV.Missing => VNone
                  | CSV.Text s => VStr s
                  end;
     raw_summary := match get (s2l "summary") with
                    | CSV.Absent => text_cell [] (get (s2l "text"))
                    | CSV.Missing => None
                    | CSV.Text s => Some s
                    end |}.

(** The loop over the encodings: a text that does not decode leads to the
    next encoding, any other failure to the empty list. *)
Fixpoint load_with (encodings : list encoding) (bytes : list Z) : list raw_row :=
  match encodings with
  | [] => []
  | e :: rest =>
      match decode e bytes with
      | None => load_with rest bytes
      | Some content =>
          match CSV.records CSV.parse_reset (CSV.split_lines [] content) with
          | None => []
          | Some recs => map loaded_row (CSV.dict_rows recs)
          end
      end
  end.

(** [load_rows_from_csv] on the content of the file, [None] when the file
    does not exist. *)
Definition load_rows_from_csv (file : option (list Z)) : list raw_row :=
  match file with
  | None => []
  | Some bytes => load_with [utf_8_sig; utf_8; cp1252] bytes
  end.

(** ** Sources and their files *)

Inductive source := site1 | site2.

#[export] Instance source_eq_dec : EqDecision source.
Proof. solve_decision. Defined.

Definition SOURCES : list source := [site1; site2].

Definition csv_name (s : source) : string :=
  match s with
  | site1 => "comments_processed_site1.csv"
  | site2 => "comments_processed_site2.csv"
  end.

Definition raw_csv_name (s : source) : string :=
  match s with
  | site1 => "comments_raw_site1.csv"
  | site2 => "comments_raw_site2.csv"
  end.

Definition config_name (s : source) : str :=
  match s with
  | site1 => s2l "Mann Ki Baat (English)"
  | site2 => s2l "Akshar Hindi (Hindi)"
  end.

(** Paths are relative to [PROJECT_ROOT]. *)
Definition OUTPUT_DIR : string := "outputs/".
Definition DASHBOARD_OUTPUT_DIR : string := "dashboard/public/outputs/".

Definition csv_path (s : source) : string := OUTPUT_DIR ++ csv_name s.
Definition raw_csv_path (s : source) : string := OUTPUT_DIR ++ raw_csv_name s.
Definition dashboard_csv_path (s : source) : string :=
  DASHBOARD_OUTPUT_DIR ++ csv_name s.
Definition dashboard_raw_csv_path (s : source) : string :=
  DASHBOARD_OUTPUT_DIR ++ raw_csv_name s.

(** What a run of the pipeline reads and changes outside the per-source
    state: the files and the analysis cache. *)
Record store := {
  files : gmap string (list Z);
  analysis_memo : memo
}.

Definition save_at (path : string) (rows : list comment) (st : store)
    : store * result unit :=
  let '(bytes, r) := save_rows_to_csv rows in
  ({| files := <[path := bytes]> (files st); analysis_memo := analysis_memo st |}, r).

(** The saves of [scrape_and_analyze_source], in order, up to the first one
    that raises. *)
Fixpoint save_all (targets : list (string * list comment)) (st : store)
    : store * result unit :=
  match targets with
  | [] => (st, Ok tt)
  | (path, rows) :: rest =>
      match save_at path rows st with
      | (st', Ok _) => save_all rest st'
      | (st', Raise e) => (st', Raise e)
      end
  end.

Definition raw_like (row : comment) : comment :=
  {| author := author row; timestamp := timestamp row; text := text row;
     lang := lang row; sentiment_label := sentiment_label row;
     sentiment_score := sentiment_score row; summary := summary row |}.

Definition load_normalized (st : store) (path : string) : list comment * store :=
  let '(rows, m) :=
    normalize_rows (analysis_memo st) (load_rows_from_csv (files st !! path)) in
  (rows, {| files := files st; analysis_memo := m |}).

Definition scrape_and_analyze_source (max_pages : nat) (w : site)
    (s : source) (st : store) : result (list comment) * store :=
  match (scrape_comments_paginated max_pages w).1 with
  | Raise e => (Raise e, st)
  | Ok [] => (Raise (s2l "No comments extracted from source."), st)
  | Ok scraped_rows =>
      let '(analyzed_rows, m) := normalize_rows (analysis_memo st) scraped_rows in
      let st := {| files := files st; analysis_memo := m |} in
      match analyzed_rows with
      | [] => (Raise (s2l "No valid comments after analysis."), st)
      | _ =>
          let '(existing_rows, st) := load_normalized st (csv_path s) in
          let merged_rows := merge_with_existing analyzed_rows existing_rows in
          let raw_like_rows := map raw_like merged_rows in
          match save_all [ (csv_path s, merged_rows);
                           (dashboard_csv_path s, merged_rows);
                           (raw_csv_path s, raw_like_rows);
                           (dashboard_raw_csv_path s, raw_like_rows) ] st with
          | (st', Ok _) => (Ok merged_rows, st')
          | (st', Raise e) => (Raise e, st')
          end
      end
  end.

(** ** Per-source state and refresh *)

Record site_state := {
  source_name : str;
  comments : list comment;
  last_updated : option Q;      (* seconds, the instant of [datetime.now] *)
  in_progress : bool;
  last_error : option str
}.

Definition initial_state (s : source) : site_state :=
  {| source_name := config_name s; comments := []; last_updated := None;
     in_progress := false; last_error := None |}.

(** Where a background unit running [refresh_site_state] stands. *)
Inductive position :=
| Spawned          (* started, before the first critical section *)
| InPipeline       (* inside [try], running [scrape_and_analyze_source] *)
| AtFinally        (* past the [try] and [except] blocks *)
| Exited.

#[export] Instance position_eq_dec : EqDecision position.
Proof. solve_decision. Defined.

Record unit_of_work := { target : source; at_ : position }.

Record system := {
  site_states : source -> site_state;
  shared : store;
  units : list unit_of_work
}.

Definition set_state (sys : system) (s : source) (st : site_state) : system :=
  {| site_states := <[s := st]> (site_states sys);
     shared := shared sys; units := units sys |}.

Definition set_unit (sys : system) (i : nat) (p : position) : system :=
  {| site_states := site_states sys; shared := shared sys;
     units := alter (fun u => {| target := target u; at_ := p |}) i (units sys) |}.

Definition should_refresh (refresh_interval : Z) (last_updated : option Q) (now : Q) : bool :=
  match last_updated with
  | None => true
  | Some updated_at => Qle_bool (inject_Z refresh_interval) (now - updated_at)
  end.

(** [trigger_refresh_if_needed]: one critical section. The value returned and
    the system after it; a started unit joins [units]. *)
Definition trigger_refresh_if_needed (refresh_interval : Z) (sys : system)
    (s : source) (force : bool) (now : Q) : bool * system :=
  let state := site_states sys s in
  if in_progress state then (false, sys)
  else if negb force && negb (should_refresh refresh_interval (last_updated state) now)
  then (false, sys)
  else (true, {| site_states := site_states sys; shared := shared sys;
                 units := units sys ++ [ {| target := s; at_ := Spawned |} ] |}).

(** The first critical section of [refresh_site_state]. *)
Definition refresh_enter (sys : system) (i : nat) (s : source) : system :=
  let state := site_states sys s in
  if in_progress state then set_unit sys i Exited
  else
    set_unit
      (set_state sys s
         {| source_name := source_name state; comments := comments state;
            last_updated := last_updated state;
            in_progress := true; last_error := None |})
      i InPipeline.

(** The [try] block with its [except] clause: the pipeline, then the critical
    section that records its outcome. *)
Definition refresh_record (max_pages : nat) (w : site) (now : Q)
    (sys : system) (i : nat) (s : source) : system :=
  let '(outcome, st) := scrape_and_analyze_source max_pages w s (shared sys) in
  let state := site_states sys s in
  let state' :=
    match outcome with
    | Ok merged_rows =>
        {| source_name := source_name state; comments := merged_rows;
           last_updated := Some now; in_progress := in_progress state;
           last_error := None |}
    | Raise exc =>
        {| source_name := source_name state; comments := comments state;
           last_updated := last_updated state; in_progress := in_progress state;
           last_error := Some exc |}
    end in
  set_unit
    {| site_states := <[s := state']> (site_states sys); shared := st;
       units := units sys |}
    i AtFinally.

(** The [finally] block. *)
Definition refresh_release (sys : system) (i : nat) (s : source) : system :=
  let state := site_states sys s in
  set_unit
    (set_state sys s
       {| source_name := source_name state; comments := comments state;
          last_updated := last_updated state;
          in_progress := false; last_error := last_error state |})
    i Exited.

(** What can happen next in the process: a request triggers a refresh, or a
    background unit takes its next step. The remote site and the clock come
    with the event. *)
Inductive event :=
| Trigger (s : source) (force : bool) (now : Q)
| Advance (i : nat) (w : site) (now : Q).

Definition step (refresh_interval : Z) (max_pages : nat)
    (sys : system) (e : event) : system :=
  match e with
  | Trigger s force now => (trigger_refresh_if_needed refresh_interval sys s force now).2
  | Advance i w now =>
      match units sys !! i with
      | None => sys
      | Some u =>
          match at_ u with
          | Spawned => refresh_enter sys i (target u)
          | InPipeline => refresh_record max_pages w now sys i (target u)
          | AtFinally => refresh_release sys i (target u)
          | Exited => sys
          end
      end
  end.

Definition run (refresh_interval : Z) (max_pages : nat)
    (sys : system) (es : list event) : system :=
  fold_left (step refresh_interval max_pages) es sys.

(** [refresh_site_state] run from its first line to its last with no other
    event in between. *)
Definition refresh_site_state (max_pages : nat) (w : site) (now : Q)
    (sys : system) (i : nat) (s : source) : system :=
  let sys1 := refresh_enter sys i s in
  if in_progress (site_states sys s) then sys1
  else refresh_release (refresh_record max_pages w now sys1 i s) i s.

(** [ensure_seed_data]: the first of the four tables of a source that yields
    rows seeds its state. *)
Fixpoint first_processed (paths : list string) (st : store) : list comment * store :=
  match paths with
  | [] => ([], st)
  | path :: rest =>
      match load_normalized st path with
      | ([], st') => first_processed rest st'
      | found => found
      end
  end.

Definition seed_source (now : source -> Q) (sys : system) (s : source) : system :=
  let '(processed, st) :=
    first_processed [csv_path s; dashboard_csv_path s; raw_csv_path s;
                     dashboard_raw_csv_path s] (shared sys) in
  let state := site_states sys s in
  {| site_states :=
       <[s := {| source_name := source_name state; comments := processed;
                 last_updated := match processed with
                                 | [] => None
                                 | _ => Some (now s)
                                 end;
                 in_progress := in_progress state;
                 last_error := last_error state |}]> (site_states sys);
     shared := st; units := units sys |}.

Definition ensure_seed_data (now : source -> Q) (sys : system) : system :=
  fold_left (seed_source now) SOURCES sys.

Definition boot (fs : gmap string (list Z)) : system :=
  {| site_states := initial_state;
     shared := {| files := fs;
                  analysis_memo := {| cache := ∅; model_calls := 0 |} |};
     units := [] |}.

(** ** Vocabulary of the properties *)

(** The case-insensitive, whitespace-normalized pair of a record. *)
Definition normalized_pair (author text : str) : str * str :=
  (lower (normalize_whitespace author), lower (normalize_whitespace text)).

(** Keeping the first row per identity, [seen] being the identities met. *)
Fixpoint keep_first (seen : gset str) (rows : list comment) : list comment :=
  match rows with
  | [] => []
  | row :: rest =>
      if decide (comment_key row ∈ seen) then keep_first seen rest
      else row :: keep_first ({[comment_key row]} ∪ seen) rest
  end.

Definition identities (rows : list comment) : gset str :=
  list_to_set (map comment_key rows).

(** The first row of a list that bears a given identity. *)
Definition first_with (k : str) (rows : list comment) : option comment :=
  List.find (fun row => str_eqb (comment_key row) k) rows.

(** Keeping the first raw row per identity. *)
Fixpoint keep_first_raw (seen : gset str) (rows : list raw_row) : list raw_row :=
  match rows with
  | [] => []
  | row :: rest =>
      if decide (raw_key row ∈ seen) then keep_first_raw seen rest
      else row :: keep_first_raw ({[raw_key row]} ∪ seen) rest
  end.

Definition raw_identities (rows : list raw_row) : gset str :=
  list_to_set (map raw_key rows).

(** What a page index yields: the first non-empty extraction among its
    tokens. *)
Definition page_result (w : site) (page_index : nat) : result (list raw_row) :=
  (first_rows w (page_tokens page_index) []).1.

Definition page_of (t : token) : nat :=
  match t with Composite n | Plain n => n end.

Definition with_page (st : scrape_state) (new_rows : list raw_row)
    (seen : gset str) (streak : nat) (log : list token) : scrape_state :=
  {| collected := collected st ++ new_rows; seen_keys := seen;
     empty_streak := streak; fetched := log |}.

Definition flow_log (f : flow) : list token :=
  match f with
  | Continue st | Break st => fetched st
  | Raised _ log => log
  end.

(** A unit is refreshing a source from the moment it has set the in-progress
    flag until it has cleared it. *)
Definition refreshing (s : source) (u : unit_of_work) : bool :=
  bool_decide (target u = s)
  && (bool_decide (at_ u = InPipeline) || bool_decide (at_ u = AtFinally)).

Fixpoint count_refreshing (s : source) (us : list unit_of_work) : nat :=
  match us with
  | [] => 0
  | u :: rest => ((if refreshing s u then 1 else 0) + count_refreshing s rest)%nat
  end.

(** The flag of a source is set exactly while one unit refreshes it, and no
    two units ever do. *)
Definition consistent (sys : system) : Prop :=
  forall s : source,
    count_refreshing s (units sys)
    = if in_progress (site_states sys s) then 1%nat else 0%nat.

(** An event that is not a step of unit [i]. *)
Definition other_than (i : nat) (e : event) : Prop :=
  match e with
  | Trigger _ _ _ => True
  | Advance j _ _ => j <> i
  end.



(** The characters of a line, without the end-of-line event. *)
Fixpoint feed_chars (r : CSV.reader) (s : str) : option CSV.reader :=
  match s with
  | [] => Some r
  | c :: rest =>
      match CSV.parse_process_char r (CSV.Char c) with
      | Some r' => feed_chars r' rest
      | None => None
      end
  end.

Definition fits (cur f : str) : Prop :=
  Z.of_nat (length cur + length f) <= CSV.FIELD_LIMIT.

(** Where the reader stands once it has read a field as written. *)
Definition field_end (start : CSV.parser_state) (f : str) : CSV.parser_state :=
  if existsb CSV.special f then CSV.QUOTE_IN_QUOTED_FIELD
  else match f with [] => start | _ => CSV.IN_FIELD end.

Definition no_newline (s : str) : Prop :=
  Forall (fun c => c <> CSV.CR /\ c <> CSV.LF) s.

(** A record that the writer does not treat specially and the reader can
    hold. *)
Definition row_ok (fs : list str) : Prop :=
  fs <> [] /\ fs <> [[]] /\ Forall (fits []) fs /\ Forall no_newline fs.

(** After normalization the only whitespace that is left is U+0020. *)
Definition single_spaced (s : str) : Prop :=
  Forall (fun c => is_space c = false \/ c = 32) s.

(** A text field as the pipeline produces it: whitespace-normalized, made of
    characters that UTF-8 encodes, within the field limit of the reader. *)
Definition clean (f : str) : Prop :=
  normalize_whitespace f = f
  /\ forallb is_scalar f = true
  /\ Z.of_nat (length f) <= CSV.FIELD_LIMIT.

(** A row of a corpus, as the data model has it. *)
Definition persistable (row : comment) : Prop :=
  clean (author row) /\ clean (timestamp row) /\ clean (text row)
  /\ clean (lang row) /\ clean (summary row)
  /\ (0 <= sentiment_score row)%Q /\ (sentiment_score row <= 1)%Q.

(** What the writer and the reader need of a field. *)
Definition storable (f : str) : Prop :=
  forallb is_scalar f = true /\ no_newline f /\ fits [] f.

Definition storableb (f : str) : bool :=
  forallb (fun c => is_scalar c && negb (c =? CSV.CR) && negb (c =? CSV.LF)) f
  && (Z.of_nat (length f) <=? CSV.FIELD_LIMIT).

(** The row that [load_rows_from_csv] returns for a saved row: every field as
    text, the score as the text that the [.4f] format gave. *)
Definition stored (row : comment) : raw_row :=
  {| raw_author := Some (author row);
     raw_timestamp := Some (timestamp row);
     raw_text := Some (text row);
     raw_lang := Some (lang row);
     raw_sentiment := Some (sentiment_name (sentiment_label row));
     raw_score := VStr (format_4f (sentiment_score row));
     raw_summary := Some (summary row) |}.

End Pipeline.

(** ** Sample inputs *)

(** A row as the extractor hands it over. *)
Definition scraped (a t : string) : raw_row :=
  {| raw_author := Some (s2l a); raw_timestamp := Some (s2l "1 day ago");
     raw_text := Some (s2l t); raw_lang := None; raw_sentiment := None;
     raw_score := VNone; raw_summary := None |}.

(** A site whose second page repeats the comment of the first, in other
    letter case and spacing, and whose third page has a comment not seen
    before. *)
Definition repeating_site : site :=
  {| site_root := Ok tt;
     site_page := fun t =>
       match t with
       | Plain 0 => Ok [scraped "Asha" "Roads need repair"]
       | Composite 1 => Ok [scraped "asha" "roads  need repair"]
       | Composite 2 => Ok [scraped "Ravi" "More buses please"]
       | _ => Ok []
       end |}.

(** The walk of [repeating_site] after page 0. *)
Definition after_first_page : scrape_state :=
  {| collected := [scraped "Asha" "Roads need repair"];
     seen_keys := {[ raw_key (U := ascii_tables) (scraped "Asha" "Roads need repair") ]};
     empty_streak := 0;
     fetched := [Plain 0] |}.

(** A site with comments on pages 0, 1 and 2, none on pages 3 and 4, and one
    more on page 5. *)
Definition three_page_site : site :=
  {| site_root := Ok tt;
     site_page := fun t =>
       match t with
       | Plain 0 => Ok [scraped "Asha" "Roads need repair"]
       | Composite 1 => Ok [scraped "Ravi" "More buses please"]
       | Plain 2 => Ok [scraped "Meena" "Thank you for the new park"]
       | Composite 5 => Ok [scraped "Kiran" "Street lights are broken"]
       | _ => Ok []
       end |}.

(** A site that cannot be reached. *)
Definition unreachable_site : site :=
  {| site_root := Raise (s2l "HTTP 503"); site_page := fun _ => Ok [] |}.

(** The process after one forced trigger for the first source. *)
Definition triggered : system :=
  (trigger_refresh_if_needed 300 (boot ∅) site1 true 0%Q).2.

(** The same once the unit has set the flag. *)
Definition busy : system := refresh_enter triggered 0 site1.

Definition sample_corpus : list comment :=
  [ {| author := s2l "Asha"; timestamp := s2l "1 day ago";
       text := s2l "Roads need repair, said " ++ [34] ++ s2l "everyone" ++ [34];
       lang := s2l "English"; sentiment_label := Negative;
       sentiment_score := 0.63%Q; summary := s2l "Roads need repair" |};
    {| author := s2l "Ravi"; timestamp := [];
       text := s2l "More buses please";
       lang := s2l "English"; sentiment_label := Neutral;
       sentiment_score := (1 # 3)%Q; summary := s2l "More buses please" |} ].

(** A row as a file of an earlier run holds it, with an analysis that is not
    the one of its text. *)
Definition stale_row : raw_row :=
  {| raw_author := Some (s2l "Asha"); raw_timestamp := Some (s2l "1 day ago");
     raw_text := Some (s2l "This is great, thank you!");
     raw_lang := Some (s2l "French"); raw_sentiment := Some (s2l "negative");
     raw_score := VStr (s2l "0.9900"); raw_summary := Some (s2l "old") |}.

Definition empty_memo : memo := {| cache := ∅; model_calls := 0 |}.


Definition letters (n : nat) : str := repeat 97 n.

(** [n + 1] words of five and four letters, a space between two. *)
Definition spaced_words (n : nat) : str :=
  s2l "words" ++ concat (repeat (s2l " word") n).

(** What the first refresh of [repeating_site] leaves as the corpus. *)
Definition first_corpus : list comment :=
  [ {| author := s2l "Asha"; timestamp := s2l "1 day ago";
       text := s2l "Roads need repair"; lang := s2l "English";
       sentiment_label := Neutral; sentiment_score := (1 # 2)%Q;
       summary := s2l "Roads need repair" |} ].

(** A row as the data model has it, whose text is one character longer than
    the field limit of the reader. *)
Definition oversized_comment : comment :=
  {| author := s2l "Asha"; timestamp := s2l "1 day ago";
     text := letters (Z.to_nat 131073);
     lang := s2l "English"; sentiment_label := Neutral;
     sentiment_score := 0.5%Q; summary := s2l "aaaaaaaa" |}.

(** A row whose text ends with one half of a surrogate pair, U+D83D. *)
Definition unpaired_comment : comment :=
  {| author := s2l "Asha"; timestamp := s2l "1 day ago";
     text := s2l "Roads need repair " ++ [55357];
     lang := s2l "English"; sentiment_label := Neutral;
     sentiment_score := 0.5%Q; summary := s2l "Roads need repair" |}.

(** ** Vocabulary of the further properties *)

(** Every whitespace character is U+0020, is not the last character and is
    followed by a character that is not whitespace. *)
Fixpoint tidy_tail (s : str) : bool :=
  match s with
  | [] => true
  | c :: s' =>
      (if is_space c
       then (c =? 32) && match s' with d :: _ => negb (is_space d) | [] => false end
       else true)
      && tidy_tail s'
  end.

(** A text with single U+0020 between its words and no other whitespace. *)
Definition tidy (s : str) : bool :=
  match s with c :: _ => negb (is_space c) | [] => true end && tidy_tail s.

(** As [tidy_tail], a last whitespace character allowed. *)
Fixpoint thin (s : str) : bool :=
  match s with
  | [] => true
  | c :: s' =>
      (if is_space c
       then (c =? 32) && match s' with d :: _ => negb (is_space d) | [] => true end
       else true)
      && thin s'
  end.

Definition starts_word (s : str) : bool :=
  match s with c :: _ => negb (is_space c) | [] => true end.

(** The characters whose presence makes [fix_mojibake] attempt a repair:
    U+00C3, U+00C2 and U+00E2. *)
Definition has_marker (s : str) : bool :=
  existsb (fun c => (c =? 195) || (c =? 194) || (c =? 226)) s.

Definition is_hex (c : Z) : bool := in_range 48 57 c || in_range 97 102 c.

Definition is_surrogate (c : Z) : bool := in_range 55296 57343 c.

(** The names that the language functions can return besides "Unknown". *)
Definition LANGUAGE_NAMES : list str := map snd LANGUAGE_CODE_MAP.

(** A character of one of the scripts of [SCRIPT_PATTERNS]. *)
Definition in_script (c : Z) : bool :=
  existsb (fun p => in_range p.1.1 p.1.2 c) SCRIPT_PATTERNS.

Definition unit_score (x : Q) : Prop := (0 <= x)%Q /\ (x <= 1)%Q.

(** Every cached analysis has its score in [0, 1]. *)
Definition memo_ok (m : memo) : Prop :=
  map_Forall (fun _ a => unit_score (a_score a)) (cache m).

Section FurtherVocabulary.
Context {U : Unicode}.

(** The text of a raw row as [normalize_rows] cleans it. *)
Definition cleaned_text (row : raw_row) : str :=
  fix_mojibake (default [] (raw_text row)).

(** What the program maintains of a row of a corpus. *)
Definition wellformed (row : comment) : Prop :=
  (tidy (author row) = true /\ author row <> []
   /\ (author row = s2l "Unknown" \/ is_placeholder_author (author row) = false))
  /\ tidy (timestamp row) = true
  /\ (tidy (text row) = true /\ is_junk_or_boilerplate (text row) = false
      /\ (3 <= length (text row))%nat)
  /\ (tidy (lang row) = true /\ lang row <> [])
  /\ unit_score (sentiment_score row)
  /\ (tidy (summary row) = true /\ (length (summary row) <= 220)%nat).


(** The identities met are those of the rows collected, which differ from
    one another. *)
Definition scrape_inv (st : scrape_state) : Prop :=
  seen_keys st = raw_identities (collected st)
  /\ NoDup (map raw_key (collected st)).

(** The rows come from the answers to requests of the log. *)
Definition extracted_from (w : site) (log : list token) (rows : list raw_row) : Prop :=
  Forall (fun row => exists t page_rows,
            t ∈ log /\ site_page w t = Ok page_rows /\ row ∈ page_rows) rows.

End FurtherVocabulary.

(** Every request of the log was answered, without an exception. *)
Definition answered (w : site) (log : list token) : Prop :=
  Forall (fun t => exists page_rows, site_page w t = Ok page_rows) log.

(** The requests that a walk of [max_pages] pages can make, in order. *)
Definition all_requests (max_pages : nat) : list token :=
  flat_map page_tokens (seq 0 max_pages).

(** The four tables of a source. *)
Definition source_paths (s : source) : list string :=
  [csv_path s; dashboard_csv_path s; raw_csv_path s; dashboard_raw_csv_path s].

(** The first list that is not empty. *)
Fixpoint first_nonempty {A : Type} (ls : list (list A)) : list A :=
  match ls with
  | [] => []
  | [] :: rest => first_nonempty rest
  | l :: _ => l
  end.

Section KeptTexts.
Context {U : Unicode}.

(** The texts of the rows of a table that [normalize_rows] keeps. *)
Definition kept_texts (rows : list raw_row) : list str :=
  List.filter (fun t => negb (is_junk_or_boilerplate t)) (map cleaned_text rows).

End KeptTexts.

(** ** Requests and start-up *)

(** [source_id in SITE_CONFIG], with the source it names. *)
Definition lookup_source (source_id : str) : option source :=
  if str_eqb source_id (s2l "site1") then Some site1
  else if str_eqb source_id (s2l "site2") then Some site2
  else None.

(** The dict that [state_payload] builds. *)
Record payload := {
  p_source_id : str;
  p_source_name : str;
  p_comments : list comment;
  p_last_updated : option Q;
  p_in_progress : bool;
  p_last_error : option str;
  p_gemini_enabled : bool
}.

Definition state_payload (gemini_enabled : bool) (sys : system)
    (source_id : str) (s : source) : payload :=
  let state := site_states sys s in
  {| p_source_id := source_id;
     p_source_name := source_name state;
     p_comments := comments state;
     p_last_updated := last_updated state;
     p_in_progress := in_progress state;
     p_last_error := last_error state;
     p_gemini_enabled := gemini_enabled |}.

(** What a route answers: the body and the status. *)
Inductive answer :=
| UnknownSource (message : str)                   (* {"error": message}, 400 *)
| LiveComments (body : payload)                   (* 200 *)
| RefreshStarted (started : bool) (source_id : str).
                                   (* {"ok": true, "started": .., "source": ..}, 200 *)

(** [get_live_comments]; [arg] is [request.args.get("source")]. The trigger
    and the reading of the state are two critical sections, taken here with
    nothing in between. *)
Definition get_live_comments (refresh_interval : Z) (gemini_enabled : bool)
    (arg : option str) (now : Q) (sys : system) : answer * system :=
  let source_id := default (s2l "site1") arg in
  match lookup_source source_id with
  | None => (UnknownSource (s2l "Unknown source: " ++ source_id), sys)
  | Some s =>
      let sys' := (trigger_refresh_if_needed refresh_interval sys s false now).2 in
      (LiveComments (state_payload gemini_enabled sys' source_id s), sys')
  end.

(** [refresh_now] *)
Definition refresh_now (refresh_interval : Z) (arg : option str) (now : Q)
    (sys : system) : answer * system :=
  let source_id := default (s2l "site1") arg in
  match lookup_source source_id with
  | None => (UnknownSource (s2l "Unknown source: " ++ source_id), sys)
  | Some s =>
      let '(started, sys') :=
        trigger_refresh_if_needed refresh_interval sys s true now in
      (RefreshStarted started source_id, sys')
  end.

(** The two routes as one request. *)
Inductive request :=
| GetLiveComments (arg : option str)
| RefreshNow (arg : option str).

Definition serve (refresh_interval : Z) (gemini_enabled : bool) (r : request)
    (now : Q) (sys : system) : answer * system :=
  match r with
  | GetLiveComments arg => get_live_comments refresh_interval gemini_enabled arg now sys
  | RefreshNow arg => refresh_now refresh_interval arg now sys
  end.

Section StartUp.
Context {U : Unicode} {W : World}.

(** The body of [__main__] before the server runs: the seeding, then a forced
    trigger for every source. *)
Definition start_up (refresh_interval : Z) (now : source -> Q) (sys : system) : system :=
  fold_left
    (fun sys s => (trigger_refresh_if_needed refresh_interval sys s true (now s)).2)
    SOURCES (ensure_seed_data now sys).

End StartUp.

Section JunkVocabulary.
Context {U : Unicode}.

(** A lower-case word of a pattern against a piece of text, letter by
    letter, under [re.IGNORECASE]. *)
Fixpoint same_letters (word text : str) : bool :=
  match word, text with
  | [], [] => true
  | p :: word', c :: text' => fold_eq p c && same_letters word' text'
  | _, _ => false
  end.

End JunkVocabulary.

(** The character before the position reached after reading [t]. *)
Definition last_of (prev : option Z) (t : str) : option Z :=
  fold_left (fun _ c => Some c) t prev.

(** ** Further sample inputs *)

(** "café", and what a reader that takes its UTF-8 bytes for Latin-1 sees:
    "cafÃ©". *)
Definition cafe : str := [99; 97; 102; 233].

Definition misread_cafe : str := [99; 97; 102; 195; 169].

(** A row made of the labels of the share buttons. *)
Definition share_row : raw_row := scraped "Asha" "Share on Facebook Twitter now".

(** * Properties *)

Ltac range_bool :=
  unfold continuation, in_range;
  repeat match goal with
         | |- context [Z.eqb ?a ?b] => destruct (Z.eqb_spec a b)
         end;
  cbv iota;
  repeat match goal with
         | |- context [Z.leb ?a ?b] => destruct (Z.leb_spec a b)
         | |- context [Z.ltb ?a ?b] => destruct (Z.ltb_spec a b)
         end;
  cbn [andb orb negb]; try reflexivity; try (exfalso; lia).

Section Properties.
Context {U : Unicode} {W : World}.

(** ** Identity *)

Lemma key_string_of_pair (a1 t1 a2 t2 : str) :
  normalized_pair a1 t1 = normalized_pair a2 t2 ->
  key_string a1 t1 = key_string a2 t2.
Proof.
  unfold normalized_pair, key_string. intros H.
  injection H as Ha Ht. by rewrite Ha, Ht.
Qed.

(** C1, as amended: the identity of a record is the hash of its key string,
    the lowered normalized author and text joined by a vertical bar. Two
    records have the same identity exactly when their key strings hash
    identically, so records with equal key strings, and in particular with
    equal normalized pairs, have the same identity; identity(" Bob ",
    "Hi there") equals identity("bob", "hi   there"). *)
Theorem comment_identity (a1 t1 a2 t2 : str) :
  (make_comment_key a1 t1 = make_comment_key a2 t2 <->
   text_hash (key_string a1 t1) = text_hash (key_string a2 t2))
  /\ (key_string a1 t1 = key_string a2 t2 ->
      make_comment_key a1 t1 = make_comment_key a2 t2)
  /\ (normalized_pair a1 t1 = normalized_pair a2 t2 ->
      make_comment_key a1 t1 = make_comment_key a2 t2)
  /\ make_comment_key (s2l " Bob ") (s2l "Hi there")
     = make_comment_key (s2l "bob") (s2l "hi   there").
Proof.
  unfold make_comment_key. repeat split; try tauto.
  - congruence.
  - intros H. by rewrite (key_string_of_pair _ _ _ _ H).
Qed.

(** ** Merge *)

Lemma identities_cons (row : comment) (rows : list comment) :
  identities (row :: rows) = {[comment_key row]} ∪ identities rows.
Proof. reflexivity. Qed.

Lemma merge_loop (rows : list comment) (acc : list comment) (seen : gset str) :
  fold_left merge_step rows (acc, seen)
  = (acc ++ keep_first seen rows, identities rows ∪ seen).
Proof.
  revert acc seen. induction rows as [|row rows IH]; intros acc seen; simpl.
  - rewrite app_nil_r. f_equal. unfold identities. simpl. set_solver.
  - unfold merge_step at 2. simpl. destruct (decide (comment_key row ∈ seen)) as [Hin|Hin].
    + rewrite IH. f_equal. unfold identities. simpl. set_solver.
    + rewrite IH, <- app_assoc. simpl. f_equal. unfold identities. simpl. set_solver.
Qed.

Lemma merge_keep_first (new_rows existing_rows : list comment) :
  merge_with_existing new_rows existing_rows
  = keep_first ∅ (new_rows ++ existing_rows).
Proof. unfold merge_with_existing. by rewrite merge_loop. Qed.

Lemma keep_first_app (seen : gset str) (xs ys : list comment) :
  keep_first seen (xs ++ ys)
  = keep_first seen xs ++ keep_first (identities xs ∪ seen) ys.
Proof.
  revert seen. induction xs as [|x xs IH]; intros seen; simpl.
  - f_equal. unfold identities. simpl. set_solver.
  - destruct (decide (comment_key x ∈ seen)) as [Hin|Hin].
    + rewrite IH. do 2 f_equal. unfold identities. simpl. set_solver.
    + simpl. rewrite IH. do 3 f_equal. unfold identities. simpl. set_solver.
Qed.

Lemma keep_first_sublist (seen : gset str) (rows : list comment) :
  sublist (keep_first seen rows) rows.
Proof.
  revert seen. induction rows as [|row rows IH]; intros seen; simpl.
  - constructor.
  - destruct (decide (comment_key row ∈ seen)).
    + by apply sublist_cons.
    + by apply sublist_skip.
Qed.

Lemma keep_first_keys (seen : gset str) (rows : list comment) :
  identities (keep_first seen rows) ∪ seen = identities rows ∪ seen.
Proof.
  revert seen. induction rows as [|row rows IH]; intros seen; [done|].
  cbn [keep_first]. destruct (decide (comment_key row ∈ seen)) as [Hin|Hin].
  - rewrite IH, identities_cons. set_solver.
  - specialize (IH ({[comment_key row]} ∪ seen)).
    rewrite !identities_cons. revert IH.
    generalize (identities (keep_first ({[comment_key row]} ∪ seen) rows)).
    generalize (identities rows). generalize (comment_key row).
    clear. intros k X Y HXY.
    transitivity (Y ∪ ({[k]} ∪ seen)); [set_solver|].
    rewrite HXY. set_solver.
Qed.

Lemma keep_first_fresh (seen : gset str) (rows : list comment) (row : comment) :
  row ∈ keep_first seen rows -> comment_key row ∉ seen.
Proof.
  revert seen. induction rows as [|r rows IH]; intros seen; simpl.
  - by intros ?%elem_of_nil.
  - destruct (decide (comment_key r ∈ seen)) as [Hin|Hin]; [by apply IH|].
    intros [->|Hrow]%elem_of_cons; [done|].
    apply IH in Hrow. set_solver.
Qed.

Lemma keep_first_NoDup (seen : gset str) (rows : list comment) :
  NoDup (map comment_key (keep_first seen rows)).
Proof.
  revert seen. induction rows as [|r rows IH]; intros seen; simpl.
  - constructor.
  - destruct (decide (comment_key r ∈ seen)) as [Hin|Hin]; [by apply IH|].
    simpl. constructor; [|by apply IH].
    intros (row & Heq & Hrow)%list_elem_of_fmap.
    apply keep_first_fresh in Hrow. set_solver.
Qed.

(** Rows whose identities were all met are all dropped. *)
Lemma keep_first_seen (seen : gset str) (rows : list comment) :
  identities rows ⊆ seen -> keep_first seen rows = [].
Proof.
  revert seen. induction rows as [|r rows IH]; intros seen Hsub; simpl; [done|].
  unfold identities in Hsub. simpl in Hsub.
  destruct (decide (comment_key r ∈ seen)) as [Hin|Hin].
  - apply IH. unfold identities. set_solver.
  - set_solver.
Qed.

(** A list without repeated identities, none of them met, is kept whole. *)
Lemma keep_first_id (seen : gset str) (rows : list comment) :
  NoDup (map comment_key rows) ->
  (forall row, row ∈ rows -> comment_key row ∉ seen) ->
  keep_first seen rows = rows.
Proof.
  revert seen. induction rows as [|r rows IH]; intros seen Hnd Hfresh; simpl; [done|].
  simpl in Hnd. inversion_clear Hnd as [|? ? Hr Hnd'].
  destruct (decide (comment_key r ∈ seen)) as [Hin|Hin].
  - exfalso. apply (Hfresh r); [left|done].
  - f_equal. apply IH; [done|].
    intros row Hrow. apply not_elem_of_union. split.
    + intros Heq%elem_of_singleton. apply Hr. apply list_elem_of_fmap. eauto.
    + apply Hfresh. by right.
Qed.

Lemma keep_first_first (seen : gset str) (rows : list comment) (k : str) :
  k ∉ seen -> first_with k (keep_first seen rows) = first_with k rows.
Proof.
  revert seen. induction rows as [|r rows IH]; intros seen Hk; simpl; [done|].
  unfold str_eqb.
  destruct (decide (comment_key r ∈ seen)) as [Hin|Hin].
  - rewrite bool_decide_eq_false_2 by (intros <-; done). by apply IH.
  - simpl. unfold str_eqb. case_bool_decide as Heq; [done|].
    apply IH. set_solver.
Qed.

(** C2: [merge(new, existing)] walks [new] then [existing] and keeps the first
    row of every identity: the result is what keeping first occurrences of
    [new ++ existing] gives, a subsequence of [new ++ existing] in which no
    identity repeats, every identity of the inputs is present and is borne by
    the first row that had it; the rows kept from [new] come before those
    kept from [existing]. Merging the result with [existing] again changes
    nothing, however often it is done. *)
Theorem merge_first_occurrence_idempotent (A B : list comment) :
  merge_with_existing A B = keep_first ∅ (A ++ B)
  /\ merge_with_existing A B
     = merge_with_existing A [] ++ keep_first (identities A) B
  /\ sublist (merge_with_existing A B) (A ++ B)
  /\ NoDup (map comment_key (merge_with_existing A B))
  /\ identities (merge_with_existing A B) = identities (A ++ B)
  /\ (forall k, first_with k (merge_with_existing A B) = first_with k (A ++ B))
  /\ merge_with_existing (merge_with_existing A B) B = merge_with_existing A B
  /\ identities (merge_with_existing (merge_with_existing A B) B)
     = identities (merge_with_existing A B)
  /\ (forall n : nat,
        Nat.iter n (fun rows => merge_with_existing rows B) (merge_with_existing A B)
        = merge_with_existing A B).
Proof.
  assert (Hidem : merge_with_existing (merge_with_existing A B) B
                  = merge_with_existing A B).
  { rewrite !merge_keep_first. rewrite (keep_first_app ∅ (keep_first ∅ (A ++ B)) B).
    rewrite (keep_first_id ∅ (keep_first ∅ (A ++ B)));
      [|apply keep_first_NoDup|set_solver].
    rewrite (keep_first_seen _ B); [by rewrite app_nil_r|].
    pose proof (keep_first_keys ∅ (A ++ B)) as Hk.
    assert (identities B ⊆ identities (A ++ B)) as HB.
    { unfold identities. rewrite map_app, list_to_set_app_L. set_solver. }
    set_solver. }
  repeat split.
  - apply merge_keep_first.
  - rewrite !merge_keep_first, app_nil_r, keep_first_app.
    do 2 f_equal. set_solver.
  - rewrite merge_keep_first. apply keep_first_sublist.
  - rewrite merge_keep_first. apply keep_first_NoDup.
  - rewrite merge_keep_first. pose proof (keep_first_keys ∅ (A ++ B)). set_solver.
  - intros k. rewrite merge_keep_first. by apply keep_first_first.
  - exact Hidem.
  - by rewrite Hidem.
  - induction n as [|n IH]; simpl; [done|]. by rewrite IH.
Qed.

(** ** Heuristic sentiment *)

Lemma Qltb_lt (x y : Q) : Qltb x y = true <-> (x < y)%Q.
Proof.
  unfold Qltb. rewrite negb_true_iff. split.
  - intros H. apply Qnot_le_lt. intros Hle. apply Qle_bool_iff in Hle. congruence.
  - intros H. destruct (Qle_bool y x) eqn:E; [|done].
    apply Qle_bool_iff in E. exfalso. by apply (Qlt_not_le x y).
Qed.

Lemma Qltb_ge (x y : Q) : Qltb x y = false <-> (y <= x)%Q.
Proof.
  unfold Qltb. rewrite negb_false_iff. apply Qle_bool_iff.
Qed.

(** A value with at most four decimals is left as it is by [round(_, 4)]. *)
Lemma round4_exact (x : Q) (z : Z) :
  (x == inject_Z z / 10000)%Q -> (round4 x == x)%Q.
Proof.
  intros Hx. unfold round4, round_half_even.
  assert (Hz : (x * 10000 == inject_Z z)%Q) by (rewrite Hx; field).
  assert (Hf : Qfloor (x * 10000) = z) by (rewrite Hz; apply Qfloor_Z).
  rewrite Hf.
  assert (Hlt : Qltb (x * 10000 - inject_Z z) (1 # 2) = true).
  { apply Qltb_lt. rewrite Hz. ring_simplify. reflexivity. }
  rewrite Hlt, Qred_correct. by rewrite Hx.
Qed.

(** Every score of the heuristic is a number of halves. *)
Lemma half_integer (a b : nat) (flip : bool) :
  (inject_Z (Z.of_nat a) + inject_Z (Z.of_nat b) * 0.5 + (if flip then 1 else 0)
   == inject_Z (2 * Z.of_nat a + Z.of_nat b + (if flip then 2 else 0)) / 2)%Q.
Proof.
  destruct flip; rewrite !inject_Z_plus, !inject_Z_mult; field.
Qed.

Lemma sentiment_delta_halves (lowered : str) :
  exists k : Z, (sentiment_delta lowered == inject_Z k / 2)%Q.
Proof.
  unfold sentiment_delta.
  pose proof (half_integer
    (length (filter (fun t => in_words t POSITIVE_WORDS) (findall_words [] lowered)))
    (sum_counts lowered POSITIVE_EMOJI) (re_search NOT_BAD lowered)) as Hp.
  pose proof (half_integer
    (length (filter (fun t => in_words t NEGATIVE_WORDS) (findall_words [] lowered)))
    (sum_counts lowered NEGATIVE_EMOJI) (re_search NOT_GOOD lowered)) as Hn.
  fold (count_words (findall_words [] lowered) POSITIVE_WORDS) in Hp.
  fold (emoji_weight lowered POSITIVE_EMOJI) in Hp.
  fold (count_words (findall_words [] lowered) NEGATIVE_WORDS) in Hn.
  fold (emoji_weight lowered NEGATIVE_EMOJI) in Hn.
  fold (positive_score lowered) in Hp. fold (negative_score lowered) in Hn.
  eexists. rewrite Hp, Hn.
  match goal with
  | |- (inject_Z ?p / 2 - inject_Z ?n / 2 == _)%Q =>
      instantiate (1 := p - n); unfold Z.sub;
      rewrite (inject_Z_plus p (- n)), inject_Z_opp; field
  end.
Qed.

Lemma Qabs_halves (x : Q) (k : Z) :
  (x == inject_Z k / 2)%Q -> (Qabs x == inject_Z (Z.abs k) / 2)%Q.
Proof.
  intros Hk. rewrite Hk. clear Hk x.
  unfold Qabs, Qdiv, Qmult, Qinv, inject_Z, Qeq. simpl. lia.
Qed.

Lemma Qmin_halves (j : Z) :
  0 <= j ->
  (Qmin (inject_Z j / 2) 5 == inject_Z (Z.min j 10) / 2)%Q.
Proof.
  intros Hj. destruct (Z.le_gt_cases j 10) as [Hle|Hgt].
  - rewrite Z.min_l by done. apply Q.min_l.
    unfold Qle, Qdiv, Qmult, Qinv, inject_Z. simpl. lia.
  - rewrite Z.min_r by lia. rewrite Q.min_r; [reflexivity|].
    unfold Qle, Qdiv, Qmult, Qinv, inject_Z. simpl. lia.
Qed.

(** The confidence of a positive or negative verdict has two decimals. *)
Lemma confidence_exact (delta : Q) (k : Z) :
  (delta == inject_Z k / 2)%Q ->
  (round4 (Qmin 0.99 (0.55 + Qmin (Qabs delta) 5 * 0.08))
   == Qmin 0.99 (0.55 + Qmin (Qabs delta) 5 * 0.08))%Q.
Proof.
  intros Hk. apply (round4_exact _ (5500 + 400 * Z.min (Z.abs k) 10)).
  rewrite (Qabs_halves _ _ Hk), Qmin_halves by lia.
  set (j := Z.min (Z.abs k) 10).
  assert (Hj : 0 <= j <= 10) by lia.
  rewrite Q.min_r.
  - rewrite inject_Z_plus, inject_Z_mult. field.
  - clearbody j. unfold Qle, Qdiv, Qmult, Qinv, Qplus, inject_Z. simpl. lia.
Qed.
Lemma classify_cases (delta : Q) (lowered : str) :
  ((0.35 < delta)%Q -> classify delta lowered = Positive)
  /\ ((delta < -0.35)%Q -> classify delta lowered = Negative)
  /\ ((-0.35 <= delta)%Q -> (delta <= 0.35)%Q ->
      classify delta lowered
      = if existsb is_alphabetic lowered then Neutral else Unknown).
Proof.
  unfold classify. repeat split.
  - intros H. apply Qltb_lt in H. by rewrite H.
  - intros H.
    assert (H1 : Qltb 0.35 delta = false).
    { apply Qltb_ge. apply Qlt_le_weak. eapply Qlt_trans; [exact H|reflexivity]. }
    apply Qltb_lt in H. by rewrite H1, H.
  - intros H1 H2. apply Qltb_ge in H1, H2. by rewrite H2, H1.
Qed.

Lemma heuristic_sentiment_cases (text : str) :
  let lowered := lower (normalize_whitespace text) in
  let delta := sentiment_delta lowered in
  let r := heuristic_sentiment text in
  ((length lowered <= 3)%nat ->
   v_sentiment r = Unknown /\ (v_score r == 0.00)%Q)
  /\ ((3 < length lowered)%nat ->
      ((0.35 < delta)%Q ->
       v_sentiment r = Positive
       /\ (v_score r == Qmin 0.99 (0.55 + Qmin (Qabs delta) 5 * 0.08))%Q)
      /\ ((delta < -0.35)%Q ->
          v_sentiment r = Negative
          /\ (v_score r == Qmin 0.99 (0.55 + Qmin (Qabs delta) 5 * 0.08))%Q)
      /\ ((-0.35 <= delta)%Q -> (delta <= 0.35)%Q ->
          existsb is_alphabetic lowered = true ->
          v_sentiment r = Neutral /\ (v_score r == 0.50)%Q)
      /\ ((-0.35 <= delta)%Q -> (delta <= 0.35)%Q ->
          existsb is_alphabetic lowered = false ->
          v_sentiment r = Unknown /\ (v_score r == 0.00)%Q)).
Proof.
  intros lowered delta r. subst r delta lowered. unfold heuristic_sentiment.
  destruct (normalize_whitespace text) as [|c cleaned] eqn:Hclean.
  { split; [intros _; split; reflexivity|]. cbn. lia. }
  set (lowered := lower (c :: cleaned)).
  destruct (sentiment_delta_halves lowered) as [k Hk].
  destruct (classify_cases (sentiment_delta lowered) lowered) as (Hpos & Hneg & Hmid).
  destruct (Nat.leb_spec (length lowered) 3) as [Hshort|Hlong].
  { split; [intros _; split; reflexivity|lia]. }
  split; [lia|]. intros _. cbn [v_sentiment v_score]. repeat split.
  - by apply Hpos.
  - rewrite (Hpos H). cbn [confidence]. by apply (confidence_exact _ k).
  - by apply Hneg.
  - rewrite (Hneg H). cbn [confidence]. by apply (confidence_exact _ k).
  - rewrite Hmid by done. by rewrite H1.
  - rewrite Hmid by done. rewrite H1. reflexivity.
  - rewrite Hmid by done. by rewrite H1.
  - rewrite Hmid by done. rewrite H1. reflexivity.
Qed.

(** C3, as amended: a text whose normalized, lowered form has at most three
    characters is classified unknown with score 0.0 whatever it contains. For
    any longer text, with delta = positive score - negative score, the verdict
    is positive when delta > 0.35, negative when delta < -0.35, otherwise
    neutral when the lowered text has a Latin letter or a character in
    U+0900..U+0D7F, and unknown when it has none; the score is
    min(0.99, 0.55 + min(|delta|, 5) * 0.08) for positive and negative, 0.50
    for neutral and 0.00 for unknown. *)
Theorem heuristic_sentiment_rule (text : str) :
  let lowered := lower (normalize_whitespace text) in
  let delta := sentiment_delta lowered in
  let r := heuristic_sentiment text in
  ((length lowered <= 3)%nat ->
   v_sentiment r = Unknown /\ (v_score r == 0.00)%Q)
  /\ ((3 < length lowered)%nat ->
      ((0.35 < delta)%Q ->
       v_sentiment r = Positive
       /\ (v_score r == Qmin 0.99 (0.55 + Qmin (Qabs delta) 5 * 0.08))%Q)
      /\ ((delta < -0.35)%Q ->
          v_sentiment r = Negative
          /\ (v_score r == Qmin 0.99 (0.55 + Qmin (Qabs delta) 5 * 0.08))%Q)
      /\ ((-0.35 <= delta)%Q -> (delta <= 0.35)%Q ->
          existsb is_alphabetic lowered = true ->
          v_sentiment r = Neutral /\ (v_score r == 0.50)%Q)
      /\ ((-0.35 <= delta)%Q -> (delta <= 0.35)%Q ->
          existsb is_alphabetic lowered = false ->
          v_sentiment r = Unknown /\ (v_score r == 0.00)%Q)).
Proof. exact (heuristic_sentiment_cases text). Qed.














(** ** Summary *)

Lemma before_last_space_none (s : str) :
  before_last_space s = None <-> 32 ∉ s.
Proof.
  induction s as [|c s IH]; cbn [before_last_space].
  - split; [intros _; apply not_elem_of_nil|done].
  - destruct (before_last_space s) as [t|].
    + split; [done|]. intros Hn. exfalso.
      assert (32 ∉ s) as Hs by set_solver. by apply IH in Hs.
    + destruct (Z.eqb_spec c 32) as [->|Hc].
      * split; [done|]. intros Hn. exfalso. apply Hn. by left.
      * split; [|done]. intros _. apply not_elem_of_cons. split; [done|].
        by apply IH.
Qed.

Lemma before_last_space_some (s t : str) :
  before_last_space s = Some t ->
  exists tail, s = t ++ (32 :: tail) /\ (32 ∉ tail).
Proof.
  revert t. induction s as [|c s IH]; intros t; cbn [before_last_space]; [done|].
  destruct (before_last_space s) as [t'|] eqn:E.
  - intros [= <-]. destruct (IH t' eq_refl) as (tail & -> & Htail).
    by exists tail.
  - destruct (Z.eqb_spec c 32) as [->|Hc]; [|done].
    intros [= <-]. exists s. split; [done|]. by apply before_last_space_none.
Qed.

Lemma short_summary_short (text : str) :
  (length (normalize_whitespace text) <= 220)%nat ->
  short_summary text = normalize_whitespace text.
Proof.
  intros H. unfold short_summary, short_summary_at.
  apply Nat.leb_le in H. by rewrite H.
Qed.

Lemma short_summary_long (text : str) :
  (220 < length (normalize_whitespace text))%nat ->
  short_summary text
  = match before_last_space (firstn 217 (normalize_whitespace text)) with
    | Some t => t
    | None => firstn 217 (normalize_whitespace text)
    end ++ ELLIPSIS.
Proof.
  intros H. unfold short_summary, short_summary_at.
  apply Nat.leb_gt in H. by rewrite H.
Qed.

(** C8: the summary is the cleaned text itself when that has at most 220
    characters. A longer cleaned text is cut to its first 217 characters,
    then to what precedes the last space of that slice when the slice has
    one, and the three dots are appended, so the summary never exceeds 220
    characters, dots included. A cleaned text of 300 characters is thus
    shortened to at most 220 and ends with the dots, and one of 100
    characters is returned unchanged. *)
Theorem short_summary_truncation (text : str) :
  let cleaned := normalize_whitespace text in
  let slice := firstn 217 cleaned in
  ((length cleaned <= 220)%nat -> short_summary text = cleaned)
  /\ ((220 < length cleaned)%nat ->
      (length (short_summary text) <= 220)%nat
      /\ (32 ∉ slice -> short_summary text = slice ++ ELLIPSIS)
      /\ (32 ∈ slice ->
          exists word_end tail,
            slice = word_end ++ (32 :: tail) /\ (32 ∉ tail)
            /\ short_summary text = word_end ++ ELLIPSIS))
  /\ (length cleaned = 300%nat ->
      (length (short_summary text) <= 220)%nat
      /\ exists body, short_summary text = body ++ ELLIPSIS)
  /\ (length cleaned = 100%nat -> short_summary text = cleaned)
  /\ (cleaned = text -> length text = 100%nat -> short_summary text = text).
Proof.
  intros cleaned slice.
  assert (Hlong : (220 < length cleaned)%nat ->
    (length (short_summary text) <= 220)%nat
    /\ (32 ∉ slice -> short_summary text = slice ++ ELLIPSIS)
    /\ (32 ∈ slice ->
        exists word_end tail,
          slice = word_end ++ (32 :: tail) /\ (32 ∉ tail)
          /\ short_summary text = word_end ++ ELLIPSIS)).
  { intros H. rewrite (short_summary_long text H). fold cleaned. fold slice.
    assert (Hslice : (length slice <= 217)%nat).
    { subst slice. rewrite length_take. lia. }
    destruct (before_last_space slice) as [t|] eqn:E.
    - destruct (before_last_space_some _ _ E) as (tail & Hs & Htail).
      split; [|split].
      + rewrite Hs, length_app in Hslice. rewrite length_app. cbn in *. lia.
      + intros Hn. exfalso. apply Hn. rewrite Hs. set_solver.
      + intros _. by exists t, tail.
    - apply before_last_space_none in E. split; [|split].
      + rewrite length_app. cbn. lia.
      + done.
      + done. }
  split; [apply short_summary_short|].
  split; [exact Hlong|].
  split; [|split].
  - intros H. destruct Hlong as (Hlen & _); [lia|]. split; [done|].
    rewrite short_summary_long by (fold cleaned; lia). eauto.
  - intros H. apply short_summary_short. fold cleaned. lia.
  - intros Hc Hl. rewrite short_summary_short; fold cleaned; rewrite Hc; [done|lia].
Qed.

(** ** Pagination *)

Lemma raw_identities_cons (row : raw_row) (rows : list raw_row) :
  raw_identities (row :: rows) = {[raw_key row]} ∪ raw_identities rows.
Proof. reflexivity. Qed.

Lemma raw_identities_app (xs ys : list raw_row) :
  raw_identities (xs ++ ys) = raw_identities xs ∪ raw_identities ys.
Proof. unfold raw_identities. by rewrite map_app, list_to_set_app_L. Qed.

Lemma add_row_loop (rows coll : list raw_row) (seen : gset str) (n : nat) :
  fold_left add_row rows (coll, seen, n)
  = (coll ++ keep_first_raw seen rows, raw_identities rows ∪ seen,
     (n + length (keep_first_raw seen rows))%nat).
Proof.
  revert coll seen n. induction rows as [|row rows IH]; intros coll seen n.
  - cbn. rewrite app_nil_r, Nat.add_0_r. do 2 f_equal. set_solver.
  - cbn [fold_left keep_first_raw]. unfold add_row at 2.
    destruct (decide (raw_key row ∈ seen)) as [Hin|Hin].
    + rewrite IH, raw_identities_cons. do 2 f_equal. set_solver.
    + rewrite IH, raw_identities_cons, <- app_assoc. cbn.
      f_equal; [f_equal; set_solver|lia].
Qed.

Lemma keep_first_raw_app (seen : gset str) (xs ys : list raw_row) :
  keep_first_raw seen (xs ++ ys)
  = keep_first_raw seen xs ++ keep_first_raw (raw_identities xs ∪ seen) ys.
Proof.
  revert seen. induction xs as [|x xs IH]; intros seen; cbn [app keep_first_raw].
  - f_equal. set_solver.
  - destruct (decide (raw_key x ∈ seen)) as [Hin|Hin].
    + rewrite IH, raw_identities_cons. do 2 f_equal. set_solver.
    + cbn [app]. rewrite IH, raw_identities_cons. do 3 f_equal. set_solver.
Qed.

Lemma keep_first_raw_keys (seen : gset str) (rows : list raw_row) :
  raw_identities (keep_first_raw seen rows) ∪ seen = raw_identities rows ∪ seen.
Proof.
  revert seen. induction rows as [|row rows IH]; intros seen; [done|].
  cbn [keep_first_raw]. destruct (decide (raw_key row ∈ seen)) as [Hin|Hin].
  - rewrite IH, raw_identities_cons. set_solver.
  - specialize (IH ({[raw_key row]} ∪ seen)).
    rewrite !raw_identities_cons. revert IH.
    generalize (raw_identities (keep_first_raw ({[raw_key row]} ∪ seen) rows)).
    generalize (raw_identities rows). generalize (raw_key row).
    clear. intros k X Y HXY.
    transitivity (Y ∪ ({[k]} ∪ seen)); [set_solver|].
    rewrite HXY. set_solver.
Qed.

(** The requests already made do not change what a page yields, and the new
    requests are tokens of the page. *)
Lemma first_rows_log (w : site) (tokens log : list token) :
  first_rows w tokens log
  = ((first_rows w tokens []).1, log ++ (first_rows w tokens []).2).
Proof.
  revert log. induction tokens as [|t ts IH]; intros log; cbn [first_rows].
  - by rewrite app_nil_r.
  - destruct (site_page w t) as [[|row rows]|e]; cbn; try done.
    rewrite (IH (log ++ [t])), (IH [t]). cbn. by rewrite <- app_assoc.
Qed.

Lemma first_rows_tokens (w : site) (tokens : list token) (t : token) :
  t ∈ (first_rows w tokens []).2 -> t ∈ tokens.
Proof.
  induction tokens as [|t' ts IH]; cbn [first_rows]; [done|].
  destruct (site_page w t') as [[|row rows]|e]; cbn; try set_solver.
  rewrite (first_rows_log w ts [t']). cbn. set_solver.
Qed.

(** The body of the page loop, case by case. *)
Lemma page_body_empty (w : site) (st : scrape_state) (i : nat) :
  page_result w i = Ok [] ->
  page_body w st i
  = (if (0 <? i)%nat && (2 <=? S (empty_streak st))%nat then Break else Continue)
      (with_page st [] (seen_keys st) (S (empty_streak st))
         (fetched st ++ (first_rows w (page_tokens i) []).2)).
Proof.
  intros H. unfold page_body, with_page.
  rewrite (first_rows_log w _ (fetched st)). fold (page_result w i). rewrite H.
  rewrite app_nil_r. by destruct (_ && _).
Qed.

Lemma page_body_rows (w : site) (st : scrape_state) (i : nat) (rows : list raw_row) :
  page_result w i = Ok rows -> rows <> [] ->
  page_body w st i
  = (if (0 <? i)%nat && bool_decide (keep_first_raw (seen_keys st) rows = [])
     then Break else Continue)
      (with_page st (keep_first_raw (seen_keys st) rows)
         (raw_identities rows ∪ seen_keys st) 0
         (fetched st ++ (first_rows w (page_tokens i) []).2)).
Proof.
  intros H Hne. unfold page_body, with_page.
  rewrite (first_rows_log w _ (fetched st)). fold (page_result w i). rewrite H.
  destruct rows as [|row rows]; [done|].
  rewrite add_row_loop. cbn [Nat.add].
  replace (length (keep_first_raw (seen_keys st) (row :: rows)) =? 0)%nat
    with (bool_decide (keep_first_raw (seen_keys st) (row :: rows) = [])).
  - by destruct (_ && _).
  - destruct (keep_first_raw (seen_keys st) (row :: rows)); done.
Qed.

Lemma page_body_raise (w : site) (st : scrape_state) (i : nat) (e : str) :
  page_result w i = Raise e ->
  page_body w st i = Raised e (fetched st ++ (first_rows w (page_tokens i) []).2).
Proof.
  intros H. unfold page_body.
  rewrite (first_rows_log w _ (fetched st)). fold (page_result w i). by rewrite H.
Qed.

Lemma page_tokens_page (i : nat) (t : token) : t ∈ page_tokens i -> page_of t = i.
Proof. destruct i; cbn; set_solver. Qed.

Lemma page_requests (w : site) (i : nat) (t : token) :
  t ∈ (first_rows w (page_tokens i) []).2 -> page_of t = i.
Proof. intros Ht. apply page_tokens_page. by apply first_rows_tokens in Ht. Qed.

Lemma page_body_log (w : site) (st : scrape_state) (i : nat) (t : token) :
  t ∈ flow_log (page_body w st i) -> t ∈ fetched st \/ page_of t = i.
Proof.
  destruct (page_result w i) as [[|row rows]|e] eqn:E.
  - rewrite (page_body_empty _ _ _ E).
    destruct (_ && _); cbn; intros [?|?%page_requests]%elem_of_app; auto.
  - rewrite (page_body_rows _ _ _ _ E) by done.
    destruct (_ && _); cbn; intros [?|?%page_requests]%elem_of_app; auto.
  - rewrite (page_body_raise _ _ _ _ E).
    cbn; intros [?|?%page_requests]%elem_of_app; auto.
Qed.

Lemma page_loop_log (w : site) (indexes : list nat) (st : scrape_state) (t : token) :
  t ∈ flow_log (page_loop w indexes st) -> t ∈ fetched st \/ page_of t ∈ indexes.
Proof.
  revert st. induction indexes as [|i rest IH]; intros st; cbn [page_loop].
  - cbn. auto.
  - pose proof (page_body_log w st i t) as Hbody.
    destruct (page_body w st i) as [st'|st'|e log] eqn:E.
    + intros Ht. destruct (IH _ Ht) as [Hin|Hin]; [|set_solver].
      destruct (Hbody Hin); set_solver.
    + intros Ht. destruct (Hbody Ht); set_solver.
    + intros Ht. destruct (Hbody Ht); set_solver.
Qed.

Lemma scrape_log (max_pages : nat) (w : site) :
  (scrape_comments_paginated max_pages w).2
  = match site_root w with
    | Ok _ => flow_log (page_loop w (seq 0 max_pages) initial_scrape)
    | Raise _ => []
    end.
Proof.
  unfold scrape_comments_paginated. destruct (site_root w); [|done].
  by destruct (page_loop _ _ _).
Qed.

(** C5, as amended: the empty-streak counter is incremented exactly when no
    token of a page index yields any record, and is reset by a page that
    yields records. The walk stops at a page index above 0 when the counter
    reaches 2, or when the page yields records none of which is new; it also
    ends when the page cap is reached. Page 0 never stops it, nor does a
    single page without records. When pages 0, 1 and 2 each bring new records
    and pages 3 and 4 bring none, with a cap above 5, exactly the records of
    pages 0 to 2 are collected, first occurrences only, and no page beyond 4
    is requested. *)
Theorem pagination_stopping :
  (forall (w : site) (st : scrape_state) (i : nat),
     page_result w i = Ok [] ->
     exists st',
       (page_body w st i = Continue st' \/ page_body w st i = Break st')
       /\ empty_streak st' = S (empty_streak st)
       /\ collected st' = collected st)
  /\ (forall (w : site) (st : scrape_state) (i : nat) (rows : list raw_row),
        page_result w i = Ok rows -> rows <> [] ->
        exists st',
          (page_body w st i = Continue st' \/ page_body w st i = Break st')
          /\ empty_streak st' = 0%nat
          /\ collected st' = collected st ++ keep_first_raw (seen_keys st) rows)
  /\ (forall (w : site) (st : scrape_state) (i : nat),
        (exists st', page_body w st i = Break st') <->
        (0 < i)%nat
        /\ ((page_result w i = Ok [] /\ (2 <= S (empty_streak st))%nat)
            \/ (exists rows, page_result w i = Ok rows /\ rows <> []
                             /\ keep_first_raw (seen_keys st) rows = [])))
  /\ (forall (w : site) (st : scrape_state) (i : nat),
        page_result w i = Ok [] -> empty_streak st = 0%nat ->
        exists st', page_body w st i = Continue st')
  /\ (forall (max_pages : nat) (w : site) (t : token),
        t ∈ (scrape_comments_paginated max_pages w).2 ->
        (page_of t < max_pages)%nat)
  /\ (forall (max_pages : nat) (w : site) (r0 r1 r2 : list raw_row),
        (5 < max_pages)%nat ->
        site_root w = Ok tt ->
        page_result w 0 = Ok r0 -> r0 <> [] ->
        page_result w 1 = Ok r1 -> keep_first_raw (raw_identities r0) r1 <> [] ->
        page_result w 2 = Ok r2 ->
        keep_first_raw (raw_identities (r0 ++ r1)) r2 <> [] ->
        page_result w 3 = Ok [] ->
        page_result w 4 = Ok [] ->
        (scrape_comments_paginated max_pages w).1
        = Ok (keep_first_raw ∅ (r0 ++ r1 ++ r2))
        /\ (forall t, t ∈ (scrape_comments_paginated max_pages w).2 ->
                      (page_of t < 5)%nat)).
Proof.
  split; [|split; [|split; [|split; [|split]]]].
  - intros w st i H. rewrite (page_body_empty _ _ _ H).
    eexists. split; [destruct (_ && _); eauto|]. cbn. by rewrite app_nil_r.
  - intros w st i rows H Hne. rewrite (page_body_rows _ _ _ _ H Hne).
    eexists. split; [destruct (_ && _); eauto|]. done.
  - intros w st i. destruct (page_result w i) as [[|row rows]|e] eqn:E.
    + rewrite (page_body_empty _ _ _ E).
      destruct ((0 <? i)%nat && (2 <=? S (empty_streak st))%nat) eqn:Hb.
      * apply andb_true_iff in Hb as [Hi Hs].
        apply Nat.ltb_lt in Hi. apply Nat.leb_le in Hs.
        split; [intros _; split; [done|by left]|eauto].
      * split; [by intros [st' [=]]|].
        intros [Hi [[_ Hs]|(rows & [= <-] & Hne & _)]]; [|done].
        apply Nat.ltb_lt in Hi. apply Nat.leb_le in Hs.
        by rewrite Hi, Hs in Hb.
    + rewrite (page_body_rows _ _ _ _ E) by done.
      destruct ((0 <? i)%nat
                && bool_decide (keep_first_raw (seen_keys st) (row :: rows) = []))
        eqn:Hb.
      * apply andb_true_iff in Hb as [Hi Hnew].
        apply Nat.ltb_lt in Hi. apply bool_decide_eq_true in Hnew.
        split; [|eauto]. intros _. split; [done|]. right.
        exists (row :: rows). done.
      * split; [by intros [st' [=]]|].
        intros [Hi [[[=] _]|(rows' & [= <-] & _ & Hnew)]].
        apply Nat.ltb_lt in Hi. rewrite Hi, bool_decide_eq_true_2 in Hb; done.
    + rewrite (page_body_raise _ _ _ _ E). split; [by intros [? [=]]|].
      intros [_ [[[=] _]|(? & [=] & _)]].
  - intros w st i H Hs. rewrite (page_body_empty _ _ _ H), Hs.
    rewrite andb_false_r. eauto.
  - intros max_pages w t. rewrite scrape_log. destruct (site_root w); [|set_solver].
    intros [Ht|Ht]%page_loop_log; [set_solver|].
    apply elem_of_seq in Ht. lia.
  - intros max_pages w r0 r1 r2 Hcap Hroot H0 Hr0 H1 Hr1 H2 Hr2 H3 H4.
    assert (Hloop : page_loop w (seq 0 max_pages) initial_scrape
      = Break
          {| collected := keep_first_raw ∅ (r0 ++ r1 ++ r2);
             seen_keys := raw_identities r2 ∪ (raw_identities r1 ∪ raw_identities r0);
             empty_streak := 2;
             fetched := (first_rows w (page_tokens 0) []).2
                        ++ (first_rows w (page_tokens 1) []).2
                        ++ (first_rows w (page_tokens 2) []).2
                        ++ (first_rows w (page_tokens 3) []).2
                        ++ (first_rows w (page_tokens 4) []).2 |}).
    { do 6 (destruct max_pages as [|max_pages]; [lia|]).
      cbn [seq page_loop].
      rewrite (page_body_rows _ _ _ _ H0 Hr0). cbn [Nat.ltb Nat.leb andb].
      assert (Hr1' : r1 <> []) by (by intros ->).
      rewrite (page_body_rows _ _ _ _ H1 Hr1'). unfold with_page at 2.
      cbn [seen_keys initial_scrape]. rewrite (union_empty_r_L (raw_identities r0)).
      rewrite bool_decide_eq_false_2 by done. rewrite andb_false_r.
      assert (Hr2' : r2 <> []) by (by intros ->).
      rewrite (page_body_rows _ _ _ _ H2 Hr2'). unfold with_page at 2.
      cbn [seen_keys].
      rewrite raw_identities_app, (union_comm_L (raw_identities r0)) in Hr2.
      rewrite bool_decide_eq_false_2 by done. rewrite andb_false_r.
      rewrite (page_body_empty _ _ _ H3). cbn [with_page empty_streak].
      cbn [Nat.ltb Nat.leb andb].
      rewrite (page_body_empty _ _ _ H4). cbn [with_page empty_streak].
      cbn [Nat.ltb Nat.leb andb]. unfold with_page.
      cbn [collected seen_keys fetched initial_scrape].
      f_equal. f_equal.
      - rewrite !app_nil_r, !keep_first_raw_app, !union_empty_r_L. cbn [app].
        by rewrite <- app_assoc.
      - cbn [app]. by rewrite <- !app_assoc. }
    split.
    + unfold scrape_comments_paginated. by rewrite Hroot, Hloop.
    + intros t. rewrite scrape_log, Hroot, Hloop. cbn [flow_log fetched].
      rewrite !elem_of_app. intros Ht.
      destruct Ht as [Ht|[Ht|[Ht|[Ht|Ht]]]]; apply page_requests in Ht; lia.
Qed.

(** ** Refresh state machine *)

Lemma count_refreshing_app (s : source) (us vs : list unit_of_work) :
  count_refreshing s (us ++ vs)
  = (count_refreshing s us + count_refreshing s vs)%nat.
Proof. induction us as [|u us IH]; cbn; [done|]. rewrite IH. lia. Qed.

Lemma count_refreshing_alter (s : source) (us : list unit_of_work) (i : nat)
    (u : unit_of_work) (p : position) :
  us !! i = Some u ->
  (count_refreshing s (alter (fun u => {| target := target u; at_ := p |}) i us)
   + (if refreshing s u then 1 else 0)
   = count_refreshing s us
     + (if refreshing s {| target := target u; at_ := p |} then 1 else 0))%nat.
Proof.
  revert i. induction us as [|v us IH]; intros i Hi; [done|].
  destruct i as [|i]; cbn in Hi |- *.
  - injection Hi as ->. lia.
  - specialize (IH i Hi). lia.
Qed.

Lemma fn_insert_same (f : source -> site_state) (s : source) (st : site_state) :
  <[s := st]> f s = st.
Proof. apply fn_lookup_insert. Qed.

Lemma fn_insert_other (f : source -> site_state) (s s' : source) (st : site_state) :
  s <> s' -> <[s := st]> f s' = f s'.
Proof. intros H. by apply fn_lookup_insert_ne. Qed.

Lemma trigger_states (ri : Z) (sys : system) (s : source) (force : bool) (now : Q) :
  site_states (trigger_refresh_if_needed ri sys s force now).2 = site_states sys.
Proof.
  unfold trigger_refresh_if_needed.
  destruct (in_progress _); [done|]. by destruct (_ && _).
Qed.

Lemma trigger_consistent (ri : Z) (sys : system) (s : source) (force : bool) (now : Q) :
  consistent sys -> consistent (trigger_refresh_if_needed ri sys s force now).2.
Proof.
  intros Hc s'. specialize (Hc s'). unfold trigger_refresh_if_needed.
  destruct (in_progress (site_states sys s)); [done|].
  destruct (_ && _); [done|]. cbn.
  rewrite count_refreshing_app. cbn [count_refreshing]. unfold refreshing at 1.
  cbn. rewrite andb_false_r. lia.
Qed.

Lemma refreshing_at (s : source) (t : source) (p : position) :
  refreshing s {| target := t; at_ := p |}
  = bool_decide (t = s)
    && match p with InPipeline | AtFinally => true | _ => false end.
Proof. unfold refreshing. cbn. by destruct p. Qed.

Lemma refreshing_unit (s : source) (u : unit_of_work) :
  refreshing s u = refreshing s {| target := target u; at_ := at_ u |}.
Proof. by destruct u. Qed.

Lemma enter_consistent (sys : system) (i : nat) (u : unit_of_work) :
  consistent sys -> units sys !! i = Some u -> at_ u = Spawned ->
  consistent (refresh_enter sys i (target u)).
Proof.
  intros Hc Hi Hat s. pose proof (Hc s) as Hs.
  unfold refresh_enter.
  destruct (in_progress (site_states sys (target u))) eqn:Hflag;
    cbn [set_unit set_state units site_states].
  - pose proof (count_refreshing_alter s _ _ _ Exited Hi) as Ha.
    rewrite (refreshing_unit s u), Hat, !refreshing_at, andb_false_r in Ha. lia.
  - pose proof (count_refreshing_alter s _ _ _ InPipeline Hi) as Ha.
    rewrite (refreshing_unit s u), Hat, !refreshing_at, andb_false_r, andb_true_r in Ha.
    destruct (decide (target u = s)) as [<-|Hne].
    + rewrite fn_insert_same. cbn. rewrite Hflag in Hs.
      rewrite bool_decide_eq_true_2 in Ha by done. lia.
    + rewrite fn_insert_other by done.
      rewrite bool_decide_eq_false_2 in Ha by done. lia.
Qed.

Lemma record_consistent (max_pages : nat) (w : site) (now : Q) (sys : system)
    (i : nat) (u : unit_of_work) :
  consistent sys -> units sys !! i = Some u -> at_ u = InPipeline ->
  consistent (refresh_record max_pages w now sys i (target u)).
Proof.
  intros Hc Hi Hat s. pose proof (Hc s) as Hs.
  unfold refresh_record.
  destruct (scrape_and_analyze_source _ _ _ _) as [outcome st].
  cbn [set_unit units site_states].
  pose proof (count_refreshing_alter s _ _ _ AtFinally Hi) as Ha.
  rewrite (refreshing_unit s u), Hat, !refreshing_at in Ha.
  destruct (decide (target u = s)) as [<-|Hne].
  - rewrite fn_insert_same. destruct outcome; cbn [in_progress]; lia.
  - rewrite fn_insert_other by done. lia.
Qed.

Lemma release_consistent (sys : system) (i : nat) (u : unit_of_work) :
  consistent sys -> units sys !! i = Some u -> at_ u = AtFinally ->
  consistent (refresh_release sys i (target u)).
Proof.
  intros Hc Hi Hat s. pose proof (Hc s) as Hs.
  unfold refresh_release. cbn [set_unit set_state units site_states].
  pose proof (count_refreshing_alter s _ _ _ Exited Hi) as Ha.
  rewrite (refreshing_unit s u), Hat, !refreshing_at, andb_false_r, andb_true_r in Ha.
  destruct (decide (target u = s)) as [<-|Hne].
  - rewrite fn_insert_same. cbn.
    rewrite bool_decide_eq_true_2 in Ha by done.
    destruct (in_progress (site_states sys (target u))); lia.
  - rewrite fn_insert_other by done.
    rewrite bool_decide_eq_false_2 in Ha by done. lia.
Qed.

Lemma step_consistent (ri : Z) (max_pages : nat) (sys : system) (e : event) :
  consistent sys -> consistent (step ri max_pages sys e).
Proof.
  intros Hc. destruct e as [s force now|i w now]; cbn [step].
  - by apply trigger_consistent.
  - destruct (units sys !! i) as [u|] eqn:Hi; [|done].
    destruct (at_ u) eqn:Hat.
    + by apply enter_consistent.
    + by apply record_consistent.
    + by apply release_consistent.
    + done.
Qed.

Lemma run_consistent (ri : Z) (max_pages : nat) (sys : system) (es : list event) :
  consistent sys -> consistent (run ri max_pages sys es).
Proof.
  revert sys. induction es as [|e es IH]; intros sys Hc; cbn; [done|].
  apply IH. by apply step_consistent.
Qed.

Lemma seed_source_flags (now : source -> Q) (sys : system) (s s' : source) :
  in_progress (site_states (seed_source now sys s) s')
  = in_progress (site_states sys s')
  /\ units (seed_source now sys s) = units sys.
Proof.
  unfold seed_source. destruct (first_processed _ _) as [processed st].
  cbn. split; [|done].
  destruct (decide (s = s')) as [<-|Hne].
  - by rewrite fn_insert_same.
  - by rewrite fn_insert_other.
Qed.

Lemma boot_consistent (now : source -> Q) (fs : gmap string (list Z)) :
  consistent (ensure_seed_data now (boot fs)).
Proof.
  intros s. unfold ensure_seed_data, SOURCES. cbn [fold_left].
  destruct (seed_source_flags now (seed_source now (boot fs) site1) site2 s) as [-> ->].
  destruct (seed_source_flags now (boot fs) site1 s) as [-> ->].
  done.
Qed.

Lemma count_refreshing_one (s : source) (us : list unit_of_work) (i : nat)
    (u : unit_of_work) :
  us !! i = Some u -> refreshing s u = true -> (1 <= count_refreshing s us)%nat.
Proof.
  revert i. induction us as [|v us IH]; intros i Hi Hu; [done|].
  destruct i as [|i]; cbn in Hi |- *.
  - injection Hi as ->. rewrite Hu. lia.
  - specialize (IH i Hi Hu). lia.
Qed.

Lemma count_refreshing_two (s : source) (us : list unit_of_work) (i j : nat)
    (u v : unit_of_work) :
  i <> j -> us !! i = Some u -> us !! j = Some v ->
  refreshing s u = true -> refreshing s v = true ->
  (2 <= count_refreshing s us)%nat.
Proof.
  revert i j. induction us as [|x us IH]; intros i j Hij Hi Hj Hu Hv; [done|].
  destruct i as [|i], j as [|j]; cbn in Hi, Hj |- *; try done.
  - injection Hi as ->. rewrite Hu.
    pose proof (count_refreshing_one s us j v Hj Hv). lia.
  - injection Hj as ->. rewrite Hv.
    pose proof (count_refreshing_one s us i u Hi Hu). lia.
  - assert (i <> j) by congruence. specialize (IH i j H Hi Hj Hu Hv). lia.
Qed.

Lemma consistent_flag (sys : system) (i : nat) (u : unit_of_work) :
  consistent sys -> units sys !! i = Some u ->
  refreshing (target u) u = true ->
  in_progress (site_states sys (target u)) = true.
Proof.
  intros Hc Hi Hu. specialize (Hc (target u)).
  pose proof (count_refreshing_one _ _ _ _ Hi Hu).
  destruct (in_progress _); [done|lia].
Qed.

Lemma consistent_alone (sys : system) (i j : nat) (u v : unit_of_work) :
  consistent sys -> i <> j ->
  units sys !! i = Some u -> units sys !! j = Some v ->
  refreshing (target u) u = true ->
  at_ v = InPipeline \/ at_ v = AtFinally ->
  target v <> target u.
Proof.
  intros Hc Hij Hi Hj Hu Hv Heq. specialize (Hc (target u)).
  assert (refreshing (target u) v = true) as Hv'.
  { unfold refreshing. rewrite bool_decide_eq_true_2 by done.
    destruct Hv as [-> | ->]; done. }
  pose proof (count_refreshing_two _ _ _ _ _ _ Hij Hi Hj Hu Hv').
  destruct (in_progress _); lia.
Qed.

(** While a unit refreshes a source, no other event changes the state of that
    source or moves the unit. *)
Lemma step_frame (ri : Z) (max_pages : nat) (sys : system) (i : nat)
    (u : unit_of_work) (e : event) :
  consistent sys -> units sys !! i = Some u ->
  refreshing (target u) u = true -> other_than i e ->
  site_states (step ri max_pages sys e) (target u) = site_states sys (target u)
  /\ units (step ri max_pages sys e) !! i = Some u.
Proof.
  intros Hc Hi Hu He. destruct e as [s force now|j w now]; cbn [step].
  - rewrite trigger_states. split; [done|].
    unfold trigger_refresh_if_needed.
    destruct (in_progress _); [done|]. destruct (_ && _); [done|].
    cbn. by apply lookup_app_l_Some.
  - cbn in He. destruct (units sys !! j) as [v|] eqn:Hj; [|done].
    pose proof (consistent_flag _ _ _ Hc Hi Hu) as Hflag.
    assert (Hunits : forall p,
      alter (fun u => {| target := target u; at_ := p |}) j (units sys) !! i = Some u).
    { intros p. by rewrite list_lookup_alter_ne. }
    destruct (at_ v) eqn:Hat.
    + unfold refresh_enter.
      destruct (decide (target v = target u)) as [Heq|Hne].
      * rewrite Heq, Hflag. cbn. auto.
      * destruct (in_progress (site_states sys (target v))); cbn;
          rewrite ?fn_insert_other by done; auto.
    + assert (Hne : target v <> target u)
        by (eapply (consistent_alone sys i j); eauto).
      unfold refresh_record.
      destruct (scrape_and_analyze_source _ _ _ _) as [outcome st].
      cbn. rewrite fn_insert_other by done. auto.
    + assert (Hne : target v <> target u)
        by (eapply (consistent_alone sys i j); eauto).
      unfold refresh_release. cbn. rewrite fn_insert_other by done. auto.
    + auto.
Qed.

Lemma run_frame (ri : Z) (max_pages : nat) (sys : system) (i : nat)
    (u : unit_of_work) (es : list event) :
  consistent sys -> units sys !! i = Some u ->
  refreshing (target u) u = true -> Forall (other_than i) es ->
  site_states (run ri max_pages sys es) (target u) = site_states sys (target u)
  /\ units (run ri max_pages sys es) !! i = Some u
  /\ consistent (run ri max_pages sys es).
Proof.
  revert sys. induction es as [|e es IH]; intros sys Hc Hi Hu Hes; cbn; [done|].
  inversion_clear Hes as [|? ? He Hes'].
  destruct (step_frame ri max_pages sys i u e Hc Hi Hu He) as [Hs Hi'].
  destruct (IH (step ri max_pages sys e)) as (Hs' & Hi'' & Hc'); auto.
  - by apply step_consistent.
  - unfold run in *. by rewrite Hs', Hs.
Qed.

Lemma refreshing_self (u : unit_of_work) :
  at_ u = InPipeline \/ at_ u = AtFinally -> refreshing (target u) u = true.
Proof.
  intros H. unfold refreshing. rewrite bool_decide_eq_true_2 by done.
  destruct H as [-> | ->]; done.
Qed.

Lemma set_unit_lookup (sys : system) (i : nat) (u : unit_of_work) (p : position) :
  units sys !! i = Some u ->
  units (set_unit sys i p) !! i = Some {| target := target u; at_ := p |}.
Proof.
  intros Hi. unfold set_unit. cbn. rewrite list_lookup_alter, Hi.
  by rewrite decide_True.
Qed.

(** C6, as amended: a trigger is one critical section that checks the
    in-progress flag and starts the background unit, but it does not set the
    flag: the unit sets it in its own first critical section, and leaves at
    once without touching anything when it finds the flag set. So a trigger
    made while the flag of the source is set, forced or not, returns
    started=false and starts nothing, and at any moment of any run at most
    one unit is refreshing a source, exactly when its flag is set. *)
Theorem refresh_trigger_exclusion :
  (forall (ri : Z) (sys : system) (s : source) (force : bool) (now : Q),
     in_progress (site_states sys s) = true ->
     trigger_refresh_if_needed ri sys s force now = (false, sys))
  /\ (forall (ri : Z) (sys : system) (s : source) (force : bool) (now : Q),
        site_states (trigger_refresh_if_needed ri sys s force now).2
        = site_states sys
        /\ ((trigger_refresh_if_needed ri sys s force now).1 = true ->
            units (trigger_refresh_if_needed ri sys s force now).2
            = units sys ++ [ {| target := s; at_ := Spawned |} ])
        /\ ((trigger_refresh_if_needed ri sys s force now).1 = false ->
            (trigger_refresh_if_needed ri sys s force now).2 = sys))
  /\ (forall (sys : system) (i : nat) (s : source),
        in_progress (site_states sys s) = true ->
        refresh_enter sys i s = set_unit sys i Exited)
  /\ (forall (sys : system) (i : nat) (s : source),
        in_progress (site_states sys s) = false ->
        in_progress (site_states (refresh_enter sys i s) s) = true)
  /\ (forall (ri : Z) (max_pages : nat) (now : source -> Q)
             (fs : gmap string (list Z)) (es : list event) (s : source),
        let sys := run ri max_pages (ensure_seed_data now (boot fs)) es in
        (count_refreshing s (units sys) <= 1)%nat
        /\ (in_progress (site_states sys s) = true
            <-> count_refreshing s (units sys) = 1%nat)).
Proof.
  split; [|split; [|split; [|split]]].
  - intros ri sys s force now H. unfold trigger_refresh_if_needed. by rewrite H.
  - intros ri sys s force now. split; [apply trigger_states|].
    unfold trigger_refresh_if_needed.
    destruct (in_progress _); [by split|]. destruct (_ && _); by split.
  - intros sys i s H. unfold refresh_enter. by rewrite H.
  - intros sys i s H. unfold refresh_enter. rewrite H. cbn.
    by rewrite fn_insert_same.
  - intros ri max_pages now fs es s sys.
    pose proof (run_consistent ri max_pages _ es (boot_consistent now fs) s) as Hc.
    fold sys in Hc. rewrite Hc.
    destruct (in_progress (site_states sys s)); split; try lia; try done.
Qed.

(** C7: a refresh that has started, that is a unit that found the flag clear
    and set it, always ends with the flag cleared, whatever other triggers
    and units do in between. When the pipeline succeeds the comment list of
    the source is the merged rows, [last_updated] the time of completion and
    [last_error] is cleared; when it raises, the comment list and
    [last_updated] are those from before the refresh and [last_error] is the
    text of the exception. *)
Theorem refresh_returns_to_idle (ri : Z) (max_pages : nat) (sys : system)
    (i : nat) (u : unit_of_work) (es1 es2 : list event)
    (w0 w w1 : site) (now0 now now1 : Q) :
  consistent sys ->
  units sys !! i = Some u -> at_ u = Spawned ->
  in_progress (site_states sys (target u)) = false ->
  Forall (other_than i) es1 -> Forall (other_than i) es2 ->
  let s := target u in
  let entered := step ri max_pages sys (Advance i w0 now0) in
  let before_record := run ri max_pages entered es1 in
  let outcome := (scrape_and_analyze_source max_pages w s (shared before_record)).1 in
  let recorded := step ri max_pages before_record (Advance i w now) in
  let before_release := run ri max_pages recorded es2 in
  let released := step ri max_pages before_release (Advance i w1 now1) in
  in_progress (site_states entered s) = true
  /\ in_progress (site_states before_release s) = true
  /\ in_progress (site_states released s) = false
  /\ units released !! i = Some {| target := s; at_ := Exited |}
  /\ (forall merged_rows, outcome = Ok merged_rows ->
        comments (site_states released s) = merged_rows
        /\ last_updated (site_states released s) = Some now
        /\ last_error (site_states released s) = None)
  /\ (forall exc, outcome = Raise exc ->
        comments (site_states released s) = comments (site_states sys s)
        /\ last_updated (site_states released s) = last_updated (site_states sys s)
        /\ last_error (site_states released s) = Some exc).
Proof.
  intros Hc Hi Hat Hflag Hes1 Hes2 s entered before_record outcome recorded
    before_release released.
  (* entering *)
  assert (Hentered : entered = refresh_enter sys i s).
  { subst entered. cbn [step]. by rewrite Hi, Hat. }
  assert (Hc1 : consistent entered) by (by apply step_consistent).
  set (u1 := {| target := s; at_ := InPipeline |}).
  assert (Hi1 : units entered !! i = Some u1).
  { rewrite Hentered. unfold refresh_enter. subst s. rewrite Hflag.
    by apply set_unit_lookup. }
  assert (Hs1 : site_states entered s
                = {| source_name := source_name (site_states sys s);
                     comments := comments (site_states sys s);
                     last_updated := last_updated (site_states sys s);
                     in_progress := true; last_error := None |}).
  { rewrite Hentered. unfold refresh_enter. subst s. rewrite Hflag. cbn.
    by rewrite fn_insert_same. }
  (* other events *)
  destruct (run_frame ri max_pages entered i u1 es1 Hc1 Hi1
              (refreshing_self u1 (or_introl eq_refl)) Hes1)
    as (Hs2 & Hi2 & Hc2).
  fold before_record in Hs2, Hi2, Hc2. cbn [target u1] in Hs2.
  (* recording the outcome *)
  assert (Hrecorded : recorded = refresh_record max_pages w now before_record i s).
  { subst recorded. cbn [step]. by rewrite Hi2. }
  assert (Hc3 : consistent recorded) by (by apply step_consistent).
  set (u3 := {| target := s; at_ := AtFinally |}).
  assert (Hi3 : units recorded !! i = Some u3).
  { rewrite Hrecorded. unfold refresh_record.
    destruct (scrape_and_analyze_source _ _ _ _) as [o st].
    by apply (set_unit_lookup _ i u1). }
  destruct (run_frame ri max_pages recorded i u3 es2 Hc3 Hi3
              (refreshing_self u3 (or_intror eq_refl)) Hes2)
    as (Hs4 & Hi4 & Hc4).
  fold before_release in Hs4, Hi4, Hc4. cbn [target u3] in Hs4.
  assert (Hs3 : site_states recorded s
    = match outcome with
      | Ok merged_rows =>
          {| source_name := source_name (site_states sys s);
             comments := merged_rows; last_updated := Some now;
             in_progress := true; last_error := None |}
      | Raise exc =>
          {| source_name := source_name (site_states sys s);
             comments := comments (site_states sys s);
             last_updated := last_updated (site_states sys s);
             in_progress := true; last_error := Some exc |}
      end).
  { rewrite Hrecorded. unfold refresh_record. subst outcome.
    destruct (scrape_and_analyze_source _ _ _ _) as [o st].
    cbn. rewrite fn_insert_same, Hs2, Hs1. by destruct o. }
  (* releasing *)
  assert (Hreleased : released = refresh_release before_release i s).
  { subst released. cbn [step]. by rewrite Hi4. }
  assert (Hs5 : site_states released s
    = {| source_name := source_name (site_states recorded s);
         comments := comments (site_states recorded s);
         last_updated := last_updated (site_states recorded s);
         in_progress := false;
         last_error := last_error (site_states recorded s) |}).
  { rewrite Hreleased. unfold refresh_release. cbn.
    by rewrite fn_insert_same, Hs4. }
  split; [by rewrite Hs1|].
  split; [rewrite Hs4, Hs3; by destruct outcome|].
  split; [by rewrite Hs5|].
  split.
  { rewrite Hreleased. unfold refresh_release.
    by apply (set_unit_lookup _ i u3). }
  split.
  - intros rows Hout. rewrite Hs5, Hs3, Hout. done.
  - intros exc Hout. rewrite Hs5, Hs3, Hout. done.
Qed.

(** ** Re-analysis of loaded rows *)









Lemma merge_sublist (A B : list comment) :
  sublist (merge_with_existing A B) (A ++ B).
Proof. rewrite merge_keep_first. apply keep_first_sublist. Qed.


Lemma Forall_of_sublist {A : Type} (P : A -> Prop) (l k : list A) :
  sublist l k -> Forall P k -> Forall P l.
Proof.
  induction 1 as [|x l k _ IH|x l k _ IH]; intros Hk; [done| |];
    inversion_clear Hk; auto.
Qed.




(** ** Persistence round trip *)

Lemma utf8_decode_char (c : Z) (rest : list Z) :
  is_scalar c = true ->
  utf8_decode (utf8_char c ++ rest) = cons c <$> utf8_decode rest.
Proof.
  intros Hc.
  assert (Hs : 0 <= c < 55296 \/ 57344 <= c < 1114112).
  { revert Hc. unfold is_scalar, in_range.
    destruct (Z.leb_spec 0 c), (Z.leb_spec c 55295), (Z.leb_spec 57344 c),
      (Z.leb_spec c 1114111); cbn; intros; try done; lia. }
  clear Hc. unfold utf8_char.
  destruct (Z.ltb_spec c 0); [lia|].
  destruct (Z.ltb_spec c 128).
  { cbn [app utf8_decode]. replace (in_range 0 127 c) with true by range_bool. done. }
  destruct (Z.ltb_spec c 2048).
  { pose proof (Z.div_mod c 64 ltac:(lia)) as Hdm.
    pose proof (Z.mod_pos_bound c 64 ltac:(lia)) as Hr.
    set (q := c / 64) in *. set (r := c mod 64) in *.
    cbn [app utf8_decode].
    replace (in_range 0 127 (192 + q)) with false by range_bool.
    replace (in_range 194 223 (192 + q)) with true by range_bool.
    replace (continuation (128 + r)) with true by range_bool.
    do 2 f_equal. lia. }
  replace (in_range 55296 57343 c) with false by range_bool.
  destruct (Z.ltb_spec c 65536).
  { pose proof (Z.div_mod c 64 ltac:(lia)) as Hdm.
    pose proof (Z.mod_pos_bound c 64 ltac:(lia)) as Hr.
    pose proof (Z.div_mod (c / 64) 64 ltac:(lia)) as Hdm2.
    pose proof (Z.mod_pos_bound (c / 64) 64 ltac:(lia)) as Hr2.
    assert (Hq : c / 4096 = c / 64 / 64) by (rewrite Z.div_div by lia; reflexivity).
    rewrite Hq.
    set (q := c / 64) in *. set (r := c mod 64) in *.
    set (q2 := q / 64) in *. set (r2 := q mod 64) in *.
    cbn [app utf8_decode].
    replace (in_range 0 127 (224 + q2)) with false by range_bool.
    replace (in_range 194 223 (224 + q2)) with false by range_bool.
    replace (in_range 224 239 (224 + q2)) with true by range_bool.
    replace (in_range (if 224 + q2 =? 224 then 160 else 128)
                      (if 224 + q2 =? 237 then 159 else 191) (128 + r2))
      with true by range_bool.
    replace (continuation (128 + r)) with true by range_bool.
    cbn [andb]. do 2 f_equal. lia. }
  destruct (Z.ltb_spec c 1114112); [|lia].
  pose proof (Z.div_mod c 64 ltac:(lia)) as Hdm.
  pose proof (Z.mod_pos_bound c 64 ltac:(lia)) as Hr.
  pose proof (Z.div_mod (c / 64) 64 ltac:(lia)) as Hdm2.
  pose proof (Z.mod_pos_bound (c / 64) 64 ltac:(lia)) as Hr2.
  pose proof (Z.div_mod (c / 64 / 64) 64 ltac:(lia)) as Hdm3.
  pose proof (Z.mod_pos_bound (c / 64 / 64) 64 ltac:(lia)) as Hr3.
  assert (Hq : c / 4096 = c / 64 / 64) by (rewrite Z.div_div by lia; reflexivity).
  assert (Hq' : c / 262144 = c / 64 / 64 / 64) by (rewrite !Z.div_div by lia; reflexivity).
  rewrite Hq, Hq'.
  set (q := c / 64) in *. set (r := c mod 64) in *.
  set (q2 := q / 64) in *. set (r2 := q mod 64) in *.
  set (q3 := q2 / 64) in *. set (r3 := q2 mod 64) in *.
  cbn [app utf8_decode].
  replace (in_range 0 127 (240 + q3)) with false by range_bool.
  replace (in_range 194 223 (240 + q3)) with false by range_bool.
  replace (in_range 224 239 (240 + q3)) with false by range_bool.
  replace (in_range 240 244 (240 + q3)) with true by range_bool.
  replace (in_range (if 240 + q3 =? 240 then 144 else 128)
                    (if 240 + q3 =? 244 then 143 else 191) (128 + r3))
    with true by range_bool.
  replace (continuation (128 + r2)) with true by range_bool.
  replace (continuation (128 + r)) with true by range_bool.
  cbn [andb]. do 2 f_equal. lia.
Qed.

Lemma utf8_round_trip (s : str) :
  forallb is_scalar s = true -> utf8_decode (utf8_encode s) = Some s.
Proof.
  induction s as [|c s IH]; [done|]. cbn [forallb utf8_encode flat_map].
  intros [Hc Hs]%andb_true_iff.
  rewrite utf8_decode_char by done. fold (utf8_encode s). by rewrite IH.
Qed.

(** *** The reader on what the writer wrote *)

Lemma feed_split (r : CSV.reader) (s : str) :
  CSV.feed r s
  = match feed_chars r s with
    | Some r' => CSV.parse_process_char r' CSV.EOL
    | None => None
    end.
Proof.
  revert r. induction s as [|c s IH]; intros r; cbn; [done|].
  destruct (CSV.parse_process_char r (CSV.Char c)); [apply IH|done].
Qed.

Lemma feed_chars_app (r : CSV.reader) (a b : str) :
  feed_chars r (a ++ b)
  = match feed_chars r a with
    | Some r' => feed_chars r' b
    | None => None
    end.
Proof.
  revert r. induction a as [|c a IH]; intros r; cbn; [done|].
  destruct (CSV.parse_process_char r (CSV.Char c)); [apply IH|done].
Qed.

Lemma special_cases (c : Z) :
  CSV.special c = false ->
  (c =? CSV.COMMA) = false /\ (c =? CSV.QUOTE) = false
  /\ (c =? CSV.CR) = false /\ (c =? CSV.LF) = false.
Proof.
  unfold CSV.special. intros H.
  apply orb_false_iff in H as [H Hlf]. apply orb_false_iff in H as [H Hcr].
  apply orb_false_iff in H as [Hcomma Hquote]. done.
Qed.

(** Characters of an unquoted field, read inside the field. *)
Lemma feed_plain (f cur : str) (flds : list str) :
  existsb CSV.special f = false -> fits cur f ->
  feed_chars {| CSV.state := CSV.IN_FIELD; CSV.field := cur; CSV.fields := flds |} f
  = Some {| CSV.state := CSV.IN_FIELD; CSV.field := rev f ++ cur;
            CSV.fields := flds |}.
Proof.
  revert cur. induction f as [|c f IH]; intros cur Hf Hfit; [done|].
  cbn [existsb] in Hf. apply orb_false_iff in Hf as [Hc Hf].
  destruct (special_cases c Hc) as (Hcomma & Hquote & Hcr & Hlf).
  unfold fits in *. cbn [length] in Hfit.
  cbn [feed_chars CSV.parse_process_char CSV.state].
  rewrite Hcr, Hlf, Hcomma. cbn [orb]. unfold CSV.parse_add_char. cbn [CSV.field].
  destruct (Z.leb_spec CSV.FIELD_LIMIT (Z.of_nat (length cur))); [lia|].
  cbn [CSV.fields]. rewrite IH; [|done|cbn [length]; lia].
  cbn [rev]. by rewrite <- app_assoc.
Qed.

(** Characters of a quoted field, quotes doubled, read inside the quotes. *)
Lemma escape_quotes_cons (c : Z) (f : str) :
  CSV.escape_quotes (c :: f)
  = (if c =? CSV.QUOTE then [CSV.QUOTE; CSV.QUOTE] else [c]) ++ CSV.escape_quotes f.
Proof. reflexivity. Qed.

Lemma feed_quoted (f cur : str) (flds : list str) :
  fits cur f ->
  feed_chars {| CSV.state := CSV.IN_QUOTED_FIELD; CSV.field := cur;
                CSV.fields := flds |} (CSV.escape_quotes f)
  = Some {| CSV.state := CSV.IN_QUOTED_FIELD; CSV.field := rev f ++ cur;
            CSV.fields := flds |}.
Proof.
  revert cur. induction f as [|c f IH]; intros cur Hfit; [done|].
  unfold fits in *. cbn [length] in Hfit.
  rewrite escape_quotes_cons, feed_chars_app.
  assert (Hc : feed_chars {| CSV.state := CSV.IN_QUOTED_FIELD; CSV.field := cur;
                             CSV.fields := flds |}
                 (if c =? CSV.QUOTE then [CSV.QUOTE; CSV.QUOTE] else [c])
               = Some {| CSV.state := CSV.IN_QUOTED_FIELD; CSV.field := c :: cur;
                         CSV.fields := flds |}).
  { destruct (Z.eqb_spec c CSV.QUOTE) as [->|Hq].
    - cbn [feed_chars CSV.parse_process_char CSV.state CSV.goto].
      rewrite Z.eqb_refl. cbn [CSV.parse_process_char CSV.state CSV.goto].
      rewrite Z.eqb_refl. unfold CSV.parse_add_char.
      cbn [CSV.goto CSV.field CSV.fields].
      destruct (Z.leb_spec CSV.FIELD_LIMIT (Z.of_nat (length cur))); [lia|reflexivity].
    - apply Z.eqb_neq in Hq.
      cbn [feed_chars CSV.parse_process_char CSV.state]. rewrite Hq.
      unfold CSV.parse_add_char. cbn [CSV.field].
      destruct (Z.leb_spec CSV.FIELD_LIMIT (Z.of_nat (length cur))); [lia|reflexivity]. }
  rewrite Hc, IH by (cbn [length]; lia).
  cbn [rev]. by rewrite <- app_assoc.
Qed.

Lemma feed_app (r : CSV.reader) (a b : str) :
  CSV.feed r (a ++ b)
  = match feed_chars r a with
    | Some r' => CSV.feed r' b
    | None => None
    end.
Proof.
  revert r. induction a as [|c a IH]; intros r; cbn; [done|].
  destruct (CSV.parse_process_char r (CSV.Char c)); [apply IH|done].
Qed.

Lemma feed_field (start : CSV.parser_state) (f : str) (flds : list str) :
  start = CSV.START_FIELD \/ start = CSV.START_RECORD ->
  fits [] f ->
  feed_chars {| CSV.state := start; CSV.field := []; CSV.fields := flds |}
             (CSV.write_field f)
  = Some {| CSV.state := field_end start f; CSV.field := rev f;
            CSV.fields := flds |}.
Proof.
  intros Hstart Hfit. unfold CSV.write_field, field_end.
  destruct (existsb CSV.special f) eqn:Hsp.
  - rewrite feed_chars_app.
    assert (Hopen : feed_chars {| CSV.state := start; CSV.field := [];
                                  CSV.fields := flds |} [CSV.QUOTE]
                    = Some {| CSV.state := CSV.IN_QUOTED_FIELD; CSV.field := [];
                              CSV.fields := flds |}).
    { by destruct Hstart as [-> | ->]. }
    rewrite Hopen, feed_chars_app, feed_quoted by done.
    rewrite app_nil_r. cbn [feed_chars CSV.parse_process_char CSV.state].
    by rewrite Z.eqb_refl.
  - destruct f as [|c f]; [done|].
    cbn [existsb] in Hsp. apply orb_false_iff in Hsp as [Hc Hf].
    destruct (special_cases c Hc) as (Hcomma & Hquote & Hcr & Hlf).
    assert (Hfirst : CSV.parse_process_char
                       {| CSV.state := start; CSV.field := []; CSV.fields := flds |}
                       (CSV.Char c)
                     = Some {| CSV.state := CSV.IN_FIELD; CSV.field := [c];
                               CSV.fields := flds |}).
    { destruct Hstart as [-> | ->];
        cbn [CSV.parse_process_char CSV.state CSV.start_field];
        rewrite ?Hcr, ?Hlf, ?Hquote, ?Hcomma; cbn [orb];
        cbn [CSV.start_field]; rewrite ?Hcr, ?Hlf, ?Hquote, ?Hcomma; cbn [orb];
        reflexivity. }
    cbn [feed_chars]. rewrite Hfirst.
    rewrite feed_plain; [|done|].
    + cbn [rev]. done.
    + unfold fits in *. cbn [length] in *. lia.
Qed.

Lemma read_comma (st : CSV.parser_state) (fld : str) (flds : list str) :
  st <> CSV.IN_QUOTED_FIELD -> st <> CSV.EAT_CRNL ->
  CSV.parse_process_char {| CSV.state := st; CSV.field := fld; CSV.fields := flds |}
                         (CSV.Char CSV.COMMA)
  = Some {| CSV.state := CSV.START_FIELD; CSV.field := [];
            CSV.fields := rev fld :: flds |}.
Proof. by destruct st. Qed.

Lemma read_terminator (st : CSV.parser_state) (fld : str) (flds : list str) :
  st = CSV.IN_FIELD \/ st = CSV.QUOTE_IN_QUOTED_FIELD \/ st = CSV.START_FIELD ->
  CSV.feed {| CSV.state := st; CSV.field := fld; CSV.fields := flds |}
           [CSV.CR; CSV.LF]
  = Some {| CSV.state := CSV.START_RECORD; CSV.field := [];
            CSV.fields := rev fld :: flds |}.
Proof. by intros [-> | [-> | ->]]. Qed.

Lemma field_end_started (start : CSV.parser_state) (f : str) :
  start = CSV.START_FIELD \/ start = CSV.START_RECORD ->
  field_end start f <> CSV.IN_QUOTED_FIELD /\ field_end start f <> CSV.EAT_CRNL.
Proof.
  unfold field_end. intros [-> | ->]; destruct (existsb _ _); destruct f; done.
Qed.

(** A record as written, read back from the start of a record or of a
    field. *)
Lemma feed_row (fs : list str) (start : CSV.parser_state) (flds : list str) :
  fs <> [] ->
  start = CSV.START_FIELD \/ (start = CSV.START_RECORD /\ fs <> [[]]) ->
  Forall (fits []) fs ->
  CSV.feed {| CSV.state := start; CSV.field := []; CSV.fields := flds |}
           (CSV.join_fields fs ++ [CSV.CR; CSV.LF])
  = Some {| CSV.state := CSV.START_RECORD; CSV.field := [];
            CSV.fields := rev fs ++ flds |}.
Proof.
  revert start flds. induction fs as [|f rest IH]; intros start flds Hne Hstart Hfit;
    [done|].
  inversion_clear Hfit as [|? ? Hf Hrest].
  assert (Hstart' : start = CSV.START_FIELD \/ start = CSV.START_RECORD)
    by (destruct Hstart as [?|[? _]]; auto).
  destruct rest as [|g rest].
  - cbn [CSV.join_fields]. rewrite feed_app, feed_field by done.
    rewrite read_terminator; [by rewrite rev_involutive|].
    unfold field_end. destruct (existsb CSV.special f); [auto|].
    destruct f; [|auto]. destruct Hstart as [->|[_ Hne']]; [auto|done].
  - cbn [CSV.join_fields]. rewrite <- !app_assoc.
    rewrite feed_app, feed_field by done.
    cbn [app]. cbn [CSV.feed].
    destruct (field_end_started start f Hstart') as [H1 H2].
    rewrite read_comma, rev_involutive by done.
    rewrite IH; [|done|by left|done].
    cbn [rev]. by rewrite <- !app_assoc.
Qed.

(** *** Lines *)

Lemma split_lines_line (body cur rest : str) :
  no_newline body ->
  CSV.split_lines cur (body ++ CSV.CR :: CSV.LF :: rest)
  = (rev cur ++ body ++ [CSV.CR; CSV.LF]) :: CSV.split_lines [] rest.
Proof.
  revert cur. induction body as [|c body IH]; intros cur Hbody.
  - cbn. by rewrite <- app_assoc.
  - inversion_clear Hbody as [|? ? [Hcr Hlf] Hbody'].
    cbn [app CSV.split_lines].
    apply Z.eqb_neq in Hcr, Hlf. rewrite Hcr, Hlf.
    rewrite IH by done. cbn [rev]. by rewrite <- app_assoc.
Qed.

Lemma write_field_no_newline (f : str) :
  no_newline f -> no_newline (CSV.write_field f).
Proof.
  intros Hf. unfold CSV.write_field. destruct (existsb CSV.special f); [|done].
  apply Forall_app. split; [by repeat constructor|].
  apply Forall_app. split; [|by repeat constructor].
  induction Hf as [|c f [Hcr Hlf] _ IH]; [constructor|].
  rewrite escape_quotes_cons. apply Forall_app. split; [|done].
  destruct (c =? CSV.QUOTE); by repeat constructor.
Qed.

Lemma join_fields_no_newline (fs : list str) :
  Forall no_newline fs -> no_newline (CSV.join_fields fs).
Proof.
  induction 1 as [|f fs Hf Hfs IH]; [constructor|].
  destruct fs as [|g fs]; cbn [CSV.join_fields].
  - by apply write_field_no_newline.
  - apply Forall_app. split; [by apply write_field_no_newline|].
    apply Forall_app. split; [by repeat constructor|done].
Qed.

Lemma write_row_join (fs : list str) :
  fs <> [[]] -> CSV.write_row fs = CSV.join_fields fs ++ [CSV.CR; CSV.LF].
Proof.
  intros H. unfold CSV.write_row. destruct fs as [|[|c f] [|g fs]]; done.
Qed.

Lemma split_lines_rows (rows : list (list str)) :
  Forall row_ok rows ->
  CSV.split_lines [] (concat (map CSV.write_row rows)) = map CSV.write_row rows.
Proof.
  induction 1 as [|fs rows (Hne & Hne' & Hfit & Hnl) _ IH]; [done|].
  cbn [map concat]. rewrite write_row_join by done.
  rewrite <- app_assoc. cbn [app].
  rewrite split_lines_line by (by apply join_fields_no_newline).
  by rewrite IH.
Qed.

Lemma records_rows (rows : list (list str)) :
  Forall row_ok rows ->
  CSV.records CSV.parse_reset (map CSV.write_row rows) = Some rows.
Proof.
  induction 1 as [|fs rows (Hne & Hne' & Hfit & Hnl) _ IH]; [done|].
  cbn [map CSV.records]. rewrite write_row_join by done.
  unfold CSV.parse_reset at 1. rewrite feed_row; [|done|by right|done].
  cbn [CSV.state CSV.fields]. rewrite IH, app_nil_r, rev_involutive. done.
Qed.

(** *** Fields of a corpus row *)

Lemma sub_spaces_spaced (in_run : bool) (s : str) :
  single_spaced (sub_spaces in_run s).
Proof.
  revert in_run. induction s as [|c s IH]; intros in_run; cbn [sub_spaces];
    [constructor|].
  destruct (is_space c) eqn:Hc.
  - destruct in_run; [apply IH|]. constructor; [by right|apply IH].
  - constructor; [by left|apply IH].
Qed.

Lemma lstrip_spaced (s : str) : single_spaced s -> single_spaced (lstrip s).
Proof.
  unfold single_spaced.
  induction 1 as [|c s Hc Hs IH]; cbn [lstrip]; [constructor|].
  destruct (is_space c) eqn:E; [exact IH|]. constructor; [by left|done].
Qed.

Lemma rev_spaced (s : str) : single_spaced s -> single_spaced (rev s).
Proof.
  apply Forall_rev.
Qed.

Lemma normalize_whitespace_spaced (s : str) :
  single_spaced (normalize_whitespace s).
Proof.
  unfold normalize_whitespace, strip, rstrip.
  apply rev_spaced, lstrip_spaced, rev_spaced, lstrip_spaced, sub_spaces_spaced.
Qed.

Lemma normalized_no_newline (f : str) :
  normalize_whitespace f = f -> no_newline f.
Proof.
  intros H. pose proof (normalize_whitespace_spaced f) as Hs. rewrite H in Hs.
  eapply Forall_impl; [|exact Hs]. intros c [Hc|Hc].
  - split; intros Heq; subst c; vm_compute in Hc; discriminate.
  - subst c. split; discriminate.
Qed.

Lemma storableb_storable (f : str) : storableb f = true -> storable f.
Proof.
  unfold storableb, storable, fits. intros [Hf Hlen]%andb_true_iff.
  apply Z.leb_le in Hlen. rewrite forallb_forall in Hf.
  split; [|split; [|done]].
  - apply forallb_forall. intros c Hc. specialize (Hf c Hc).
    by apply andb_true_iff in Hf as [[? _]%andb_true_iff _].
  - apply Forall_forall. intros c Hc. specialize (Hf c Hc).
    apply andb_true_iff in Hf as [[_ Hcr]%andb_true_iff Hlf].
    apply negb_true_iff, Z.eqb_neq in Hcr, Hlf. done.
Qed.

Lemma clean_storable (f : str) : clean f -> storable f.
Proof.
  intros (Hn & Hs & Hl). split; [done|]. split; [by apply normalized_no_newline|done].
Qed.

Lemma normalize_sentiment_name (l : sentiment) :
  normalize_sentiment (sentiment_name l) = l.
Proof. destruct l; vm_compute; reflexivity. Qed.

Lemma uint_digits_digits (u : Decimal.uint) :
  Forall (fun c => 48 <= c <= 57) (uint_digits u).
Proof.
  induction u; cbn [uint_digits]; constructor; unfold digit_char; try lia; done.
Qed.

Lemma round_half_even_bounds (q : Q) :
  Qfloor q <= round_half_even q <= Qfloor q + 1
  /\ (round_half_even q = Qfloor q + 1 -> (1 # 2 <= q - inject_Z (Qfloor q))%Q)
  /\ (round_half_even q = Qfloor q -> (q - inject_Z (Qfloor q) <= 1 # 2)%Q).
Proof.
  unfold round_half_even.
  destruct (Qltb (q - inject_Z (Qfloor q)) (1 # 2)) eqn:H1.
  - split; [lia|]. split; [lia|]. intros _. apply Qltb_lt in H1. by apply Qlt_le_weak.
  - apply Qltb_ge in H1.
    destruct (Qltb (1 # 2) (q - inject_Z (Qfloor q))) eqn:H2.
    + split; [lia|]. split; [done|lia].
    + apply Qltb_ge in H2. destruct (Z.even (Qfloor q)); split; try lia; split; done.
Qed.

Lemma ten_thousandths_range (x : Q) :
  (0 <= x)%Q -> (x <= 1)%Q -> 0 <= ten_thousandths x <= 10000.
Proof.
  intros H0 H1. unfold ten_thousandths.
  set (q := (Qabs x * 10000)%Q).
  assert (Hq : (0 <= q)%Q /\ (q <= 10000)%Q).
  { subst q. rewrite Qabs_pos by done. destruct x as [a b].
    unfold Qle, Qmult in *. cbn in *. lia. }
  destruct Hq as [Hq0 Hq1].
  pose proof (Qfloor_resp_le _ _ Hq0) as Hf0.
  pose proof (Qfloor_resp_le _ _ Hq1) as Hf1.
  change (Qfloor 0) with 0 in Hf0. change (Qfloor 10000) with 10000 in Hf1.
  destruct (round_half_even_bounds q) as (Hb & Hup & _).
  split; [lia|].
  destruct (Z.eq_dec (round_half_even q) (Qfloor q + 1)) as [Heq|Hne]; [|lia].
  destruct (Z.eq_dec (Qfloor q) 10000) as [Hten|]; [|lia].
  exfalso. specialize (Hup Heq). rewrite Hten in Hup.
  clearbody q. destruct q as [a b].
  unfold Qle, Qminus, Qplus, Qopp, inject_Z in *. cbn in *. lia.
Qed.

Lemma digit_char_storable (d : Z) :
  0 <= d <= 9 ->
  is_scalar (digit_char d) = true
  /\ digit_char d <> CSV.CR /\ digit_char d <> CSV.LF.
Proof.
  intros Hd. unfold digit_char, CSV.CR, CSV.LF. split; [|lia].
  unfold is_scalar. range_bool.
Qed.

Lemma format_4f_storable (x : Q) :
  (0 <= x)%Q -> (x <= 1)%Q -> storable (format_4f x).
Proof.
  intros H0 H1. unfold format_4f.
  pose proof (ten_thousandths_range x H0 H1) as Hn.
  set (n := ten_thousandths x) in *.
  replace (Qltb x 0) with false
    by (symmetry; by apply Qltb_ge).
  assert (Hint : decimal (n / 10000) = [48] \/ decimal (n / 10000) = [49]).
  { assert (n / 10000 = 0 \/ n / 10000 = 1) as [-> | ->]; [|by left|by right].
    pose proof (Z.div_mod n 10000 ltac:(lia)).
    pose proof (Z.mod_pos_bound n 10000 ltac:(lia)). lia. }
  assert (Hd : forall k, 0 <= k mod 10 <= 9).
  { intros k. pose proof (Z.mod_pos_bound k 10 ltac:(lia)). lia. }
  destruct (digit_char_storable _ (Hd (n / 1000))) as (? & ? & ?).
  destruct (digit_char_storable _ (Hd (n / 100))) as (? & ? & ?).
  destruct (digit_char_storable _ (Hd (n / 10))) as (? & ? & ?).
  destruct (digit_char_storable _ (Hd n)) as (? & ? & ?).
  destruct Hint as [-> | ->]; cbn [app]; (split; [|split]).
  all: try (cbn [forallb]; repeat (apply andb_true_intro; split); done).
  all: try (repeat constructor; done).
  all: by unfold fits.
Qed.

(** Rounding to the nearest integer moves a number by a half at most. *)
Lemma round_half_even_close (q : Q) :
  (Qabs (q - inject_Z (round_half_even q)) <= 1 # 2)%Q.
Proof.
  destruct (round_half_even_bounds q) as (Hb & Hup & Hdown).
  pose proof (Qfloor_le q) as Hfl. pose proof (Qlt_floor q) as Hfu.
  apply Qabs_Qle_condition.
  destruct (Z.eq_dec (round_half_even q) (Qfloor q)) as [Heq|Hne].
  - specialize (Hdown Heq). rewrite Heq. clear Hup Hb Heq.
    set (f := Qfloor q) in *. clearbody f. destruct q as [a b].
    unfold Qle, Qlt, Qminus, Qplus, Qopp, inject_Z in *. cbn in *. lia.
  - assert (Heq : round_half_even q = Qfloor q + 1) by lia.
    specialize (Hup Heq). rewrite Heq. clear Hdown Hb Heq Hne.
    set (f := Qfloor q) in *. clearbody f. destruct q as [a b].
    unfold Qle, Qlt, Qminus, Qplus, Qopp, inject_Z in *. cbn in *. lia.
Qed.

Lemma csv_record_storable (row : comment) :
  persistable row -> Forall storable (csv_record row).
Proof.
  intros (Ha & Hts & Ht & Hl & Hs & H0 & H1). unfold csv_record.
  rewrite normalize_sentiment_name.
  do 4 (constructor; [by apply clean_storable|]).
  constructor; [apply storableb_storable; by destruct (sentiment_label row)|].
  constructor; [by apply format_4f_storable|].
  constructor; [by apply clean_storable|]. constructor.
Qed.

Lemma storable_row_ok (fs : list str) :
  fs <> [] -> fs <> [[]] -> Forall storable fs -> row_ok fs.
Proof.
  intros H1 H2 Hfs. split; [done|]. split; [done|]. split.
  - eapply Forall_impl; [|exact Hfs]. by intros f (_ & _ & ?).
  - eapply Forall_impl; [|exact Hfs]. by intros f (_ & ? & _).
Qed.

Lemma escape_quotes_scalar (f : str) :
  forallb is_scalar f = true -> forallb is_scalar (CSV.escape_quotes f) = true.
Proof.
  induction f as [|c f IH]; [done|]. cbn [forallb].
  intros [Hc Hf]%andb_true_iff. rewrite escape_quotes_cons, forallb_app, IH by done.
  destruct (c =? CSV.QUOTE); cbn [forallb]; by rewrite ?Hc.
Qed.

Lemma write_field_scalar (f : str) :
  forallb is_scalar f = true -> forallb is_scalar (CSV.write_field f) = true.
Proof.
  intros Hf. unfold CSV.write_field. destruct (existsb CSV.special f); [|done].
  rewrite !forallb_app, escape_quotes_scalar by done. done.
Qed.

Lemma join_fields_cons (f g : str) (fs : list str) :
  CSV.join_fields (f :: g :: fs)
  = CSV.write_field f ++ [CSV.COMMA] ++ CSV.join_fields (g :: fs).
Proof. reflexivity. Qed.

Lemma join_fields_scalar (fs : list str) :
  Forall storable fs -> forallb is_scalar (CSV.join_fields fs) = true.
Proof.
  induction 1 as [|f fs (Hf & _) _ IH]; [done|].
  destruct fs as [|g fs].
  - by apply write_field_scalar.
  - rewrite join_fields_cons, !forallb_app, write_field_scalar, IH by done. done.
Qed.

Lemma write_row_scalar (fs : list str) :
  fs <> [[]] -> Forall storable fs ->
  forallb is_scalar (CSV.write_row fs) = true.
Proof.
  intros Hne Hfs. rewrite write_row_join by done.
  rewrite forallb_app, join_fields_scalar by done. done.
Qed.

Lemma utf8_encode_app (a b : str) :
  utf8_encode (a ++ b) = utf8_encode a ++ utf8_encode b.
Proof. unfold utf8_encode. apply flat_map_app. Qed.

Lemma write_lines_ok (lines : list str) :
  Forall (fun line => forallb is_scalar line = true) lines ->
  write_lines lines = (utf8_encode (concat lines), Ok tt)
  /\ forallb is_scalar (concat lines) = true.
Proof.
  induction 1 as [|line lines Hline _ [IH1 IH2]]; [done|].
  cbn [write_lines concat]. unfold utf8_strict. rewrite Hline, IH1.
  by rewrite utf8_encode_app, forallb_app, Hline, IH2.
Qed.

Lemma CSV_FIELDS_storable : Forall storable CSV_FIELDS.
Proof.
  unfold CSV_FIELDS. cbn [map].
  do 7 (constructor; [by apply storableb_storable|]). constructor.
Qed.

Lemma loaded_row_stored (row : comment) :
  loaded_row (fun key => CSV.lookup_zip key CSV_FIELDS (csv_record row) CSV.Absent)
  = stored row.
Proof.
  unfold loaded_row, stored, csv_record. rewrite normalize_sentiment_name.
  reflexivity.
Qed.

Lemma dict_rows_table (rows : list comment) :
  map loaded_row (CSV.dict_rows (CSV_FIELDS :: map csv_record rows))
  = map stored rows.
Proof.
  cbn [CSV.dict_rows].
  induction rows as [|row rows IH]; [done|].
  cbn [map]. rewrite filter_cons_True by (by apply bool_decide_pack).
  cbn [map]. by rewrite IH, loaded_row_stored.
Qed.

(** C9, as amended: a corpus whose rows are as the data model has them (text
    fields whitespace-normalized, the score in [0, 1]), with fields of at
    most 131072 characters that UTF-8 can encode, is written without error,
    and loading the file returns the rows in the same order, every field
    with the value it had, the sentiment as its label and the score as the
    text of its value rounded to four decimals, which differs from the score
    by at most half a ten-thousandth. The identities of the loaded rows are
    those of the corpus. *)
Theorem csv_round_trip (rows : list comment) :
  Forall persistable rows ->
  (save_rows_to_csv rows).2 = Ok tt
  /\ load_rows_from_csv (Some (save_rows_to_csv rows).1) = map stored rows
  /\ map raw_key (load_rows_from_csv (Some (save_rows_to_csv rows).1))
     = map comment_key rows
  /\ Forall (fun row =>
       raw_score (stored row) = VStr (format_4f (sentiment_score row))
       /\ (Qabs (Qabs (sentiment_score row) * 10000
                 - inject_Z (ten_thousandths (sentiment_score row))) <= 1 # 2)%Q)
       rows.
Proof.
  intros Hrows.
  set (table := CSV_FIELDS :: map csv_record rows).
  assert (Hstorable : Forall (Forall storable) table).
  { constructor; [apply CSV_FIELDS_storable|].
    apply Forall_map. eapply Forall_impl; [|exact Hrows].
    apply csv_record_storable. }
  assert (Hshape : Forall (fun fs => fs <> [] /\ fs <> [[]]) table).
  { constructor; [done|]. apply Forall_map. apply Forall_forall. done. }
  assert (Hok : Forall row_ok table).
  { apply Forall_forall. intros fs Hfs.
    rewrite Forall_forall in Hstorable, Hshape.
    destruct (Hshape fs Hfs). by apply storable_row_ok, Hstorable. }
  assert (Hscalar : Forall (fun line => forallb is_scalar line = true)
                      (map CSV.write_row table)).
  { apply Forall_map. apply Forall_forall. intros fs Hfs.
    rewrite Forall_forall in Hstorable, Hshape.
    destruct (Hshape fs Hfs). by apply write_row_scalar, Hstorable. }
  destruct (write_lines_ok _ Hscalar) as [Hwrite Hcontent].
  assert (Hsave : save_rows_to_csv rows
                  = (BOM ++ utf8_encode (concat (map CSV.write_row table)), Ok tt)).
  { unfold save_rows_to_csv.
    replace (CSV.write_row CSV_FIELDS
             :: map (fun row => CSV.write_row (csv_record row)) rows)
      with (map CSV.write_row table) by (subst table; cbn; by rewrite map_map).
    by rewrite Hwrite. }
  assert (Hload : load_rows_from_csv (Some (save_rows_to_csv rows).1)
                  = map stored rows).
  { rewrite Hsave. cbn [fst load_rows_from_csv load_with decode BOM app].
    rewrite utf8_round_trip by done.
    rewrite split_lines_rows, records_rows by done.
    apply dict_rows_table. }
  split; [by rewrite Hsave|]. split; [done|]. split.
  - rewrite Hload, map_map. done.
  - apply Forall_forall. intros row _. split; [done|].
    apply round_half_even_close.
Qed.

(** *** Beyond the field limit *)

Lemma feed_chars_overflow (f cur : str) (flds : list str) :
  existsb CSV.special f = false ->
  CSV.FIELD_LIMIT < Z.of_nat (length cur + length f) ->
  Z.of_nat (length cur) <= CSV.FIELD_LIMIT ->
  feed_chars {| CSV.state := CSV.IN_FIELD; CSV.field := cur; CSV.fields := flds |} f
  = None.
Proof.
  revert cur. induction f as [|c f IH]; intros cur Hf Hlong Hcur.
  - cbn [length] in Hlong. lia.
  - cbn [existsb] in Hf. apply orb_false_iff in Hf as [Hc Hf].
    destruct (special_cases c Hc) as (Hcomma & Hquote & Hcr & Hlf).
    cbn [length] in Hlong.
    cbn [feed_chars CSV.parse_process_char CSV.state].
    rewrite Hcr, Hlf, Hcomma. cbn [orb]. unfold CSV.parse_add_char. cbn [CSV.field].
    destruct (Z.leb_spec CSV.FIELD_LIMIT (Z.of_nat (length cur))); [done|].
    cbn [CSV.fields]. apply IH; [done| |]; cbn [length]; lia.
Qed.

Lemma feed_field_overflow (start : CSV.parser_state) (f : str) (flds : list str) :
  start = CSV.START_FIELD \/ start = CSV.START_RECORD ->
  existsb CSV.special f = false ->
  CSV.FIELD_LIMIT < Z.of_nat (length f) ->
  feed_chars {| CSV.state := start; CSV.field := []; CSV.fields := flds |}
             (CSV.write_field f)
  = None.
Proof.
  intros Hstart Hsp Hlong. unfold CSV.write_field. rewrite Hsp.
  destruct f as [|c f]; [cbn [length] in Hlong; unfold CSV.FIELD_LIMIT in Hlong; lia|].
  cbn [existsb] in Hsp. apply orb_false_iff in Hsp as [Hc Hf].
  destruct (special_cases c Hc) as (Hcomma & Hquote & Hcr & Hlf).
  assert (Hfirst : CSV.parse_process_char
                     {| CSV.state := start; CSV.field := []; CSV.fields := flds |}
                     (CSV.Char c)
                   = Some {| CSV.state := CSV.IN_FIELD; CSV.field := [c];
                             CSV.fields := flds |}).
  { destruct Hstart as [-> | ->];
      cbn [CSV.parse_process_char CSV.state CSV.start_field];
      rewrite ?Hcr, ?Hlf, ?Hquote, ?Hcomma; cbn [orb];
      cbn [CSV.start_field]; rewrite ?Hcr, ?Hlf, ?Hquote, ?Hcomma; cbn [orb];
      reflexivity. }
  cbn [feed_chars]. rewrite Hfirst.
  apply feed_chars_overflow; [done| |].
  - cbn [length] in *. lia.
  - cbn [length]. unfold CSV.FIELD_LIMIT. lia.
Qed.

Lemma feed_row_overflow (before after : list str) (f : str)
    (start : CSV.parser_state) (flds : list str) :
  start = CSV.START_FIELD \/ start = CSV.START_RECORD ->
  Forall (fits []) before ->
  existsb CSV.special f = false ->
  CSV.FIELD_LIMIT < Z.of_nat (length f) ->
  CSV.feed {| CSV.state := start; CSV.field := []; CSV.fields := flds |}
           (CSV.join_fields (before ++ f :: after) ++ [CSV.CR; CSV.LF])
  = None.
Proof.
  revert start flds.
  induction before as [|g before IH]; intros start flds Hstart Hfit Hsp Hlong.
  - cbn [app]. destruct after as [|h after].
    + cbn [CSV.join_fields]. by rewrite feed_app, feed_field_overflow.
    + rewrite join_fields_cons, <- !app_assoc.
      by rewrite feed_app, feed_field_overflow.
  - inversion_clear Hfit as [|? ? Hg Hbefore].
    cbn [app]. destruct (before ++ f :: after) as [|h rest] eqn:Hrest.
    { by destruct before. }
    rewrite join_fields_cons, <- !app_assoc.
    rewrite feed_app, feed_field by done.
    cbn [app]. cbn [CSV.feed].
    destruct (field_end_started start g Hstart) as [H1 H2].
    rewrite read_comma by done.
    apply IH; auto.
Qed.

Lemma join_fields_all_scalar (fs : list str) :
  Forall (fun f => forallb is_scalar f = true) fs ->
  forallb is_scalar (CSV.join_fields fs) = true.
Proof.
  induction 1 as [|f fs Hf _ IH]; [done|].
  destruct fs as [|g fs].
  - by apply write_field_scalar.
  - rewrite join_fields_cons, !forallb_app, write_field_scalar, IH by done. done.
Qed.

(** A row that is as the data model has it, except that its text is longer
    than the reader accepts: the file is written, and reading it back fails
    in the reader, which [load_rows_from_csv] turns into the empty list. *)
Lemma oversized_text_unread (row : comment) :
  persistable {| author := author row; timestamp := timestamp row; text := [];
                 lang := lang row; sentiment_label := sentiment_label row;
                 sentiment_score := sentiment_score row; summary := summary row |} ->
  normalize_whitespace (text row) = text row ->
  forallb is_scalar (text row) = true ->
  existsb CSV.special (text row) = false ->
  CSV.FIELD_LIMIT < Z.of_nat (length (text row)) ->
  (save_rows_to_csv [row]).2 = Ok tt
  /\ load_rows_from_csv (Some (save_rows_to_csv [row]).1) = [].
Proof.
  intros Hrow Hnorm Hscalar Hsp Hlong.
  apply csv_record_storable in Hrow. unfold csv_record in Hrow.
  cbn [author timestamp text lang sentiment_label sentiment_score summary] in Hrow.
  set (label := sentiment_name (normalize_sentiment
                  (sentiment_name (sentiment_label row)))) in *.
  set (score := format_4f (sentiment_score row)) in *.
  inversion_clear Hrow as [|? ? Ha Hrow1].
  inversion_clear Hrow1 as [|? ? Hts Hrow2].
  inversion_clear Hrow2 as [|? ? _ Hrest].
  set (fs := [author row; timestamp row; text row; lang row; label; score;
              summary row]).
  assert (Hfs : csv_record row = fs) by reflexivity.
  assert (Hall : Forall (fun f => forallb is_scalar f = true /\ no_newline f) fs).
  { subst fs. constructor; [by destruct Ha as (? & ? & _)|].
    constructor; [by destruct Hts as (? & ? & _)|].
    constructor; [split; [done|by apply normalized_no_newline]|].
    eapply Forall_impl; [|exact Hrest]. by intros f (? & ? & _). }
  assert (Hline : forallb is_scalar (CSV.write_row fs) = true).
  { rewrite write_row_join by done. rewrite forallb_app, join_fields_all_scalar; [done|].
    eapply Forall_impl; [|exact Hall]. by intros f [? _]. }
  assert (Hhead : forallb is_scalar (CSV.write_row CSV_FIELDS) = true).
  { apply write_row_scalar; [done|apply CSV_FIELDS_storable]. }
  destruct (write_lines_ok [CSV.write_row CSV_FIELDS; CSV.write_row fs])
    as [Hwrite Hcontent].
  { by repeat constructor. }
  assert (Hsave : save_rows_to_csv [row]
                  = (BOM ++ utf8_encode (concat [CSV.write_row CSV_FIELDS;
                                                 CSV.write_row fs]), Ok tt)).
  { unfold save_rows_to_csv. cbn [map]. by rewrite Hfs, Hwrite. }
  rewrite Hsave. split; [done|].
  cbn [fst load_rows_from_csv load_with decode BOM app].
  rewrite utf8_round_trip by done.
  cbn [concat]. rewrite app_nil_r.
  rewrite (write_row_join CSV_FIELDS), (write_row_join fs) by done.
  rewrite <- !app_assoc. cbn [app].
  rewrite split_lines_line
    by (apply join_fields_no_newline;
        eapply Forall_impl; [|exact CSV_FIELDS_storable]; by intros f (_ & ? & _)).
  replace (CSV.join_fields fs ++ [CSV.CR; CSV.LF])
    with (CSV.join_fields fs ++ CSV.CR :: CSV.LF :: []) by done.
  rewrite split_lines_line
    by (apply join_fields_no_newline;
        eapply Forall_impl; [|exact Hall]; by intros f [_ ?]).
  cbn [app rev CSV.split_lines CSV.records].
  unfold CSV.parse_reset at 1.
  rewrite feed_row; [|done|by right|].
  2:{ eapply Forall_impl; [|exact CSV_FIELDS_storable]. by intros f (_ & _ & ?). }
  cbn [CSV.state CSV.records].
  unfold CSV.parse_reset at 1.
  rewrite (feed_row_overflow [author row; timestamp row]
             [lang row; label; score; summary row] (text row)); [done|by right| |done|done].
  constructor; [by destruct Ha as (_ & _ & ?)|].
  constructor; [by destruct Hts as (_ & _ & ?)|]. constructor.
Qed.

Lemma letters_plain (n : nat) :
  forallb is_scalar (letters n) = true
  /\ existsb CSV.special (letters n) = false
  /\ length (letters n) = n.
Proof.
  unfold letters. split; [|split; [|apply repeat_length]].
  - induction n as [|n IH]; [done|]. cbn [repeat forallb]. by rewrite IH.
  - induction n as [|n IH]; [done|]. cbn [repeat existsb]. by rewrite IH.
Qed.

Lemma letters_normalized (n : nat) : normalize_whitespace (letters n) = letters n.
Proof.
  unfold normalize_whitespace, strip, rstrip, letters.
  assert (Hsub : sub_spaces false (repeat 97 n) = repeat 97 n).
  { induction n as [|n IH]; [done|]. cbn [repeat sub_spaces].
    change (is_space 97) with false. cbv iota. by rewrite IH. }
  assert (Hstrip : forall m, lstrip (repeat 97 m) = repeat 97 m) by (by intros []).
  assert (Hrev : forall m, rev (repeat 97 m) = repeat 97 m).
  { induction m as [|m IH]; [done|]. cbn [repeat rev]. rewrite IH.
    symmetry. apply repeat_cons. }
  by rewrite Hsub, Hstrip, Hrev, Hstrip, Hrev.
Qed.

End Properties.

(** * The claims on concrete inputs *)

(** ** Identity *)

(** The hash on two test vectors of FIPS 180-4. *)
Example text_hash_abc :
  text_hash (s2l "abc")
  = s2l "ba7816bf8f01cfea414140de5dae2223b00361a396177a9cb410ff61f20015ad".
Proof. by vm_compute. Qed.

Example text_hash_empty :
  text_hash []
  = s2l "e3b0c44298fc1c149afbf4c8996fb92427ae41e4649b934ca495991b7852b855".
Proof. by vm_compute. Qed.

(** The two pairs of C1 differ after normalization and yet have one identity:
    the vertical bar that joins author and text can also occur in them. *)
Lemma identity_separator_collision :
  normalized_pair (U := ascii_tables) (s2l "a|b") (s2l "c")
  <> normalized_pair (U := ascii_tables) (s2l "a") (s2l "b|c")
  /\ make_comment_key (U := ascii_tables) (s2l "a|b") (s2l "c")
     = make_comment_key (U := ascii_tables) (s2l "a") (s2l "b|c").
Proof. split; [by vm_compute|]. by vm_compute. Qed.

Lemma comment_identity_witness :
  normalized_pair (U := ascii_tables) (s2l " Bob ") (s2l "Hi there")
  = normalized_pair (U := ascii_tables) (s2l "bob") (s2l "hi   there")
  /\ key_string (U := ascii_tables) (s2l "a|b") (s2l "c")
     = key_string (U := ascii_tables) (s2l "a") (s2l "b|c")
  /\ make_comment_key (U := ascii_tables) (s2l " Bob ") (s2l "Hi there")
     = make_comment_key (U := ascii_tables) (s2l "bob") (s2l "hi   there")
  /\ make_comment_key (U := ascii_tables) (s2l "a|b") (s2l "c")
     = make_comment_key (U := ascii_tables) (s2l "a") (s2l "b|c").
Proof.
  assert (Hpair : normalized_pair (U := ascii_tables) (s2l " Bob ") (s2l "Hi there")
                  = normalized_pair (U := ascii_tables) (s2l "bob") (s2l "hi   there"))
    by (vm_compute; reflexivity).
  assert (Hkey : key_string (U := ascii_tables) (s2l "a|b") (s2l "c")
                 = key_string (U := ascii_tables) (s2l "a") (s2l "b|c"))
    by (vm_compute; reflexivity).
  split; [exact Hpair|]. split; [exact Hkey|]. split.
  - destruct (comment_identity (U := ascii_tables)
                (s2l " Bob ") (s2l "Hi there") (s2l "bob") (s2l "hi   there"))
      as (_ & _ & H & _).
    exact (H Hpair).
  - destruct (comment_identity (U := ascii_tables)
                (s2l "a|b") (s2l "c") (s2l "a") (s2l "b|c"))
      as (_ & H & _).
    exact (H Hkey).
Defined.

(** ** Heuristic sentiment *)

(** The text "bad" has delta = -1 and is unknown, not negative: it is not
    longer than three characters. *)
Lemma short_text_is_unknown :
  (sentiment_delta (U := ascii_tables)
     (lower (U := ascii_tables) (normalize_whitespace (s2l "bad"))) < -0.35)%Q
  /\ heuristic_sentiment (U := ascii_tables) (s2l "bad")
     = {| v_sentiment := Unknown; v_score := 0.00 |}
  /\ v_sentiment (heuristic_sentiment (U := ascii_tables) (s2l "bad")) <> Negative.
Proof. split; [by vm_compute|]. split; by vm_compute. Qed.

Lemma heuristic_sentiment_rule_witness :
  v_sentiment (heuristic_sentiment (U := ascii_tables) (s2l "bad")) = Unknown
  /\ v_sentiment (heuristic_sentiment (U := ascii_tables)
                    (s2l "This is great, thank you!")) = Positive
  /\ v_sentiment (heuristic_sentiment (U := ascii_tables)
                    (s2l "This is the worst, such a waste")) = Negative
  /\ v_sentiment (heuristic_sentiment (U := ascii_tables)
                    (s2l "The meeting is on Monday")) = Neutral
  /\ v_sentiment (heuristic_sentiment (U := ascii_tables) (s2l "2024-2025")) = Unknown.
Proof.
  split; [|split; [|split; [|split]]].
  - destruct (heuristic_sentiment_rule (U := ascii_tables) (s2l "bad")) as [H _].
    apply H. vm_compute. by intros.
  - destruct (heuristic_sentiment_rule (U := ascii_tables)
                (s2l "This is great, thank you!")) as [_ H].
    destruct H as (H & _); [vm_compute; lia|].
    apply H. by vm_compute.
  - destruct (heuristic_sentiment_rule (U := ascii_tables)
                (s2l "This is the worst, such a waste")) as [_ H].
    destruct H as (_ & H & _); [vm_compute; lia|].
    apply H. by vm_compute.
  - destruct (heuristic_sentiment_rule (U := ascii_tables)
                (s2l "The meeting is on Monday")) as [_ H].
    destruct H as (_ & _ & H & _); [vm_compute; lia|].
    apply H; by vm_compute.
  - destruct (heuristic_sentiment_rule (U := ascii_tables) (s2l "2024-2025")) as [_ H].
    destruct H as (_ & _ & _ & H); [vm_compute; lia|].
    apply H; by vm_compute.
Defined.



(** ** Summaries *)

Lemma short_summary_truncation_witness :
  short_summary (letters 100) = letters 100
  /\ short_summary (letters 300) = letters 217 ++ ELLIPSIS
  /\ (length (short_summary (spaced_words 59)) <= 220)%nat
  /\ (exists body, short_summary (spaced_words 59) = body ++ ELLIPSIS)
  /\ (exists word_end tail,
        firstn 217 (normalize_whitespace (spaced_words 59)) = word_end ++ (32 :: tail)
        /\ (32 ∉ tail)
        /\ short_summary (spaced_words 59) = word_end ++ ELLIPSIS).
Proof.
  destruct (short_summary_truncation (letters 100)) as (Hshort & _ & _ & H100 & Hsame).
  destruct (short_summary_truncation (letters 300)) as (_ & Hlong & _).
  destruct (short_summary_truncation (spaced_words 59)) as (_ & Hcut & H300 & _).
  split; [|split; [|split; [|split]]].
  - apply Hsame; by vm_compute.
  - destruct Hlong as (_ & Hplain & _); [vm_compute; lia|].
    rewrite Hplain; [by vm_compute|].
    apply (bool_decide_unpack _). by vm_compute.
  - destruct H300 as [Hlen _]; [by vm_compute|]. exact Hlen.
  - destruct H300 as [_ Hdots]; [by vm_compute|]. exact Hdots.
  - destruct Hcut as (_ & _ & Hword); [vm_compute; lia|].
    apply Hword. apply (bool_decide_unpack _). by vm_compute.
Defined.

(** ** Pagination *)

(** On [repeating_site] page 1 yields a record, which is not new, while the
    empty-streak counter is 0: the walk stops there with the counter still 0
    and never asks for page 2, whose comment is lost. *)
Lemma repeated_page_stops_the_walk :
  page_result repeating_site 1 = Ok [scraped "asha" "roads  need repair"]
  /\ keep_first_raw (U := ascii_tables) (seen_keys after_first_page)
       [scraped "asha" "roads  need repair"] = []
  /\ empty_streak after_first_page = 0%nat
  /\ (exists st',
        page_body (U := ascii_tables) repeating_site after_first_page 1 = Break st'
        /\ empty_streak st' = 0%nat
        /\ collected st' = collected after_first_page)
  /\ scrape_comments_paginated (U := ascii_tables) 50 repeating_site
     = (Ok [scraped "Asha" "Roads need repair"], [Plain 0; Composite 1]).
Proof.
  assert (Hpage : page_result repeating_site 1
                  = Ok [scraped "asha" "roads  need repair"]) by reflexivity.
  assert (Hnone : keep_first_raw (U := ascii_tables) (seen_keys after_first_page)
                    [scraped "asha" "roads  need repair"] = []) by (by vm_compute).
  split; [exact Hpage|]. split; [exact Hnone|]. split; [reflexivity|]. split.
  - rewrite (page_body_rows (U := ascii_tables) _ _ _ _ Hpage) by discriminate.
    rewrite Hnone. eexists. split; [reflexivity|]. split; [reflexivity|].
    cbn [collected with_page]. apply app_nil_r.
  - by vm_compute.
Qed.

Lemma pagination_stopping_witness :
  (exists st', page_body (U := ascii_tables) three_page_site initial_scrape 3
               = Continue st')
  /\ (exists st',
        (page_body (U := ascii_tables) repeating_site after_first_page 2 = Continue st'
         \/ page_body (U := ascii_tables) repeating_site after_first_page 2 = Break st')
        /\ empty_streak st' = 0%nat
        /\ collected st'
           = collected after_first_page
             ++ keep_first_raw (U := ascii_tables) (seen_keys after_first_page)
                  [scraped "Ravi" "More buses please"])
  /\ (scrape_comments_paginated (U := ascii_tables) 50 three_page_site).1
     = Ok (keep_first_raw (U := ascii_tables) ∅
             ([scraped "Asha" "Roads need repair"]
              ++ [scraped "Ravi" "More buses please"]
              ++ [scraped "Meena" "Thank you for the new park"]))
  /\ (forall t,
        t ∈ (scrape_comments_paginated (U := ascii_tables) 50 three_page_site).2 ->
        (page_of t < 5)%nat).
Proof.
  destruct (pagination_stopping (U := ascii_tables))
    as (_ & Hrows & _ & Hsingle & _ & Hscenario).
  split; [|split].
  - apply Hsingle; reflexivity.
  - apply Hrows; [reflexivity|discriminate].
  - apply (Hscenario 50%nat three_page_site).
    + lia.
    + reflexivity.
    + reflexivity.
    + discriminate.
    + reflexivity.
    + by vm_compute.
    + reflexivity.
    + by vm_compute.
    + reflexivity.
    + reflexivity.
Defined.

(** ** Refresh *)

(** A forced trigger at start-up reports a refresh as started and leaves the
    in-progress flag clear, so a second trigger made before the unit runs is
    not refused either: it starts a second unit for the same source. *)
Lemma trigger_leaves_the_flag_clear :
  (trigger_refresh_if_needed 300 (boot ∅) site1 true 0%Q).1 = true
  /\ in_progress (site_states triggered site1) = false
  /\ (trigger_refresh_if_needed 300 triggered site1 true 1%Q).1 = true
  /\ units (trigger_refresh_if_needed 300 triggered site1 true 1%Q).2
     = [ {| target := site1; at_ := Spawned |};
         {| target := site1; at_ := Spawned |} ].
Proof. repeat split; by vm_compute. Qed.

Lemma refresh_trigger_exclusion_witness :
  in_progress (site_states busy site1) = true
  /\ trigger_refresh_if_needed 300 busy site1 true 5%Q = (false, busy)
  /\ trigger_refresh_if_needed 300 busy site1 false 5%Q = (false, busy)
  /\ units triggered = units (boot ∅) ++ [ {| target := site1; at_ := Spawned |} ]
  /\ refresh_enter busy 1 site1 = set_unit busy 1 Exited
  /\ in_progress (site_states (refresh_enter triggered 0 site1) site1) = true.
Proof.
  destruct (refresh_trigger_exclusion (U := ascii_tables) (W := offline))
    as (Hrefused & Htrigger & Hleave & Henter & _).
  assert (Hbusy : in_progress (site_states busy site1) = true) by reflexivity.
  split; [exact Hbusy|]. split; [exact (Hrefused 300 busy site1 true 5%Q Hbusy)|].
  split; [exact (Hrefused 300 busy site1 false 5%Q Hbusy)|]. split; [|split].
  - destruct (Htrigger 300 (boot ∅) site1 true 0%Q) as (_ & Hstarted & _).
    apply Hstarted. reflexivity.
  - exact (Hleave busy 1%nat site1 Hbusy).
  - apply Henter. reflexivity.
Defined.

Lemma refresh_returns_to_idle_witness :
  let released :=
    step (U := ascii_tables) (W := offline) 300 50
      (run (U := ascii_tables) (W := offline) 300 50
         (step (U := ascii_tables) (W := offline) 300 50
            (run (U := ascii_tables) (W := offline) 300 50
               (step (U := ascii_tables) (W := offline) 300 50 triggered
                  (Advance 0 unreachable_site 1%Q))
               [Trigger site1 true 2%Q])
            (Advance 0 unreachable_site 3%Q))
         [Trigger site2 true 4%Q])
      (Advance 0 unreachable_site 5%Q) in
  consistent triggered
  /\ in_progress (site_states released site1) = false
  /\ comments (site_states released site1) = comments (site_states triggered site1)
  /\ last_error (site_states released site1) = Some (s2l "HTTP 503").
Proof.
  assert (Hc : consistent triggered) by (intros []; reflexivity).
  assert (Hes1 : Forall (other_than 0) [Trigger site1 true 2%Q])
    by (repeat constructor).
  assert (Hes2 : Forall (other_than 0) [Trigger site2 true 4%Q])
    by (repeat constructor).
  intros released. split; [exact Hc|].
  destruct (refresh_returns_to_idle (U := ascii_tables) (W := offline) 300 50
              triggered 0 {| target := site1; at_ := Spawned |}
              [Trigger site1 true 2%Q] [Trigger site2 true 4%Q]
              unreachable_site unreachable_site unreachable_site 1%Q 3%Q 5%Q
              Hc eq_refl eq_refl eq_refl Hes1 Hes2)
    as (_ & _ & Hidle & _ & _ & Hfail).
  split; [exact Hidle|].
  destruct (Hfail (s2l "HTTP 503")) as (Hcomments & _ & Herror); [by vm_compute|].
  split; [exact Hcomments|exact Herror].
Defined.

(** ** Persistence *)

(** Two corpora that are not read back: the text of the first is longer than
    the reader accepts, so the file is written and the load ends in the empty
    list; the text of the second cannot be encoded, so the write raises. *)
Lemma round_trip_limits :
  ((save_rows_to_csv (U := ascii_tables) [oversized_comment]).2 = Ok tt
   /\ load_rows_from_csv
        (Some (save_rows_to_csv (U := ascii_tables) [oversized_comment]).1) = []
   /\ load_rows_from_csv
        (Some (save_rows_to_csv (U := ascii_tables) [oversized_comment]).1)
      <> map stored [oversized_comment])
  /\ (save_rows_to_csv (U := ascii_tables) [unpaired_comment]).2 = Raise ENCODE_ERROR
  /\ load_rows_from_csv
       (Some (save_rows_to_csv (U := ascii_tables) [unpaired_comment]).1) = [].
Proof.
  split; [|split; by vm_compute].
  destruct (letters_plain (Z.to_nat 131073)) as (Hscalar & Hplain & Hlen).
  destruct (oversized_text_unread (U := ascii_tables) oversized_comment)
    as [Hsave Hload].
  - unfold oversized_comment.
    cbn [author timestamp lang sentiment_label sentiment_score summary].
    repeat split; by vm_compute.
  - apply letters_normalized.
  - exact Hscalar.
  - exact Hplain.
  - unfold oversized_comment. cbn [text]. rewrite Hlen. unfold CSV.FIELD_LIMIT. lia.
  - split; [exact Hsave|]. split; [exact Hload|]. rewrite Hload. discriminate.
Qed.

Lemma csv_round_trip_witness :
  Forall persistable sample_corpus
  /\ (save_rows_to_csv (U := ascii_tables) sample_corpus).2 = Ok tt
  /\ load_rows_from_csv (Some (save_rows_to_csv (U := ascii_tables) sample_corpus).1)
     = map stored sample_corpus
  /\ map (raw_key (U := ascii_tables))
         (load_rows_from_csv
            (Some (save_rows_to_csv (U := ascii_tables) sample_corpus).1))
     = map (comment_key (U := ascii_tables)) sample_corpus.
Proof.
  assert (Hrows : Forall persistable sample_corpus).
  { do 2 (constructor; [repeat split; by vm_compute|]). constructor. }
  split; [exact Hrows|].
  destruct (csv_round_trip (U := ascii_tables) sample_corpus Hrows)
    as (Hsave & Hload & Hkeys & _).
  split; [exact Hsave|]. split; [exact Hload|exact Hkeys].
Defined.

Example sample_corpus_file :
  (save_rows_to_csv (U := ascii_tables) sample_corpus).1
  = BOM ++ s2l "author,timestamp,text,lang,sentiment,sentiment_score,summary"
    ++ [13; 10]
    ++ s2l "Asha,1 day ago," ++ [34] ++ s2l "Roads need repair, said "
    ++ [34; 34] ++ s2l "everyone" ++ [34; 34; 34]
    ++ s2l ",English,negative,0.6300,Roads need repair" ++ [13; 10]
    ++ s2l "Ravi,,More buses please,English,neutral,0.3333,More buses please"
    ++ [13; 10].
Proof. by vm_compute. Qed.


Example stale_row_reanalysed :
  map (fun row => (lang row, sentiment_label row, sentiment_score row))
      (normalize_rows (U := ascii_tables) (W := offline) empty_memo [stale_row]).1
  = [ (s2l "English", Positive, 0.71%Q) ].
Proof. by vm_compute. Qed.

(** * Further properties of the code *)

Section Further.
Context {U : Unicode} {W : World}.

(** ** Lemmas *)

(** *** Whitespace *)

Lemma sub_spaces_word (b : bool) (s : str) :
  starts_word s = true -> sub_spaces b s = sub_spaces false s.
Proof.
  destruct s as [|c s]; [done|]. cbn [starts_word sub_spaces].
  intros Hc. apply negb_true_iff in Hc. by rewrite Hc.
Qed.

Lemma sub_spaces_thin (b : bool) (s : str) :
  thin (sub_spaces b s) = true
  /\ (b = true -> starts_word (sub_spaces b s) = true).
Proof.
  revert b. induction s as [|c s IH]; intros b; [done|].
  cbn [sub_spaces]. destruct (is_space c) eqn:Hc.
  - destruct b.
    + apply IH.
    + split; [|done]. destruct (IH true) as [Hthin Hword].
      specialize (Hword eq_refl). cbn [thin].
      change (is_space 32) with true. cbv iota.
      rewrite Hthin. destruct (sub_spaces true s); [done|].
      cbn [starts_word] in Hword. by rewrite Hword.
  - split.
    + cbn [thin]. rewrite Hc. apply IH.
    + intros _. cbn [starts_word]. by rewrite Hc.
Qed.

Lemma lstrip_thin (s : str) :
  thin s = true -> thin (lstrip s) = true /\ starts_word (lstrip s) = true.
Proof.
  induction s as [|c s IH]; [done|]. cbn [thin lstrip].
  destruct (is_space c) eqn:Hc.
  - intros [_ Hs]%andb_true_iff. by apply IH.
  - intros Hs. split; [cbn [thin]; by rewrite Hc|]. cbn [starts_word]. by rewrite Hc.
Qed.

Lemma lstrip_app (a b : str) :
  lstrip (a ++ b) = if forallb is_space a then lstrip b else lstrip a ++ b.
Proof.
  induction a as [|c a IH]; [done|]. cbn [app lstrip forallb].
  destruct (is_space c); [exact IH|done].
Qed.

(** [rstrip] read from the left. *)
Lemma rstrip_cons (c : Z) (s : str) :
  rstrip (c :: s)
  = if forallb is_space s then (if is_space c then [] else [c])
    else c :: rstrip s.
Proof.
  unfold rstrip. cbn [rev]. rewrite lstrip_app.
  assert (Hrev : forallb is_space (rev s) = forallb is_space s).
  { induction s as [|d s IH]; [done|]. cbn [rev forallb].
    rewrite forallb_app, IH. cbn [forallb]. rewrite andb_true_r. apply andb_comm. }
  rewrite Hrev. destruct (forallb is_space s).
  - cbn [lstrip]. by destruct (is_space c).
  - by rewrite rev_app_distr.
Qed.

Lemma rstrip_word (s : str) :
  starts_word s = true -> starts_word (rstrip s) = true.
Proof.
  destruct s as [|c s]; [done|]. cbn [starts_word]. intros Hc.
  rewrite rstrip_cons. apply negb_true_iff in Hc. rewrite Hc.
  destruct (forallb is_space s); cbn [starts_word]; by rewrite Hc.
Qed.

Lemma rstrip_tidy_tail (s : str) : thin s = true -> tidy_tail (rstrip s) = true.
Proof.
  induction s as [|c s IH]; [done|]. cbn [thin].
  intros [Hc Hs]%andb_true_iff. rewrite rstrip_cons.
  destruct (forallb is_space s) eqn:Hall.
  - destruct (is_space c) eqn:E; [done|]. cbn [tidy_tail]. by rewrite E.
  - cbn [tidy_tail]. rewrite (IH Hs), andb_true_r.
    destruct (is_space c); [|done].
    apply andb_true_iff in Hc as [Hc Hd]. rewrite Hc. cbn [andb].
    destruct s as [|d s]; [done|].
    rewrite rstrip_cons. apply negb_true_iff in Hd. rewrite Hd.
    destruct (forallb is_space s); by rewrite Hd.
Qed.

Lemma normalize_whitespace_tidy (s : str) : tidy (normalize_whitespace s) = true.
Proof.
  unfold normalize_whitespace, strip.
  destruct (sub_spaces_thin false s) as [Hthin _].
  destruct (lstrip_thin _ Hthin) as [Hthin' Hword].
  unfold tidy. rewrite (rstrip_tidy_tail _ Hthin'), andb_true_r.
  exact (rstrip_word _ Hword).
Qed.

Lemma tidy_tail_last (s : str) (c : Z) :
  tidy_tail (s ++ [c]) = true -> is_space c = false.
Proof.
  induction s as [|d s IH]; cbn [app tidy_tail].
  - destruct (is_space c); [|done]. by rewrite andb_false_r.
  - intros [_ H]%andb_true_iff. by apply IH.
Qed.

Lemma sub_spaces_tidy (s : str) : tidy_tail s = true -> sub_spaces false s = s.
Proof.
  induction s as [|c s IH]; [done|]. cbn [tidy_tail sub_spaces].
  intros [Hc Hs]%andb_true_iff. destruct (is_space c) eqn:E.
  - apply andb_true_iff in Hc as [Hc Hd]. apply Z.eqb_eq in Hc. subst c.
    f_equal. rewrite sub_spaces_word; [by apply IH|].
    by destruct s.
  - f_equal. by apply IH.
Qed.

Lemma tidy_fixed (s : str) : tidy s = true -> normalize_whitespace s = s.
Proof.
  unfold tidy. intros [Hword Htail]%andb_true_iff.
  unfold normalize_whitespace, strip. rewrite (sub_spaces_tidy _ Htail).
  assert (Hl : lstrip s = s).
  { destruct s as [|c s]; [done|]. cbn [lstrip].
    apply negb_true_iff in Hword. by rewrite Hword. }
  rewrite Hl. unfold rstrip.
  destruct (rev s) as [|c r] eqn:Hrev.
  - apply (f_equal (@rev Z)) in Hrev. rewrite rev_involutive in Hrev. by subst s.
  - apply (f_equal (@rev Z)) in Hrev. rewrite rev_involutive in Hrev.
    cbn [rev] in Hrev. subst s. apply tidy_tail_last in Htail.
    cbn [lstrip]. by rewrite Htail.
Qed.

Lemma normalize_whitespace_fixed (s : str) :
  normalize_whitespace s = s <-> tidy s = true.
Proof.
  split; [|apply tidy_fixed]. intros <-. apply normalize_whitespace_tidy.
Qed.

Lemma normalize_whitespace_idempotent (s : str) :
  normalize_whitespace (normalize_whitespace s) = normalize_whitespace s.
Proof. apply tidy_fixed, normalize_whitespace_tidy. Qed.

(** Only whitespace changes: the other characters are kept, in order. *)
Lemma normalize_keeps_words (s : str) :
  List.filter (fun c => negb (is_space c)) (normalize_whitespace s)
  = List.filter (fun c => negb (is_space c)) s.
Proof.
  set (word := fun c : Z => negb (is_space c)).
  assert (Hsub : forall b t, List.filter word (sub_spaces b t) = List.filter word t).
  { intros b t. revert b. induction t as [|c t IH]; intros b; [done|].
    cbn [sub_spaces]. subst word. cbn [List.filter]. destruct (is_space c) eqn:Hc.
    - cbn [negb]. destruct b; [apply IH|]. cbn [List.filter].
      change (is_space 32) with true. cbn [negb]. apply IH.
    - cbn [List.filter negb]. rewrite Hc. cbn [negb]. f_equal. apply IH. }
  assert (Hl : forall t, List.filter word (lstrip t) = List.filter word t).
  { induction t as [|c t IH]; [done|]. cbn [lstrip]. subst word.
    cbn [List.filter]. destruct (is_space c) eqn:Hc; [exact IH|].
    cbn [List.filter]. by rewrite Hc. }
  assert (Hrev : forall t, List.filter word (rev t) = rev (List.filter word t)).
  { induction t as [|c t IH]; [done|]. cbn [rev List.filter].
    rewrite List.filter_app, IH. cbn [List.filter]. by destruct (word c); rewrite ?app_nil_r. }
  unfold normalize_whitespace, strip, rstrip.
  fold word.
  by rewrite Hrev, Hl, Hrev, rev_involutive, Hl, Hsub.
Qed.

Lemma wordy_tidy (s : str) :
  forallb (fun c => negb (is_space c)) s = true -> tidy s = true.
Proof.
  intros H. unfold tidy. apply andb_true_iff. split.
  - destruct s as [|c s]; [done|]. cbn [forallb] in H.
    by apply andb_true_iff in H as [? _].
  - induction s as [|c s IH]; [done|]. cbn [forallb] in H.
    apply andb_true_iff in H as [Hc Hs]. cbn [tidy_tail].
    apply negb_true_iff in Hc. rewrite Hc. by apply IH.
Qed.

Lemma tidy_tail_app (a b : str) :
  tidy_tail a = true -> tidy b = true -> tidy_tail (a ++ b) = true.
Proof.
  intros Ha [Hword Hb]%andb_true_iff.
  induction a as [|c a IH]; [done|]. cbn [app tidy_tail] in *.
  apply andb_true_iff in Ha as [Hc Ha]. rewrite (IH Ha), andb_true_r.
  destruct (is_space c); [|done].
  apply andb_true_iff in Hc as [Hc Hd]. rewrite Hc. by destruct a.
Qed.

Lemma tidy_app (a b : str) : tidy a = true -> tidy b = true -> tidy (a ++ b) = true.
Proof.
  intros Ha Hb. destruct a as [|c a]; [done|].
  unfold tidy in *. apply andb_true_iff in Ha as [Hc Ha].
  cbn [app]. rewrite Hc. by apply (tidy_tail_app (c :: a) b).
Qed.

(** What precedes a space of a tidy text is tidy. *)
Lemma tidy_before_space (t rest : str) :
  tidy (t ++ 32 :: rest) = true -> tidy t = true.
Proof.
  unfold tidy. intros [Hword Htail]%andb_true_iff. apply andb_true_iff. split.
  - by destruct t.
  - clear Hword. induction t as [|c t IH]; [done|]. cbn [app tidy_tail] in *.
    apply andb_true_iff in Htail as [Hc Htail]. rewrite (IH Htail), andb_true_r.
    destruct (is_space c); [|done].
    apply andb_true_iff in Hc as [Hc Hd]. rewrite Hc.
    destruct t as [|d t]; [|done]. cbn [app] in Hd. done.
Qed.

Lemma tidy_spaced (s : str) :
  tidy s = true -> Forall (fun c => is_space c = false \/ c = 32) s.
Proof.
  intros H. apply tidy_fixed in H. rewrite <- H.
  apply normalize_whitespace_spaced.
Qed.

Lemma short_summary_length (text : str) : (length (short_summary text) <= 220)%nat.
Proof.
  destruct (Nat.le_gt_cases (length (normalize_whitespace text)) 220) as [H|H].
  - by rewrite short_summary_short.
  - rewrite short_summary_long by done. rewrite length_app.
    change (length ELLIPSIS) with 3%nat.
    pose proof (firstn_le_length 217 (normalize_whitespace text)) as Hcut.
    destruct (before_last_space _) as [t|] eqn:E; [|lia].
    apply before_last_space_some in E as (tail & E & _).
    rewrite E, length_app in Hcut. lia.
Qed.

Lemma short_summary_tidy (text : str) : tidy (short_summary text) = true.
Proof.
  pose proof (normalize_whitespace_tidy text) as Htidy.
  destruct (Nat.le_gt_cases (length (normalize_whitespace text)) 220) as [H|H].
  - by rewrite short_summary_short.
  - rewrite short_summary_long by done.
    rewrite <- (firstn_skipn 217 (normalize_whitespace text)) in Htidy.
    destruct (before_last_space _) as [t|] eqn:E.
    + apply before_last_space_some in E as (tail & E & _).
      rewrite E, <- app_assoc in Htidy. cbn [app] in Htidy.
      apply tidy_app; [by apply tidy_before_space in Htidy|done].
    + apply before_last_space_none in E.
      apply tidy_app; [|done]. apply wordy_tidy, forallb_forall.
      intros c Hc.
      pose proof (tidy_spaced _ Htidy) as Hsp.
      rewrite Forall_app in Hsp. destruct Hsp as [Hsp _].
      rewrite List.Forall_forall in Hsp. destruct (Hsp c Hc) as [Hns| ->].
      * by rewrite Hns.
      * exfalso. apply E. by apply list_elem_of_In.
Qed.

Lemma short_summary_fixed (text : str) :
  short_summary (short_summary text) = short_summary text.
Proof.
  rewrite (short_summary_short (short_summary text)).
  - apply tidy_fixed, short_summary_tidy.
  - rewrite (tidy_fixed _ (short_summary_tidy text)). apply short_summary_length.
Qed.

(** *** Repair *)

Lemma fix_mojibake_tidy (text : str) : tidy (fix_mojibake text) = true.
Proof.
  unfold fix_mojibake. pose proof (normalize_whitespace_tidy text) as H.
  destruct (normalize_whitespace text) as [|c cleaned]; [done|].
  destruct (existsb _ _); [|done].
  destruct (_ ≫= _); [apply normalize_whitespace_tidy|done].
Qed.

Lemma fix_mojibake_plain (text : str) :
  has_marker (normalize_whitespace text) = false ->
  fix_mojibake text = normalize_whitespace text.
Proof.
  unfold fix_mojibake, has_marker. intros H.
  destruct (normalize_whitespace text) as [|c cleaned]; [done|]. by rewrite H.
Qed.

Lemma utf8_char_bytes (c : Z) : forallb (in_range 0 255) (utf8_char c) = true.
Proof.
  unfold utf8_char.
  destruct (Z.ltb_spec c 0); [done|].
  destruct (Z.ltb_spec c 128); [cbn [forallb]; range_bool|].
  destruct (Z.ltb_spec c 2048).
  { cbn [forallb].
    assert (0 <= c / 64 < 32) by (split; [apply Z.div_pos|apply Z.div_lt_upper_bound]; lia).
    pose proof (Z.mod_pos_bound c 64 ltac:(lia)).
    rewrite !andb_true_iff. repeat split; unfold in_range; apply andb_true_iff; split; lia. }
  destruct (in_range 55296 57343 c); [done|].
  destruct (Z.ltb_spec c 65536).
  { cbn [forallb].
    assert (0 <= c / 4096 < 16) by (split; [apply Z.div_pos|apply Z.div_lt_upper_bound]; lia).
    pose proof (Z.mod_pos_bound c 64 ltac:(lia)).
    pose proof (Z.mod_pos_bound (c / 64) 64 ltac:(lia)).
    rewrite !andb_true_iff. repeat split; unfold in_range; apply andb_true_iff; split; lia. }
  destruct (Z.ltb_spec c 1114112); [|done].
  cbn [forallb].
  assert (0 <= c / 262144 < 5) by (split; [apply Z.div_pos|apply Z.div_lt_upper_bound]; lia).
  pose proof (Z.mod_pos_bound c 64 ltac:(lia)).
  pose proof (Z.mod_pos_bound (c / 64) 64 ltac:(lia)).
  pose proof (Z.mod_pos_bound (c / 4096) 64 ltac:(lia)).
  rewrite !andb_true_iff. repeat split; unfold in_range; apply andb_true_iff; split; lia.
Qed.

Lemma utf8_encode_bytes (s : str) : forallb (in_range 0 255) (utf8_encode s) = true.
Proof.
  induction s as [|c s IH]; [done|]. unfold utf8_encode in *. cbn [flat_map].
  by rewrite forallb_app, utf8_char_bytes, IH.
Qed.

Lemma fix_mojibake_decodes (s : str) :
  forallb is_scalar s = true ->
  tidy s = true ->
  tidy (utf8_encode s) = true ->
  has_marker (utf8_encode s) = true ->
  fix_mojibake (utf8_encode s) = s.
Proof.
  intros Hscalar Hs Hm Hmark. unfold fix_mojibake.
  rewrite (tidy_fixed _ Hm).
  assert (Hne : utf8_encode s <> []) by (by intros E; rewrite E in Hmark).
  unfold has_marker in Hmark. rewrite Hmark.
  unfold latin1_encode. rewrite utf8_encode_bytes. cbn [mbind option_bind].
  rewrite utf8_round_trip by done. rewrite (tidy_fixed _ Hs).
  by destruct (utf8_encode s).
Qed.

(** *** The hash *)

Lemma round_length (st : list Z) (kw : Z * Z) :
  length (SHA256.round st kw) = length st.
Proof.
  unfold SHA256.round.
  do 8 (destruct st as [|? st]; [done|]). by destruct st.
Qed.

Lemma compress_length (h block : list Z) :
  length (SHA256.compress h block) = length h.
Proof.
  unfold SHA256.compress. rewrite length_map, length_combine.
  assert (Hfold : forall kws st, length (fold_left SHA256.round kws st) = length st).
  { induction kws as [|kw kws IH]; intros st; [done|]. cbn [fold_left].
    by rewrite IH, round_length. }
  rewrite Hfold. lia.
Qed.

Lemma digest_length (msg : list Z) : length (SHA256.digest msg) = 8%nat.
Proof.
  unfold SHA256.digest.
  assert (Hfold : forall bs h, length (fold_left SHA256.compress bs h) = length h).
  { induction bs as [|b bs IH]; intros h; [done|]. cbn [fold_left].
    by rewrite IH, compress_length. }
  by rewrite Hfold.
Qed.

Lemma hex_digit_hex (d : Z) : 0 <= d < 16 -> is_hex (SHA256.hex_digit d) = true.
Proof.
  intros H. unfold SHA256.hex_digit, is_hex.
  destruct (Z.ltb_spec d 10); range_bool.
Qed.

Lemma hex_byte_hex (b : Z) :
  0 <= b < 256 ->
  length (SHA256.hex_byte b) = 2%nat /\ forallb is_hex (SHA256.hex_byte b) = true.
Proof.
  intros H. split; [done|]. unfold SHA256.hex_byte. cbn [forallb].
  rewrite !hex_digit_hex; [done| |].
  - apply Z.mod_pos_bound. lia.
  - split; [apply Z.div_pos; lia|apply Z.div_lt_upper_bound; lia].
Qed.

Lemma word_hex (w : Z) :
  length (flat_map SHA256.hex_byte (SHA256.be_bytes 4 w)) = 8%nat
  /\ forallb is_hex (flat_map SHA256.hex_byte (SHA256.be_bytes 4 w)) = true.
Proof.
  cbn [SHA256.be_bytes flat_map]. rewrite !app_nil_r.
  assert (Hb : forall x, 0 <= x mod 256 < 256)
    by (intros x; apply Z.mod_pos_bound; lia).
  split.
  - rewrite !length_app. by rewrite !(proj1 (hex_byte_hex _ (Hb _))).
  - rewrite !forallb_app. by rewrite !(proj2 (hex_byte_hex _ (Hb _))).
Qed.

Lemma hexdigest_hex (msg : list Z) :
  length (SHA256.hexdigest msg) = 64%nat
  /\ forallb is_hex (SHA256.hexdigest msg) = true.
Proof.
  unfold SHA256.hexdigest. pose proof (digest_length msg) as Hlen.
  assert (Hall : forall ws,
            length (flat_map (fun w => flat_map SHA256.hex_byte (SHA256.be_bytes 4 w)) ws)
            = (8 * length ws)%nat
            /\ forallb is_hex
                 (flat_map (fun w => flat_map SHA256.hex_byte (SHA256.be_bytes 4 w)) ws)
               = true).
  { induction ws as [|w ws [IH1 IH2]]; [done|]. cbn [flat_map].
    destruct (word_hex w) as [H1 H2].
    rewrite length_app, forallb_app, H1, H2, IH1, IH2. cbn [length]. split; [lia|done]. }
  destruct (Hall (SHA256.digest msg)) as [H1 H2]. rewrite H1, Hlen. done.
Qed.

Lemma utf8_encode_skips (a b : str) (c : Z) :
  is_scalar c = false -> utf8_encode (a ++ c :: b) = utf8_encode (a ++ b).
Proof.
  intros Hc. rewrite !utf8_encode_app. f_equal.
  unfold utf8_encode. cbn [flat_map].
  replace (utf8_char c) with (@nil Z); [done|].
  assert (Hrange : c < 0 \/ 55296 <= c <= 57343 \/ 1114112 <= c).
  { revert Hc. unfold is_scalar, in_range.
    destruct (Z.leb_spec 0 c), (Z.leb_spec c 55295), (Z.leb_spec 57344 c),
      (Z.leb_spec c 1114111); cbn [andb orb]; intros; try done; lia. }
  unfold utf8_char, in_range.
  destruct (Z.ltb_spec c 0); [done|].
  destruct (Z.ltb_spec c 128); [lia|].
  destruct (Z.ltb_spec c 2048); [lia|].
  destruct (Z.leb_spec 55296 c), (Z.leb_spec c 57343); cbn [andb]; try done;
    destruct (Z.ltb_spec c 65536); try lia;
    destruct (Z.ltb_spec c 1114112); try lia; done.
Qed.

(** *** Language *)

Lemma first_script_none (patterns : list (Z * Z * str)) (text : str) :
  first_script patterns text = None
  <-> existsb (fun c => existsb (fun p => in_range p.1.1 p.1.2 c) patterns) text = false.
Proof.
  induction patterns as [|[[lo hi] name] patterns IH]; cbn [first_script].
  - split; [|done]. intros _. by induction text.
  - destruct (existsb (in_range lo hi) text) eqn:E.
    + split; [done|]. intros H. exfalso.
      apply existsb_exists in E as (c & Hc & Hr).
      assert (existsb (fun c => existsb (fun p => in_range p.1.1 p.1.2 c)
                                  ((lo, hi, name) :: patterns)) text = true) as Ht.
      { apply existsb_exists. exists c. split; [done|]. cbn [existsb fst snd].
        by rewrite Hr. }
      by rewrite H in Ht.
    + rewrite IH. split; intros H.
      * apply not_true_iff_false. intros (c & Hc & Hp)%existsb_exists.
        cbn [existsb fst snd] in Hp. apply orb_true_iff in Hp as [Hp|Hp].
        -- assert (existsb (in_range lo hi) text = true) as Ht
             by (apply existsb_exists; eauto).
           by rewrite E in Ht.
        -- assert (existsb (fun c => existsb (fun p => in_range p.1.1 p.1.2 c) patterns)
                     text = true) as Ht by (apply existsb_exists; eauto).
           by rewrite H in Ht.
      * apply not_true_iff_false. intros (c & Hc & Hp)%existsb_exists.
        assert (existsb (fun c => existsb (fun p => in_range p.1.1 p.1.2 c)
                                    ((lo, hi, name) :: patterns)) text = true) as Ht.
        { apply existsb_exists. exists c. split; [done|]. cbn [existsb]. by rewrite Hp, orb_true_r. }
        by rewrite H in Ht.
Qed.

Lemma first_script_name (patterns : list (Z * Z * str)) (text name : str) :
  first_script patterns text = Some name -> In name (map snd patterns).
Proof.
  induction patterns as [|[[lo hi] n] patterns IH]; cbn [first_script]; [done|].
  destruct (existsb (in_range lo hi) text).
  - intros [= <-]. by left.
  - intros H. right. by apply IH.
Qed.

Lemma script_names_known :
  incl (map snd SCRIPT_PATTERNS) LANGUAGE_NAMES.
Proof.
  intros name Hn. vm_compute in Hn. vm_compute.
  repeat (destruct Hn as [<-|Hn]; [tauto|]). done.
Qed.

Lemma assoc_in (k v : str) (m : list (str * str)) :
  assoc k m = Some v -> In v (map snd m).
Proof.
  induction m as [|[k' v'] m IH]; cbn [assoc]; [done|].
  destruct (str_eqb k k'); [intros [= <-]; by left|]. intros H. right. by apply IH.
Qed.

Lemma in_words_In (t : str) (ws : list str) : in_words t ws = true <-> In t ws.
Proof.
  unfold in_words, str_eqb. rewrite existsb_exists. split.
  - intros (x & Hx & Heq). apply bool_decide_eq_true in Heq. by subst x.
  - intros H. exists t. split; [done|]. by apply bool_decide_eq_true.
Qed.

Lemma language_names_fixed :
  Forall (fun name => normalize_language_name name = name /\ name <> []
                      /\ tidy name = true)
         (s2l "Unknown" :: LANGUAGE_NAMES).
Proof. repeat (constructor; [by vm_compute|]). constructor. Qed.

Lemma language_name_fixed (name : str) :
  In name (s2l "Unknown" :: LANGUAGE_NAMES) ->
  normalize_language_name name = name /\ name <> [] /\ tidy name = true.
Proof.
  pose proof language_names_fixed as H. rewrite List.Forall_forall in H. apply H.
Qed.

(** The three ways [normalize_language_name] has of answering. *)
Lemma normalize_language_name_cases (raw : str) :
  In (normalize_language_name raw) (s2l "Unknown" :: LANGUAGE_NAMES)
  \/ (normalize_language_name raw = normalize_whitespace raw
      /\ normalize_whitespace raw <> []
      /\ assoc (lower (normalize_whitespace raw)) LANGUAGE_CODE_MAP = None
      /\ in_words (title (normalize_whitespace raw)) LANGUAGE_NAMES = false).
Proof.
  unfold normalize_language_name.
  destruct (normalize_whitespace raw) as [|c value] eqn:E; [left; by left|].
  destruct (assoc _ _) as [name|] eqn:Hcode.
  - left. right. by apply assoc_in in Hcode.
  - fold LANGUAGE_NAMES.
    destruct (in_words _ _) eqn:Hname.
    + left. right. by apply in_words_In.
    + right. done.
Qed.

Lemma normalize_language_name_fixed (raw : str) :
  normalize_language_name (normalize_language_name raw) = normalize_language_name raw.
Proof.
  destruct (normalize_language_name_cases raw) as [H|(Heq & Hne & Hcode & Hname)].
  - by apply language_name_fixed.
  - rewrite Heq. unfold normalize_language_name at 1.
    rewrite normalize_whitespace_idempotent.
    destruct (normalize_whitespace raw) as [|c value]; [done|].
    rewrite Hcode. fold LANGUAGE_NAMES. by rewrite Hname.
Qed.

Lemma normalize_language_name_tidy (raw : str) :
  normalize_language_name raw <> [] /\ tidy (normalize_language_name raw) = true.
Proof.
  destruct (normalize_language_name_cases raw) as [H|(Heq & Hne & _)].
  - by apply language_name_fixed in H as (_ & ? & ?).
  - rewrite Heq. split; [done|apply normalize_whitespace_tidy].
Qed.

Lemma language_codes :
  Forall (fun p => assoc p.1 LANGUAGE_CODE_MAP = Some p.2 /\ p.1 <> [])
         LANGUAGE_CODE_MAP.
Proof. repeat (constructor; [by vm_compute|]). constructor. Qed.

Lemma normalize_language_name_code (raw code name : str) :
  In (code, name) LANGUAGE_CODE_MAP ->
  lower (normalize_whitespace raw) = code ->
  normalize_language_name raw = name.
Proof.
  intros Hin Hcode. pose proof language_codes as H.
  rewrite List.Forall_forall in H. destruct (H _ Hin) as [Hassoc Hne].
  cbn [fst snd] in *. unfold normalize_language_name.
  destruct (normalize_whitespace raw) as [|c value]; [by subst code|].
  by rewrite Hcode, Hassoc.
Qed.

Lemma detect_language_from_script_known (text : str) :
  In (detect_language_from_script text) (s2l "Unknown" :: LANGUAGE_NAMES).
Proof.
  unfold detect_language_from_script.
  destruct (first_script _ _) as [name|] eqn:E.
  - right. by apply script_names_known, (first_script_name _ text).
  - destruct (existsb is_latin text); [right|left]; vm_compute; tauto.
Qed.

Lemma detect_language_from_script_unknown (text : str) :
  detect_language_from_script text = s2l "Unknown"
  <-> existsb in_script text = false /\ existsb is_latin text = false.
Proof.
  unfold detect_language_from_script, in_script.
  destruct (first_script _ _) as [name|] eqn:E.
  - split.
    + intros ->. apply first_script_name in E. vm_compute in E.
      repeat (destruct E as [E|E]; [discriminate E|]). done.
    + intros [H _]. apply first_script_none in H. by rewrite H in E.
  - apply first_script_none in E. rewrite E.
    destruct (existsb is_latin text); split; try done. by intros [_ ?].
Qed.

Lemma detect_language_from_script_english (text : str) :
  detect_language_from_script text = s2l "English"
  <-> existsb in_script text = false /\ existsb is_latin text = true.
Proof.
  unfold detect_language_from_script, in_script.
  destruct (first_script _ _) as [name|] eqn:E.
  - split.
    + intros ->. apply first_script_name in E. vm_compute in E.
      repeat (destruct E as [E|E]; [discriminate E|]). done.
    + intros [H _]. apply first_script_none in H. by rewrite H in E.
  - apply first_script_none in E. rewrite E.
    destruct (existsb is_latin text); split; try done. by intros [_ ?].
Qed.

(** The table is tried in its own order: the first entry with a character
    in the text answers, wherever that character stands. *)
Lemma first_script_order (before after : list (Z * Z * str))
    (lo hi : Z) (name text : str) :
  Forall (fun p => existsb (in_range p.1.1 p.1.2) text = false) before ->
  existsb (in_range lo hi) text = true ->
  first_script (before ++ (lo, hi, name) :: after) text = Some name.
Proof.
  intros Hbefore Hhere.
  induction Hbefore as [|[[l h] n] before Hp _ IH]; cbn [app first_script].
  - by rewrite Hhere.
  - cbn [fst snd] in Hp. by rewrite Hp.
Qed.

(** *** Scores *)

Lemma confidence_steps (delta : Q) (k : Z) :
  (delta == inject_Z k / 2)%Q ->
  (0.35 < delta)%Q \/ (delta < -0.35)%Q ->
  exists j : Z,
    1 <= j <= 10
    /\ (Qmin 0.99 (0.55 + Qmin (Qabs delta) 5 * 0.08)
        == 0.55 + inject_Z j * 0.04)%Q.
Proof.
  intros Hk Hfar. exists (Z.min (Z.abs k) 10).
  assert (Hk1 : 1 <= Z.abs k).
  { rewrite Hk in Hfar. clear Hk.
    unfold Qlt, Qdiv, Qmult, Qinv, inject_Z in Hfar. simpl in Hfar. lia. }
  split; [lia|].
  rewrite (Qabs_halves _ _ Hk), Qmin_halves by lia.
  set (j := Z.min (Z.abs k) 10).
  assert (Hj : 0 <= j <= 10) by lia.
  rewrite Q.min_r.
  - field.
  - clearbody j. unfold Qle, Qdiv, Qmult, Qinv, Qplus, inject_Z. simpl. lia.
Qed.

Lemma step_bounds (j : Z) :
  1 <= j <= 10 ->
  (0.59 <= 0.55 + inject_Z j * 0.04)%Q /\ (0.55 + inject_Z j * 0.04 <= 0.95)%Q.
Proof.
  intros Hj. unfold Qle, Qmult, Qplus, inject_Z. simpl. lia.
Qed.

Lemma heuristic_score_steps (text : str) :
  match v_sentiment (heuristic_sentiment text) with
  | Positive | Negative =>
      exists j : Z,
        1 <= j <= 10
        /\ (v_score (heuristic_sentiment text) == 0.55 + inject_Z j * 0.04)%Q
  | Neutral => (v_score (heuristic_sentiment text) == 0.50)%Q
  | Unknown => (v_score (heuristic_sentiment text) == 0.00)%Q
  end.
Proof.
  destruct (heuristic_sentiment_cases text) as [Hshort Hlong].
  cbv zeta in Hshort, Hlong.
  set (lowered := lower (normalize_whitespace text)) in *.
  destruct (sentiment_delta_halves lowered) as [k Hk].
  destruct (Nat.le_gt_cases (length lowered) 3) as [H3|H3].
  { destruct (Hshort H3) as [-> Hs]. exact Hs. }
  destruct (Hlong H3) as (Hpos & Hneg & Hneu & Hunk).
  destruct (Qlt_le_dec 0.35 (sentiment_delta lowered)) as [Hp|Hp].
  { destruct (Hpos Hp) as [-> Hs].
    destruct (confidence_steps _ k Hk (or_introl Hp)) as (j & Hj & Hc).
    exists j. split; [done|]. by rewrite Hs. }
  destruct (Qlt_le_dec (sentiment_delta lowered) (-0.35)) as [Hn|Hn].
  { destruct (Hneg Hn) as [-> Hs].
    destruct (confidence_steps _ k Hk (or_intror Hn)) as (j & Hj & Hc).
    exists j. split; [done|]. by rewrite Hs. }
  destruct (existsb is_alphabetic lowered) eqn:Halpha.
  - by destruct (Hneu Hn Hp eq_refl) as [-> Hs].
  - by destruct (Hunk Hn Hp eq_refl) as [-> Hs].
Qed.

Lemma heuristic_score_unit (text : str) :
  (0 <= v_score (heuristic_sentiment text))%Q
  /\ (v_score (heuristic_sentiment text) <= 0.95)%Q.
Proof.
  pose proof (heuristic_score_steps text) as H.
  destruct (v_sentiment (heuristic_sentiment text)).
  - destruct H as (j & Hj & ->). destruct (step_bounds j Hj) as [H1 H2].
    split; [|done]. eapply Qle_trans; [|exact H1]. done.
  - destruct H as (j & Hj & ->). destruct (step_bounds j Hj) as [H1 H2].
    split; [|done]. eapply Qle_trans; [|exact H1]. done.
  - rewrite H. done.
  - rewrite H. done.
Qed.

Lemma clamp01_unit (x : Q) : (0 <= clamp01 x)%Q /\ (clamp01 x <= 1)%Q.
Proof.
  unfold clamp01. split.
  - apply Q.le_max_l.
  - apply Q.max_lub; [done|apply Q.le_min_l].
Qed.

(** *** Analysis *)

Lemma normalize_blank (s : str) :
  forallb is_space s = true -> normalize_whitespace s = [].
Proof.
  intros Hs. pose proof (normalize_keeps_words s) as Hw.
  pose proof (normalize_whitespace_tidy s) as Ht.
  assert (Hnone : List.filter (fun c => negb (is_space c)) s = []).
  { clear Hw Ht. induction s as [|c s IH]; [done|]. cbn [forallb] in Hs.
    apply andb_true_iff in Hs as [Hc Hs]. cbn [List.filter]. rewrite Hc.
    by apply IH. }
  rewrite Hnone in Hw.
  destruct (normalize_whitespace s) as [|c t]; [done|].
  unfold tidy in Ht. apply andb_true_iff in Ht as [Hc _].
  cbn [List.filter] in Hw. by rewrite Hc in Hw.
Qed.

Lemma analyze_with_gemini_none (answer : option reply) (text_input : str) :
  analyze_with_gemini answer text_input = None
  <-> answer = None
      \/ exists r, answer = Some r /\ normalize_sentiment (reply_sentiment r) = Unknown.
Proof.
  unfold analyze_with_gemini. destruct answer as [r|]; cbn [mbind option_bind].
  - destruct (normalize_sentiment (reply_sentiment r)) eqn:E; split; try done.
    + by intros [?|(r' & [= <-] & Hr)]; [|rewrite E in Hr].
    + by intros [?|(r' & [= <-] & Hr)]; [|rewrite E in Hr].
    + by intros [?|(r' & [= <-] & Hr)]; [|rewrite E in Hr].
    + intros _. right. by exists r.
  - split; [by left|done].
Qed.

Lemma analyze_with_gemini_some (answer : option reply) (text_input : str)
    (a : analysis) :
  analyze_with_gemini answer text_input = Some a ->
  exists r,
    answer = Some r
    /\ a_sentiment a = normalize_sentiment (reply_sentiment r)
    /\ a_sentiment a <> Unknown
    /\ a_score a = clamp01 (default (DEFAULT_SENTIMENT_SCORE (a_sentiment a))
                                   (reply_score r))
    /\ a_lang a = normalize_language_name (reply_language r)
    /\ a_summary a = short_summary (default text_input (reply_summary r)).
Proof.
  unfold analyze_with_gemini. destruct answer as [r|]; cbn [mbind option_bind]; [|done].
  destruct (normalize_sentiment (reply_sentiment r)) eqn:E; [| | |done];
    intros [= <-]; exists r; cbn; by rewrite ?E.
Qed.

Lemma analyze_comment_blank (m : memo) (text : str) :
  forallb is_space text = true -> analyze_comment m text = (empty_analysis, m).
Proof.
  intros H. unfold analyze_comment, fix_mojibake. by rewrite normalize_blank.
Qed.

Lemma analyze_comment_hit (m : memo) (text : str) (a : analysis) :
  fix_mojibake text <> [] ->
  cache m !! text_hash (fix_mojibake text) = Some a ->
  analyze_comment m text = (a, m).
Proof.
  intros Hne Hhit. unfold analyze_comment.
  destruct (fix_mojibake text) as [|c cleaned]; [done|]. by rewrite Hhit.
Qed.

Lemma analyze_comment_stored (m : memo) (text : str) :
  fix_mojibake text <> [] ->
  cache (analyze_comment m text).2 !! text_hash (fix_mojibake text)
  = Some (analyze_comment m text).1.
Proof.
  intros Hne. unfold analyze_comment.
  destruct (fix_mojibake text) as [|c cleaned] eqn:E; [done|].
  destruct (cache m !! _) as [cached|] eqn:Hhit; [done|].
  cbn [fst snd cache]. by rewrite lookup_insert_eq.
Qed.

Lemma analyze_comment_grows (m : memo) (text : str) :
  cache m ⊆ cache (analyze_comment m text).2
  /\ (model_calls m <= model_calls (analyze_comment m text).2 <= S (model_calls m))%nat
  /\ (model_calls (analyze_comment m text).2 = S (model_calls m)
      <-> fix_mojibake text <> []
          /\ cache m !! text_hash (fix_mojibake text) = None).
Proof.
  unfold analyze_comment.
  destruct (fix_mojibake text) as [|c cleaned] eqn:E.
  { cbn [snd]. split; [done|]. split; [lia|]. split; [lia|]. by intros [? _]. }
  destruct (cache m !! _) as [cached|] eqn:Hhit.
  { cbn [snd]. split; [done|]. split; [lia|]. split; [lia|]. by intros [_ ?]. }
  cbn [snd cache model_calls]. split; [by apply insert_subseteq|].
  split; [lia|]. done.
Qed.

Lemma analyze_comment_unit (m : memo) (text : str) :
  memo_ok m ->
  unit_score (a_score (analyze_comment m text).1)
  /\ memo_ok (analyze_comment m text).2.
Proof.
  intros Hm. unfold analyze_comment.
  destruct (fix_mojibake text) as [|c cleaned] eqn:E.
  { split; [|done]. cbn. split; done. }
  destruct (cache m !! _) as [cached|] eqn:Hhit.
  { split; [|done]. exact (Hm _ _ Hhit). }
  cbn [fst snd].
  set (result := match analyze_with_gemini _ _ with Some g => g | None => _ end).
  assert (Hres : unit_score (a_score result)).
  { subst result. destruct (analyze_with_gemini _ _) as [g|] eqn:Hg.
    - apply analyze_with_gemini_some in Hg as (r & _ & _ & _ & -> & _).
      apply clamp01_unit.
    - cbn [a_score]. destruct (heuristic_score_unit (c :: cleaned)) as [H0 H1].
      split; [done|]. eapply Qle_trans; [exact H1|]. done. }
  split; [done|]. unfold memo_ok. cbn [cache].
  by apply map_Forall_insert_2.
Qed.

(** *** Rows *)

Lemma or_unknown_tidy (s : str) :
  tidy s = true -> tidy (or_unknown s) = true /\ or_unknown s <> [].
Proof. by destruct s as [|c s]. Qed.

Lemma kept_text_length (text : str) :
  tidy text = true -> is_junk_or_boilerplate text = false ->
  (3 <= length text)%nat.
Proof.
  intros Ht. unfold is_junk_or_boilerplate. rewrite (tidy_fixed _ Ht).
  destruct text as [|c text]; [done|].
  destruct (Nat.ltb_spec (length (c :: text)) 3); [done|]. lia.
Qed.

Lemma normalize_row_kept (st : list comment * memo) (row : raw_row) :
  is_junk_or_boilerplate (cleaned_text row) = false ->
  exists new,
    normalize_row st row = (st.1 ++ [new], (analyze_comment st.2 (cleaned_text row)).2)
    /\ text new = cleaned_text row
    /\ sentiment_score new = a_score (analyze_comment st.2 (cleaned_text row)).1
    /\ (tidy (author new) = true /\ author new <> []
        /\ (author new = s2l "Unknown" \/ is_placeholder_author (author new) = false))
    /\ tidy (timestamp new) = true
    /\ (tidy (lang new) = true /\ lang new <> [])
    /\ (tidy (summary new) = true /\ (length (summary new) <= 220)%nat).
Proof.
  intros Hkeep. unfold normalize_row. fold (cleaned_text row). rewrite Hkeep.
  destruct (analyze_comment st.2 (cleaned_text row)) as [a m] eqn:Ha.
  eexists. split; [reflexivity|].
  cbn [text sentiment_score author timestamp lang summary fst snd].
  split; [done|]. split; [done|]. split; [|split; [|split]].
  - set (name := or_unknown (fix_mojibake (default (s2l "Unknown") (raw_author row)))).
    destruct (or_unknown_tidy _ (fix_mojibake_tidy
                                   (default (s2l "Unknown") (raw_author row))))
      as [Htidy Hne]. fold name in Htidy, Hne.
    destruct (is_placeholder_author name) eqn:Hp.
    + split; [done|]. split; [done|by left].
    + split; [done|]. split; [done|by right].
  - apply fix_mojibake_tidy.
  - destruct (normalize_language_name_tidy (a_lang a)) as [Hne Htidy].
    destruct (normalize_language_name (a_lang a)); [done|]. done.
  - split; [apply short_summary_tidy|apply short_summary_length].
Qed.

Lemma normalize_row_dropped (st : list comment * memo) (row : raw_row) :
  is_junk_or_boilerplate (cleaned_text row) = true -> normalize_row st row = st.
Proof.
  intros Hdrop. unfold normalize_row. fold (cleaned_text row). by rewrite Hdrop.
Qed.

Lemma normalize_loop_wellformed (rows : list raw_row) (st : list comment * memo) :
  Forall wellformed st.1 -> memo_ok st.2 ->
  Forall wellformed (fold_left normalize_row rows st).1
  /\ memo_ok (fold_left normalize_row rows st).2.
Proof.
  revert st. induction rows as [|row rows IH]; intros st Hst Hm; [done|].
  cbn [fold_left].
  destruct (is_junk_or_boilerplate (cleaned_text row)) eqn:Hjunk.
  - rewrite normalize_row_dropped by done. by apply IH.
  - destruct (normalize_row_kept st row Hjunk)
      as (new & -> & Htext & Hscore & Hauthor & Hts & Hlang & Hsum).
    destruct (analyze_comment_unit st.2 (cleaned_text row) Hm) as [Hunit Hm'].
    apply IH; cbn [fst snd]; [|done].
    apply Forall_app. split; [done|]. apply Forall_singleton.
    split; [done|]. split; [done|]. split; [|split; [done|split; [|done]]].
    + rewrite Htext. pose proof (fix_mojibake_tidy (default [] (raw_text row))) as Ht.
      fold (cleaned_text row) in Ht. split; [done|]. split; [done|].
      by apply kept_text_length.
    + by rewrite Hscore.
Qed.

Lemma normalize_loop_texts (rows : list raw_row) (st : list comment * memo) :
  map text (fold_left normalize_row rows st).1
  = map text st.1
    ++ List.filter (fun t => negb (is_junk_or_boilerplate t)) (map cleaned_text rows).
Proof.
  revert st. induction rows as [|row rows IH]; intros st.
  - cbn. by rewrite app_nil_r.
  - cbn [fold_left map List.filter].
    destruct (is_junk_or_boilerplate (cleaned_text row)) eqn:Hjunk; cbn [negb].
    + rewrite normalize_row_dropped by done. apply IH.
    + destruct (normalize_row_kept st row Hjunk) as (new & Heq & Htext & _).
      rewrite IH, Heq. cbn [fst]. rewrite map_app, <- app_assoc. cbn [map app].
      by rewrite Htext.
Qed.

Lemma boot_memo_ok : memo_ok {| cache := ∅; model_calls := 0 |}.
Proof. apply map_Forall_empty. Qed.

(** *** Pagination *)

(** What the loop over the tokens of a page does: it stops at the first
    token whose answer is an exception or has rows. *)
Lemma first_rows_spec (w : site) (tokens : list token) :
  let out := first_rows w tokens [] in
  (out.1 = Ok [] /\ out.2 = tokens
   /\ Forall (fun t => site_page w t = Ok []) tokens)
  \/ (exists before t after,
        tokens = before ++ t :: after /\ out.2 = before ++ [t]
        /\ Forall (fun t => site_page w t = Ok []) before
        /\ site_page w t = out.1 /\ out.1 <> Ok []).
Proof.
  induction tokens as [|t tokens IH]; cbn zeta; [by left|].
  cbn [first_rows]. destruct (site_page w t) as [[|row rows]|e] eqn:Ht.
  - rewrite first_rows_log. cbn [fst snd app]. cbn zeta in IH.
    destruct IH as [(H1 & H2 & H3)|(before & t' & after & H1 & H2 & H3 & H4 & H5)].
    + left. split; [done|]. split; [by rewrite H2|]. by constructor.
    + right. exists (t :: before), t', after. rewrite H2.
      split; [by rewrite H1|]. split; [done|]. split; [by constructor|done].
  - right. exists [], t, tokens. cbn [fst snd app]. by rewrite Ht.
  - right. exists [], t, tokens. cbn [fst snd app]. by rewrite Ht.
Qed.

Lemma first_rows_sublist (w : site) (tokens : list token) :
  sublist (first_rows w tokens []).2 tokens.
Proof.
  destruct (first_rows_spec w tokens)
    as [(_ & -> & _)|(before & t & after & -> & -> & _)]; [done|].
  apply sublist_app; [done|]. apply sublist_skip, sublist_nil_l.
Qed.

Lemma page_body_flow (w : site) (st : scrape_state) (i : nat) :
  flow_log (page_body w st i)
  = fetched st ++ (first_rows w (page_tokens i) []).2.
Proof.
  destruct (page_result w i) as [[|row rows]|e] eqn:E.
  - rewrite (page_body_empty _ _ _ E). by destruct (_ && _).
  - rewrite (page_body_rows _ _ _ _ E) by done. by destruct (_ && _).
  - by rewrite (page_body_raise _ _ _ _ E).
Qed.

Lemma page_loop_requests (w : site) (indexes : list nat) (st : scrape_state) :
  exists made,
    flow_log (page_loop w indexes st) = fetched st ++ made
    /\ sublist made (flat_map page_tokens indexes).
Proof.
  revert st. induction indexes as [|i indexes IH]; intros st.
  - exists []. cbn. by rewrite app_nil_r.
  - cbn [page_loop flat_map]. pose proof (page_body_flow w st i) as Hflow.
    pose proof (first_rows_sublist w (page_tokens i)) as Hsub.
    destruct (page_body w st i) as [st'|st'|e log] eqn:Hbody; cbn [flow_log] in Hflow.
    + destruct (IH st') as (made & -> & Hmade). rewrite Hflow, <- app_assoc.
      eexists. split; [done|]. by apply sublist_app.
    + cbn [flow_log]. rewrite Hflow. eexists. split; [done|].
      by apply sublist_inserts_r.
    + cbn [flow_log]. rewrite Hflow. eexists. split; [done|].
      by apply sublist_inserts_r.
Qed.

Lemma all_requests_length (max_pages : nat) :
  length (all_requests max_pages) = (2 * max_pages - 1)%nat.
Proof.
  unfold all_requests.
  assert (Hlater : forall n k,
            length (flat_map page_tokens (seq (S k) n)) = (2 * n)%nat).
  { induction n as [|n IH]; intros k; [done|]. cbn [seq flat_map].
    rewrite length_app, IH. cbn [page_tokens length]. lia. }
  destruct max_pages as [|n]; [done|]. cbn [seq flat_map].
  rewrite length_app, Hlater. cbn [page_tokens length]. lia.
Qed.

Lemma scrape_requests (max_pages : nat) (w : site) :
  sublist (scrape_comments_paginated max_pages w).2 (all_requests max_pages).
Proof.
  rewrite scrape_log. destruct (site_root w); [|apply sublist_nil_l].
  destruct (page_loop_requests w (seq 0 max_pages) initial_scrape)
    as (made & -> & Hmade). done.
Qed.

(** The plain token of a page is tried only when its composite token brought
    no row. *)
Lemma plain_after_composite (w : site) (i : nat) :
  Plain (S i) ∈ (first_rows w (page_tokens (S i)) []).2 ->
  site_page w (Composite (S i)) = Ok [].
Proof.
  cbn [page_tokens first_rows].
  destruct (site_page w (Composite (S i))) as [[|row rows]|e]; [done| |];
    cbn [snd app]; set_solver.
Qed.

Lemma page_loop_plain (w : site) (indexes : list nat) (st : scrape_state) (i : nat) :
  Plain (S i) ∈ flow_log (page_loop w indexes st) ->
  Plain (S i) ∈ fetched st \/ site_page w (Composite (S i)) = Ok [].
Proof.
  revert st. induction indexes as [|j indexes IH]; intros st; [by left|].
  cbn [page_loop]. pose proof (page_body_flow w st j) as Hflow.
  assert (Hstep : Plain (S i) ∈ fetched st ++ (first_rows w (page_tokens j) []).2 ->
                  Plain (S i) ∈ fetched st \/ site_page w (Composite (S i)) = Ok []).
  { intros [H|H]%elem_of_app; [by left|]. right.
    pose proof (page_requests _ _ _ H) as Hj. cbn [page_of] in Hj. subst j.
    by apply plain_after_composite. }
  destruct (page_body w st j) as [st'|st'|e log]; cbn [flow_log] in *.
  - intros H. destruct (IH st' H) as [H'|H']; [|by right].
    apply Hstep. by rewrite <- Hflow.
  - rewrite Hflow. apply Hstep.
  - rewrite Hflow. apply Hstep.
Qed.

Lemma keep_first_raw_fresh (seen : gset str) (rows : list raw_row) :
  NoDup (map raw_key (keep_first_raw seen rows))
  /\ Forall (fun row => (raw_key row ∉ seen) /\ (row ∈ rows))
            (keep_first_raw seen rows).
Proof.
  revert seen. induction rows as [|row rows IH]; intros seen.
  - split; constructor.
  - cbn [keep_first_raw]. destruct (decide (raw_key row ∈ seen)) as [Hin|Hin].
    + destruct (IH seen) as [Hnd Hall]. split; [done|].
      eapply Forall_impl; [|exact Hall]. intros r [? ?]. split; [done|by right].
    + destruct (IH ({[raw_key row]} ∪ seen)) as [Hnd Hall]. split.
      * cbn [map]. constructor; [|done]. intros Hk.
        apply list_elem_of_In, in_map_iff in Hk as (r & Hr & Hin').
        rewrite List.Forall_forall in Hall. destruct (Hall r Hin') as [Hfresh _].
        apply Hfresh. rewrite Hr. set_solver.
      * constructor; [split; [done|by left]|].
        eapply Forall_impl; [|exact Hall]. intros r [Hr ?].
        split; [set_solver|by right].
Qed.

Lemma extracted_from_more (w : site) (log log' : list token) (rows : list raw_row) :
  extracted_from w log rows -> extracted_from w (log ++ log') rows.
Proof.
  intros H. eapply Forall_impl; [|exact H].
  intros row (t & page_rows & Ht & Hp & Hr). exists t, page_rows.
  split; [|done]. apply elem_of_app. by left.
Qed.

(** One page keeps what is known of the walk. *)
Lemma page_body_keeps (w : site) (st : scrape_state) (i : nat) :
  scrape_inv st -> extracted_from w (fetched st) (collected st) ->
  answered w (fetched st) ->
  match page_body w st i with
  | Continue st' | Break st' =>
      scrape_inv st' /\ extracted_from w (fetched st') (collected st')
      /\ answered w (fetched st')
  | Raised e log =>
      exists before t, log = before ++ [t] /\ answered w before
                       /\ site_page w t = Raise e
  end.
Proof.
  intros [Hseen Hnd] Hext Hans.
  destruct (first_rows_spec w (page_tokens i)) as [Hnone|Hsome]; cbn zeta in *.
  - destruct Hnone as (Hres & Hlog & Hall).
    fold (page_result w i) in Hres. rewrite (page_body_empty _ _ _ Hres).
    assert (Hans' : answered w (fetched st ++ (first_rows w (page_tokens i) []).2)).
    { apply Forall_app. split; [done|]. rewrite Hlog.
      eapply Forall_impl; [|exact Hall]. intros t Ht. by exists []. }
    assert (Hinv : scrape_inv (with_page st [] (seen_keys st) (S (empty_streak st))
                      (fetched st ++ (first_rows w (page_tokens i) []).2))).
    { unfold scrape_inv. cbn [with_page collected seen_keys]. by rewrite app_nil_r. }
    assert (Hext' : extracted_from w
                      (fetched (with_page st [] (seen_keys st) (S (empty_streak st))
                         (fetched st ++ (first_rows w (page_tokens i) []).2)))
                      (collected (with_page st [] (seen_keys st) (S (empty_streak st))
                         (fetched st ++ (first_rows w (page_tokens i) []).2)))).
    { cbn [with_page collected fetched]. rewrite app_nil_r.
      by apply extracted_from_more. }
    by destruct (_ && _).
  - destruct Hsome as (before & t & after & Htok & Hlog & Hall & Ht & Hne).
    fold (page_result w i) in Ht, Hne.
    assert (Hbefore : answered w (fetched st ++ before)).
    { apply Forall_app. split; [done|].
      eapply Forall_impl; [|exact Hall]. intros t' Ht'. by exists []. }
    destruct (page_result w i) as [rows|e] eqn:E.
    + assert (Hrows : rows <> []) by (by intros ->).
      rewrite (page_body_rows _ _ _ _ E Hrows). rewrite Hlog.
      destruct (keep_first_raw_fresh (seen_keys st) rows) as [Hnew Hfresh].
      assert (Hinv : scrape_inv (with_page st (keep_first_raw (seen_keys st) rows)
                        (raw_identities rows ∪ seen_keys st) 0
                        (fetched st ++ before ++ [t]))).
      { split; cbn [with_page collected seen_keys].
        - rewrite raw_identities_app, <- Hseen.
          rewrite <- (keep_first_raw_keys (seen_keys st) rows). set_solver.
        - rewrite map_app. apply list.NoDup_app. split; [done|]. split; [|done].
          intros k Hk Hk'.
          apply list_elem_of_In, in_map_iff in Hk' as (r & <- & Hr).
          rewrite List.Forall_forall in Hfresh. destruct (Hfresh r Hr) as [Hf _].
          apply Hf. rewrite Hseen. unfold raw_identities.
          by apply elem_of_list_to_set. }
      assert (Hext' : extracted_from w (fetched st ++ before ++ [t])
                        (collected st ++ keep_first_raw (seen_keys st) rows)).
      { apply Forall_app. split; [by apply extracted_from_more|].
        eapply Forall_impl; [|exact Hfresh]. intros r [_ Hr].
        exists t, rows. split; [set_solver|done]. }
      assert (Hans' : answered w (fetched st ++ before ++ [t])).
      { rewrite app_assoc. apply Forall_app. split; [done|].
        apply Forall_singleton. by exists rows. }
      by destruct (_ && _).
    + rewrite (page_body_raise _ _ _ _ E), Hlog.
      exists (fetched st ++ before), t. by rewrite app_assoc.
Qed.

Lemma page_loop_keeps (w : site) (indexes : list nat) (st : scrape_state) :
  scrape_inv st -> extracted_from w (fetched st) (collected st) ->
  answered w (fetched st) ->
  match page_loop w indexes st with
  | Continue st' | Break st' =>
      scrape_inv st' /\ extracted_from w (fetched st') (collected st')
      /\ answered w (fetched st')
  | Raised e log =>
      exists before t, log = before ++ [t] /\ answered w before
                       /\ site_page w t = Raise e
  end.
Proof.
  revert st. induction indexes as [|i indexes IH]; intros st Hinv Hext Hans; [done|].
  cbn [page_loop]. pose proof (page_body_keeps w st i Hinv Hext Hans) as Hbody.
  destruct (page_body w st i) as [st'|st'|e log]; [|done|done].
  destruct Hbody as (? & ? & ?). by apply IH.
Qed.

Lemma initial_scrape_inv : scrape_inv initial_scrape.
Proof. split; [done|constructor]. Qed.

(** *** The pipeline *)

Lemma raw_like_same (rows : list comment) : map raw_like rows = rows.
Proof.
  induction rows as [|row rows IH]; [done|]. cbn [map]. rewrite IH.
  by destruct row.
Qed.

Lemma save_at_files (path : string) (rows : list comment) (st : store) :
  files (save_at path rows st).1 = <[path := (save_rows_to_csv rows).1]> (files st)
  /\ analysis_memo (save_at path rows st).1 = analysis_memo st
  /\ ((save_at path rows st).2 = Ok tt
      \/ (save_at path rows st).2 = Raise ENCODE_ERROR).
Proof.
  unfold save_at, save_rows_to_csv.
  assert (Hlines : forall lines, (write_lines lines).2 = Ok tt
                                 \/ (write_lines lines).2 = Raise ENCODE_ERROR).
  { induction lines as [|line lines IH]; [by left|]. cbn [write_lines].
    destruct (utf8_strict line); [|by right].
    by destruct (write_lines lines). }
  specialize (Hlines (CSV.write_row CSV_FIELDS
                      :: map (fun row => CSV.write_row (csv_record row)) rows)).
  by destruct (write_lines _).
Qed.

Lemma save_all_memo (targets : list (string * list comment)) (st : store) :
  analysis_memo (save_all targets st).1 = analysis_memo st
  /\ ((save_all targets st).2 = Ok tt
      \/ (save_all targets st).2 = Raise ENCODE_ERROR).
Proof.
  revert st. induction targets as [|[path rows] targets IH]; intros st; [by split; [|left]|].
  cbn [save_all]. destruct (save_at_files path rows st) as (_ & Hm & Hr).
  destruct (save_at path rows st) as [st1 [[]|e]]; cbn [fst snd] in *.
  - rewrite <- Hm. apply IH.
  - split; [done|]. destruct Hr as [Hr|Hr]; [done|by right].
Qed.

Lemma save_all_written (targets : list (string * list comment)) (st : store) :
  (save_all targets st).2 = Ok tt ->
  files (save_all targets st).1
  = fold_left (fun fs t => <[t.1 := (save_rows_to_csv t.2).1]> fs) targets (files st).
Proof.
  revert st. induction targets as [|[path rows] targets IH]; intros st; [done|].
  cbn [save_all fold_left fst snd]. destruct (save_at_files path rows st) as (Hf & _ & _).
  destruct (save_at path rows st) as [st1 [[]|e]]; cbn [fst snd] in *; [|done].
  intros H. by rewrite IH, Hf.
Qed.

Lemma source_paths_distinct (s : source) : NoDup (source_paths s).
Proof.
  destruct s; unfold source_paths; repeat constructor; cbn; set_solver.
Qed.

Lemma sources_apart (s s' : source) (p : string) :
  s <> s' -> p ∈ source_paths s -> p ∉ source_paths s'.
Proof.
  intros Hne Hp Hp'. destruct s, s'; try done; unfold source_paths in *; cbn in *;
    set_solver.
Qed.

(** The identity of a row that [normalize_rows] keeps does not depend on the
    state of the cache. *)
Lemma normalize_loop_keys (rows : list raw_row) (st st' : list comment * memo) :
  map comment_key st.1 = map comment_key st'.1 ->
  map comment_key (fold_left normalize_row rows st).1
  = map comment_key (fold_left normalize_row rows st').1.
Proof.
  revert st st'. induction rows as [|row rows IH]; intros st st' H; [done|].
  cbn [fold_left]. apply IH. unfold normalize_row.
  destruct (is_junk_or_boilerplate _); [done|].
  destruct (analyze_comment st.2 _) as [a m], (analyze_comment st'.2 _) as [a' m'].
  cbn [fst]. rewrite !map_app, H. done.
Qed.

Lemma normalize_rows_keys (m m' : memo) (rows : list raw_row) :
  map comment_key (normalize_rows m rows).1
  = map comment_key (normalize_rows m' rows).1.
Proof. by apply normalize_loop_keys. Qed.

Lemma normalize_loop_grows (rows : list raw_row) (st : list comment * memo) :
  cache st.2 ⊆ cache (fold_left normalize_row rows st).2.
Proof.
  revert st. induction rows as [|row rows IH]; intros st; [done|].
  cbn [fold_left]. etrans; [|apply IH]. unfold normalize_row.
  destruct (is_junk_or_boilerplate _); [done|].
  pose proof (analyze_comment_grows st.2
                (fix_mojibake (default [] (raw_text row)))) as [Hsub _].
  by destruct (analyze_comment st.2 _).
Qed.

Lemma identities_of_keys (xs ys : list comment) :
  map comment_key xs = map comment_key ys -> identities xs = identities ys.
Proof. unfold identities. by intros ->. Qed.

Lemma identities_app (xs ys : list comment) :
  identities (xs ++ ys) = identities xs ∪ identities ys.
Proof. unfold identities. by rewrite map_app, list_to_set_app_L. Qed.

(** What a run of the pipeline that succeeds has done. *)
Lemma pipeline_written (max_pages : nat) (w : site) (s : source)
    (st st' : store) (merged_rows : list comment) :
  scrape_and_analyze_source max_pages w s st = (Ok merged_rows, st') ->
  exists scraped_rows,
    (scrape_comments_paginated max_pages w).1 = Ok scraped_rows
    /\ merged_rows <> []
    /\ NoDup (map comment_key merged_rows)
    /\ identities merged_rows
       = identities (normalize_rows (analysis_memo st) scraped_rows).1
         ∪ identities (normalize_rows (analysis_memo st)
                         (load_rows_from_csv (files st !! csv_path s))).1
    /\ (forall p, p ∈ source_paths s ->
                  files st' !! p = Some (save_rows_to_csv merged_rows).1)
    /\ (forall p, p ∉ source_paths s -> files st' !! p = files st !! p)
    /\ (memo_ok (analysis_memo st) ->
        Forall wellformed merged_rows /\ memo_ok (analysis_memo st')).
Proof.
  unfold scrape_and_analyze_source.
  destruct (scrape_comments_paginated max_pages w).1 as [[|r rs]|e]; try done.
  pose proof (normalize_loop_wellformed (r :: rs) ([], analysis_memo st)) as Hnew.
  pose proof (normalize_rows_keys (analysis_memo st)
                (normalize_rows (analysis_memo st) (r :: rs)).2
                (load_rows_from_csv (files st !! csv_path s))) as Hkeys.
  fold (normalize_rows (analysis_memo st) (r :: rs)) in Hnew.
  destruct (normalize_rows (analysis_memo st) (r :: rs)) as [[|a analyzed] m]
    eqn:Hnorm; [done|].
  unfold load_normalized. cbn [files analysis_memo snd] in *.
  pose proof (normalize_loop_wellformed
                (load_rows_from_csv (files st !! csv_path s)) ([], m)) as Hold.
  fold (normalize_rows m (load_rows_from_csv (files st !! csv_path s))) in Hold.
  destruct (normalize_rows m (load_rows_from_csv (files st !! csv_path s)))
    as [existing m2].
  cbn [fst snd] in *.
  set (st2 := {| files := files st; analysis_memo := m2 |}).
  set (merged := merge_with_existing (a :: analyzed) existing).
  rewrite raw_like_same.
  pose proof (save_all_written [(csv_path s, merged); (dashboard_csv_path s, merged);
                                (raw_csv_path s, merged);
                                (dashboard_raw_csv_path s, merged)] st2) as Hfiles.
  pose proof (save_all_memo [(csv_path s, merged); (dashboard_csv_path s, merged);
                             (raw_csv_path s, merged);
                             (dashboard_raw_csv_path s, merged)] st2) as [Hmemo _].
  destruct (save_all _ st2) as [st3 [[]|e]]; [|done].
  intros [= <- <-]. cbn [fst snd] in *. specialize (Hfiles eq_refl).
  exists (r :: rs). split; [done|].
  assert (Heq : merged = keep_first ∅ ((a :: analyzed) ++ existing))
    by apply merge_keep_first.
  split; [|split; [|split; [|split; [|split]]]].
  - rewrite Heq. cbn [app keep_first].
    by destruct (decide (comment_key a ∈ (∅ : gset str))).
  - rewrite Heq. apply keep_first_NoDup.
  - rewrite Heq.
    pose proof (keep_first_keys ∅ ((a :: analyzed) ++ existing)) as Hk.
    rewrite !union_empty_r_L in Hk. rewrite Hk, identities_app, Hnorm.
    f_equal. symmetry. by apply identities_of_keys.
  - intros p Hp. rewrite Hfiles. cbn [fold_left fst snd].
    clearbody merged. clear -Hp. unfold source_paths in Hp.
    destruct s; repeat (apply elem_of_cons in Hp as [->|Hp]);
      try (by apply elem_of_nil in Hp); by simplify_map_eq.
  - intros p Hp. rewrite Hfiles. cbn [fold_left fst snd]. unfold source_paths in Hp.
    rewrite !lookup_insert_ne; [done| | | |]; intros <-; apply Hp; set_solver.
  - intros Hm. destruct (Hnew (Forall_nil _) Hm) as [Hnew1 Hm1].
    destruct (Hold (Forall_nil _) Hm1) as [Hold1 Hm2]. split; [|by rewrite Hmemo].
    eapply Forall_of_sublist; [apply merge_sublist|]. by apply Forall_app.
Qed.

Lemma pipeline_failed (max_pages : nat) (w : site) (s : source)
    (st st' : store) (e : str) :
  scrape_and_analyze_source max_pages w s st = (Raise e, st') ->
  files st' = files st \/ e = ENCODE_ERROR.
Proof.
  unfold scrape_and_analyze_source.
  destruct (scrape_comments_paginated max_pages w).1 as [[|r rs]|e'].
  - intros [= <- <-]. by left.
  - destruct (normalize_rows (analysis_memo st) (r :: rs)) as [[|a analyzed] m].
    { intros [= <- <-]. by left. }
    destruct (load_normalized _ _) as [existing st2].
    pose proof (save_all_memo
      [(csv_path s, merge_with_existing (a :: analyzed) existing);
       (dashboard_csv_path s, merge_with_existing (a :: analyzed) existing);
       (raw_csv_path s, map raw_like (merge_with_existing (a :: analyzed) existing));
       (dashboard_raw_csv_path s,
        map raw_like (merge_with_existing (a :: analyzed) existing))] st2)
      as [_ Hr].
    destruct (save_all _ st2) as [st3 [[]|e3]]; [done|].
    intros [= <- <-]. right. cbn [snd] in Hr. by destruct Hr as [Hr|[= ->]].
  - intros [= <- <-]. by left.
Qed.

Lemma pipeline_cache_grows (max_pages : nat) (w : site) (s : source) (st : store) :
  cache (analysis_memo st)
  ⊆ cache (analysis_memo (scrape_and_analyze_source max_pages w s st).2).
Proof.
  unfold scrape_and_analyze_source.
  destruct (scrape_comments_paginated max_pages w).1 as [[|r rs]|e']; [done| |done].
  pose proof (normalize_loop_grows (r :: rs) ([], analysis_memo st)) as H1.
  fold (normalize_rows (analysis_memo st) (r :: rs)) in H1.
  destruct (normalize_rows (analysis_memo st) (r :: rs)) as [[|a analyzed] m];
    [done|].
  unfold load_normalized. cbn [files analysis_memo snd] in *.
  pose proof (normalize_loop_grows
                (load_rows_from_csv (files st !! csv_path s)) ([], m)) as H2.
  fold (normalize_rows m (load_rows_from_csv (files st !! csv_path s))) in H2.
  destruct (normalize_rows m (load_rows_from_csv (files st !! csv_path s)))
    as [existing m2]. cbn [snd] in *.
  match goal with
  | |- context [save_all ?targets ?st2] =>
      pose proof (save_all_memo targets st2) as [Hm _];
      destruct (save_all targets st2) as [st3 [[]|e3]]
  end; cbn [fst snd analysis_memo] in *; rewrite Hm; by etrans.
Qed.

(** *** Triggers and refreshes *)

Lemma trigger_started (ri : Z) (sys : system) (s : source) (force : bool) (now : Q) :
  (trigger_refresh_if_needed ri sys s force now).1 = true
  <-> in_progress (site_states sys s) = false
      /\ (force = true
          \/ last_updated (site_states sys s) = None
          \/ exists t, last_updated (site_states sys s) = Some t
                       /\ (inject_Z ri <= now - t)%Q).
Proof.
  unfold trigger_refresh_if_needed, should_refresh.
  destruct (in_progress (site_states sys s)); [split; [done|by intros [? _]]|].
  destruct force; cbn [negb andb]; [split; [by split; [|left]|done]|].
  destruct (last_updated (site_states sys s)) as [t|]; cbn [negb fst].
  - destruct (Qle_bool (inject_Z ri) (now - t)) eqn:E; cbn [negb fst].
    + apply Qle_bool_iff in E. split; [|done]. intros _. split; [done|].
      right. right. by exists t.
    + split; [done|]. intros (_ & [?|[?|(t' & [= <-] & Hle)]]); try done.
      apply Qle_bool_iff in Hle. by rewrite E in Hle.
  - split; [|done]. intros _. split; [done|]. right. by left.
Qed.

Lemma refresh_site_state_state (max_pages : nat) (w : site) (now : Q)
    (sys : system) (i : nat) (s : source) :
  in_progress (site_states sys s) = false ->
  let state := site_states sys s in
  let after := site_states (refresh_site_state max_pages w now sys i s) s in
  in_progress after = false
  /\ source_name after = source_name state
  /\ match (scrape_and_analyze_source max_pages w s (shared sys)).1 with
     | Ok merged_rows =>
         comments after = merged_rows /\ last_updated after = Some now
         /\ last_error after = None
     | Raise e =>
         comments after = comments state
         /\ last_updated after = last_updated state
         /\ last_error after = Some e
     end.
Proof.
  intros Hflag state after. subst state after.
  unfold refresh_site_state. rewrite Hflag.
  unfold refresh_release, refresh_record, refresh_enter. rewrite Hflag.
  cbn [set_unit set_state shared site_states].
  destruct (scrape_and_analyze_source max_pages w s (shared sys)) as [[rows|e] st];
    cbn [set_unit set_state shared site_states fst];
    rewrite !fn_insert_same; cbn; done.
Qed.

Lemma poll_after_refresh (ri : Z) (max_pages : nat) (w : site) (now : Q)
    (sys : system) (i : nat) (s : source) :
  in_progress (site_states sys s) = false ->
  let after := refresh_site_state max_pages w now sys i s in
  (forall t, (trigger_refresh_if_needed ri after s true t).1 = true)
  /\ match (scrape_and_analyze_source max_pages w s (shared sys)).1 with
     | Ok _ =>
         forall t, (trigger_refresh_if_needed ri after s false t).1 = true
                   <-> (inject_Z ri <= t - now)%Q
     | Raise _ =>
         forall t, (trigger_refresh_if_needed ri after s false t).1
                   = (trigger_refresh_if_needed ri sys s false t).1
     end.
Proof.
  intros Hflag after.
  destruct (refresh_site_state_state max_pages w now sys i s Hflag)
    as (Hidle & _ & Hout). fold after in Hidle, Hout.
  split.
  - intros t. apply trigger_started. split; [done|by left].
  - destruct (scrape_and_analyze_source max_pages w s (shared sys)).1 as [rows|e].
    + destruct Hout as (_ & Hupd & _). intros t. rewrite trigger_started.
      rewrite Hidle, Hupd. split.
      * intros (_ & [?|[?|(t' & [= <-] & Hle)]]); done.
      * intros Hle. split; [done|]. right. right. by exists now.
    + destruct Hout as (_ & Hupd & _). intros t.
      unfold trigger_refresh_if_needed. rewrite Hidle, Hflag, Hupd.
      by destruct (negb false && _).
Qed.

(** *** Seeding *)

Lemma load_normalized_texts (st : store) (path : string) :
  map text (load_normalized st path).1
  = kept_texts (load_rows_from_csv (files st !! path))
  /\ files (load_normalized st path).2 = files st
  /\ (memo_ok (analysis_memo st) ->
      Forall wellformed (load_normalized st path).1
      /\ memo_ok (analysis_memo (load_normalized st path).2)).
Proof.
  unfold load_normalized.
  pose proof (normalize_loop_texts (load_rows_from_csv (files st !! path))
                ([], analysis_memo st)) as Htexts.
  pose proof (normalize_loop_wellformed (load_rows_from_csv (files st !! path))
                ([], analysis_memo st) (Forall_nil _)) as Hwf.
  fold (normalize_rows (analysis_memo st) (load_rows_from_csv (files st !! path)))
    in Htexts, Hwf.
  destruct (normalize_rows _ _) as [rows m]. cbn [fst snd files analysis_memo] in *.
  done.
Qed.

Lemma first_processed_texts (paths : list string) (st : store) :
  map text (first_processed paths st).1
  = first_nonempty (map (fun p => kept_texts (load_rows_from_csv (files st !! p))) paths)
  /\ files (first_processed paths st).2 = files st
  /\ (memo_ok (analysis_memo st) ->
      Forall wellformed (first_processed paths st).1
      /\ memo_ok (analysis_memo (first_processed paths st).2)).
Proof.
  revert st. induction paths as [|path paths IH]; intros st; [done|].
  cbn [first_processed map first_nonempty].
  destruct (load_normalized_texts st path) as (Htexts & Hfiles & Hwf).
  destruct (load_normalized st path) as [[|row rows] st'] eqn:E; cbn [fst snd] in *.
  - rewrite <- Htexts. cbn [map]. destruct (IH st') as (H1 & H2 & H3).
    rewrite H1, H2, Hfiles. split; [done|]. split; [done|].
    intros Hm. apply H3. by apply Hwf.
  - rewrite <- Htexts. done.
Qed.

Lemma seed_source_effect (now : source -> Q) (sys : system) (s : source) :
  let seeded := seed_source now sys s in
  let state := site_states seeded s in
  (units seeded = units sys /\ files (shared seeded) = files (shared sys)
   /\ forall s', s' <> s -> site_states seeded s' = site_states sys s')
  /\ (in_progress state = in_progress (site_states sys s)
      /\ last_error state = last_error (site_states sys s)
      /\ source_name state = source_name (site_states sys s))
  /\ map text (comments state)
     = first_nonempty
         (map (fun p => kept_texts (load_rows_from_csv (files (shared sys) !! p)))
              (source_paths s))
  /\ last_updated state
     = match comments state with [] => None | _ => Some (now s) end
  /\ (memo_ok (analysis_memo (shared sys)) ->
      Forall wellformed (comments state)
      /\ memo_ok (analysis_memo (shared seeded))).
Proof.
  cbv zeta. unfold seed_source. fold (source_paths s).
  destruct (first_processed_texts (source_paths s) (shared sys)) as (Htexts & Hfiles & Hwf).
  destruct (first_processed (source_paths s) (shared sys)) as [processed st].
  cbn [fst snd units shared site_states] in *. rewrite fn_insert_same.
  cbn [comments in_progress last_error source_name last_updated].
  split; [split; [done|split; [done|]]|].
  { intros s' Hne. by rewrite fn_insert_other. }
  split; [done|]. split; [done|]. split; [done|]. exact Hwf.
Qed.

Lemma ensure_seed_data_effect (now : source -> Q) (sys : system) (s : source) :
  let seeded := ensure_seed_data now sys in
  let state := site_states seeded s in
  (units seeded = units sys /\ files (shared seeded) = files (shared sys))
  /\ (in_progress state = in_progress (site_states sys s)
      /\ last_error state = last_error (site_states sys s)
      /\ source_name state = source_name (site_states sys s))
  /\ map text (comments state)
     = first_nonempty
         (map (fun p => kept_texts (load_rows_from_csv (files (shared sys) !! p)))
              (source_paths s))
  /\ last_updated state
     = match comments state with [] => None | _ => Some (now s) end
  /\ (memo_ok (analysis_memo (shared sys)) ->
      Forall wellformed (comments state)
      /\ memo_ok (analysis_memo (shared seeded))).
Proof.
  cbv zeta. unfold ensure_seed_data, SOURCES. cbn [fold_left].
  set (sys1 := seed_source now sys site1).
  destruct (seed_source_effect now sys site1)
    as ((Hu1 & Hf1 & Ho1) & (Hp1 & He1 & Hn1) & Ht1 & Hl1 & Hw1).
  destruct (seed_source_effect now sys1 site2)
    as ((Hu2 & Hf2 & Ho2) & (Hp2 & He2 & Hn2) & Ht2 & Hl2 & Hw2).
  cbv zeta in *. fold sys1 in Hu1, Hf1, Ho1, Hp1, He1, Hn1, Ht1, Hl1, Hw1.
  split; [split; congruence|].
  destruct s.
  - rewrite (Ho2 site1) by done.
    split; [done|]. split; [done|]. split; [done|].
    intros Hm. destruct (Hw1 Hm) as [Hrows Hm1]. split; [done|]. by apply Hw2.
  - rewrite Hp2, He2, Hn2, Ht2, Hl2, Hf1, !(Ho1 site2) by done.
    split; [done|]. split; [done|]. split; [done|].
    intros Hm. destruct (Hw1 Hm) as [_ Hm1]. by apply Hw2.
Qed.

(** *** Sources apart *)

Lemma save_all_untouched (targets : list (string * list comment)) (st : store)
    (p : string) :
  p ∉ map fst targets ->
  files (save_all targets st).1 !! p = files st !! p.
Proof.
  revert st. induction targets as [|[path rows] targets IH]; intros st Hp; [done|].
  cbn [save_all map fst] in *. apply not_elem_of_cons in Hp as [Hne Hp].
  destruct (save_at_files path rows st) as (Hf & _ & _).
  destruct (save_at path rows st) as [st1 [[]|e]]; cbn [fst] in *.
  - rewrite IH, Hf by done. by apply lookup_insert_ne.
  - rewrite Hf. by apply lookup_insert_ne.
Qed.

Lemma pipeline_untouched (max_pages : nat) (w : site) (s : source) (st : store)
    (p : string) :
  p ∉ source_paths s ->
  files (scrape_and_analyze_source max_pages w s st).2 !! p = files st !! p.
Proof.
  intros Hp. unfold scrape_and_analyze_source.
  destruct (scrape_comments_paginated max_pages w).1 as [[|r rs]|e']; [done| |done].
  destruct (normalize_rows (analysis_memo st) (r :: rs)) as [[|a analyzed] m];
    [done|].
  destruct (load_normalized_texts {| files := files st; analysis_memo := m |}
              (csv_path s)) as (_ & Hfiles & _).
  destruct (load_normalized _ _) as [existing st2]. cbn [snd files] in Hfiles.
  match goal with
  | |- context [save_all ?targets st2] =>
      pose proof (save_all_untouched targets st2 p Hp) as Hsave;
      destruct (save_all targets st2) as [st3 [[]|e3]]
  end; cbn [fst snd] in *; by rewrite Hsave, Hfiles.
Qed.

Lemma step_isolated (ri : Z) (max_pages : nat) (sys : system) (i : nat)
    (u : unit_of_work) (w : site) (now : Q) (s' : source) :
  units sys !! i = Some u -> s' <> target u ->
  site_states (step ri max_pages sys (Advance i w now)) s' = site_states sys s'
  /\ forall p, p ∈ source_paths s' ->
               files (shared (step ri max_pages sys (Advance i w now))) !! p
               = files (shared sys) !! p.
Proof.
  intros Hi Hne. cbn [step]. rewrite Hi.
  destruct (at_ u).
  - unfold refresh_enter. destruct (in_progress _); [done|].
    cbn [set_unit set_state site_states shared]. by rewrite fn_insert_other.
  - unfold refresh_record.
    pose proof (fun p => pipeline_untouched max_pages w (target u) (shared sys) p)
      as Hfiles.
    destruct (scrape_and_analyze_source max_pages w (target u) (shared sys))
      as [outcome st]. cbn [set_unit site_states shared snd] in *.
    rewrite fn_insert_other by done. split; [done|].
    intros p Hp. apply Hfiles. intros Hp'.
    by apply (sources_apart s' (target u) p).
  - unfold refresh_release.
    cbn [set_unit set_state site_states shared]. by rewrite fn_insert_other.
  - done.
Qed.

(** *** Requests *)

Lemma lookup_source_known (source_id : str) (s : source) :
  lookup_source source_id = Some s
  <-> source_id = match s with site1 => s2l "site1" | site2 => s2l "site2" end.
Proof.
  unfold lookup_source, str_eqb.
  destruct (decide (source_id = s2l "site1")) as [->|H1].
  { rewrite bool_decide_eq_true_2 by done.
    destruct s; split; try done; by intros [=]. }
  rewrite (bool_decide_eq_false_2 _ H1).
  destruct (decide (source_id = s2l "site2")) as [->|H2].
  { rewrite bool_decide_eq_true_2 by done.
    destruct s; split; try done; by intros [=]. }
  rewrite (bool_decide_eq_false_2 _ H2). by destruct s.
Qed.

Lemma trigger_spawns (ri : Z) (sys : system) (s : source) (force : bool) (now : Q) :
  let out := trigger_refresh_if_needed ri sys s force now in
  site_states out.2 = site_states sys /\ shared out.2 = shared sys
  /\ units out.2
     = units sys ++ (if out.1 then [ {| target := s; at_ := Spawned |} ] else []).
Proof.
  cbv zeta. unfold trigger_refresh_if_needed.
  destruct (in_progress _); [by rewrite app_nil_r|].
  destruct (_ && _); [by rewrite app_nil_r|done].
Qed.

Lemma serve_spawns (ri : Z) (gemini_enabled : bool) (r : request) (now : Q)
    (sys : system) :
  let out := serve ri gemini_enabled r now sys in
  site_states out.2 = site_states sys /\ shared out.2 = shared sys
  /\ (units out.2 = units sys
      \/ exists s, units out.2 = units sys ++ [ {| target := s; at_ := Spawned |} ]
                   /\ in_progress (site_states sys s) = false).
Proof.
  cbv zeta.
  assert (Htrigger : forall s force,
    let out := trigger_refresh_if_needed ri sys s force now in
    site_states out.2 = site_states sys /\ shared out.2 = shared sys
    /\ (units out.2 = units sys
        \/ exists s, units out.2 = units sys ++ [ {| target := s; at_ := Spawned |} ]
                     /\ in_progress (site_states sys s) = false)).
  { intros s force. cbv zeta.
    destruct (trigger_spawns ri sys s force now) as (H1 & H2 & H3). cbv zeta in *.
    split; [done|]. split; [done|]. rewrite H3.
    destruct (trigger_refresh_if_needed ri sys s force now).1 eqn:E.
    - right. exists s. split; [done|]. by apply trigger_started in E as [? _].
    - left. apply app_nil_r. }
  destruct r as [arg|arg]; cbn [serve]; unfold get_live_comments, refresh_now;
    destruct (lookup_source _) as [s|]; cbn [fst snd]; try (by split; [|split; [|left]]).
  - apply Htrigger.
  - specialize (Htrigger s true). cbv zeta in Htrigger.
    by destruct (trigger_refresh_if_needed ri sys s true now).
Qed.

Lemma serve_unknown (ri : Z) (gemini_enabled : bool) (r : request) (now : Q)
    (sys : system) (source_id : str) :
  match r with GetLiveComments arg | RefreshNow arg => arg end = Some source_id ->
  source_id <> s2l "site1" -> source_id <> s2l "site2" ->
  serve ri gemini_enabled r now sys
  = (UnknownSource (s2l "Unknown source: " ++ source_id), sys).
Proof.
  intros Harg H1 H2.
  assert (Hnone : lookup_source source_id = None).
  { destruct (lookup_source source_id) as [s|] eqn:E; [|done].
    apply lookup_source_known in E. by destruct s. }
  destruct r as [arg|arg]; cbn in Harg; subst arg; cbn [serve];
    unfold get_live_comments, refresh_now; cbn [from_option id]; by rewrite Hnone.
Qed.

Lemma refresh_now_answer (ri : Z) (arg : option str) (now : Q) (sys : system)
    (s : source) :
  lookup_source (default (s2l "site1") arg) = Some s ->
  (refresh_now ri arg now sys).1
  = RefreshStarted (negb (in_progress (site_states sys s)))
                   (default (s2l "site1") arg).
Proof.
  intros Hs. unfold refresh_now. rewrite Hs.
  unfold trigger_refresh_if_needed. by destruct (in_progress _).
Qed.

Lemma get_live_comments_answer (ri : Z) (gemini_enabled : bool) (arg : option str)
    (now : Q) (sys : system) (s : source) :
  lookup_source (default (s2l "site1") arg) = Some s ->
  (get_live_comments ri gemini_enabled arg now sys).1
  = LiveComments (state_payload gemini_enabled sys (default (s2l "site1") arg) s).
Proof.
  intros Hs. unfold get_live_comments. rewrite Hs. cbn [fst].
  unfold state_payload. by rewrite trigger_states.
Qed.

(** *** Start-up *)

Lemma start_up_units (ri : Z) (now : source -> Q) (sys : system) :
  (forall s, in_progress (site_states sys s) = false) ->
  units (start_up ri now sys)
  = units sys ++ [ {| target := site1; at_ := Spawned |};
                   {| target := site2; at_ := Spawned |} ]
  /\ site_states (start_up ri now sys) = site_states (ensure_seed_data now sys)
  /\ shared (start_up ri now sys) = shared (ensure_seed_data now sys).
Proof.
  intros Hidle. unfold start_up, SOURCES. cbn [fold_left].
  set (seeded := ensure_seed_data now sys).
  assert (Hflags : forall s, in_progress (site_states seeded s) = false).
  { intros s. destruct (ensure_seed_data_effect now sys s) as (_ & (Hp & _) & _).
    cbv zeta in Hp. fold seeded in Hp. by rewrite Hp. }
  assert (Hunits : units seeded = units sys).
  { by destruct (ensure_seed_data_effect now sys site1) as ((? & _) & _). }
  set (t1 := trigger_refresh_if_needed ri seeded site1 true (now site1)).
  destruct (trigger_spawns ri seeded site1 true (now site1)) as (Hs1 & Hh1 & Hu1).
  cbv zeta in Hs1, Hh1, Hu1. fold t1 in Hs1, Hh1, Hu1.
  assert (Hstart1 : t1.1 = true).
  { apply trigger_started. split; [apply Hflags|by left]. }
  rewrite Hstart1 in Hu1.
  set (t2 := trigger_refresh_if_needed ri t1.2 site2 true (now site2)).
  destruct (trigger_spawns ri t1.2 site2 true (now site2)) as (Hs2 & Hh2 & Hu2).
  cbv zeta in Hs2, Hh2, Hu2. fold t2 in Hs2, Hh2, Hu2.
  assert (Hstart2 : t2.1 = true).
  { apply trigger_started. rewrite Hs1. split; [apply Hflags|by left]. }
  rewrite Hstart2 in Hu2.
  rewrite Hu2, Hu1, Hunits, Hs2, Hs1, Hh2, Hh1, <- app_assoc. done.
Qed.

Lemma detect_language_name_cases (text : str) :
  let cleaned := normalize_whitespace text in
  (cleaned = [] -> detect_language_name text = s2l "Unknown")
  /\ (forall code name,
        cleaned <> [] -> detect cleaned = Some code ->
        In (lower code, name) LANGUAGE_CODE_MAP ->
        detect_language_name text = name)
  /\ (cleaned <> [] ->
      detect cleaned ≫= (fun code => assoc (lower code) LANGUAGE_CODE_MAP) = None ->
      detect_language_name text = detect_language_from_script cleaned)
  /\ In (detect_language_name text) (s2l "Unknown" :: LANGUAGE_NAMES).
Proof.
  cbv zeta. unfold detect_language_name.
  destruct (normalize_whitespace text) as [|c cleaned] eqn:E.
  { split; [done|]. split; [done|]. split; [done|]. by left. }
  set (value := c :: cleaned).
  pose proof (detect_language_from_script_known value) as Hscript.
  pose proof (language_name_fixed _ Hscript) as (Hfixed & _).
  split; [done|]. split; [|split].
  - intros code name _ Hcode Hin. rewrite Hcode. cbn [mbind option_bind].
    pose proof language_codes as Hcodes. rewrite List.Forall_forall in Hcodes.
    destruct (Hcodes _ Hin) as [Hassoc _]. cbn [fst snd] in Hassoc. rewrite Hassoc.
    assert (Hname : In name LANGUAGE_NAMES) by (by apply assoc_in in Hassoc).
    destruct (language_name_fixed name (or_intror Hname)) as (_ & Hne & _).
    by destruct name.
  - intros _ Hnone. by rewrite Hnone.
  - destruct (detect value ≫= _) as [[|d mapped]|] eqn:Hd; try by rewrite Hfixed.
    right. destruct (detect value) as [code|]; [|done]. cbn [mbind option_bind] in Hd.
    by apply assoc_in in Hd.
Qed.

(** *** Boilerplate *)

Lemma rmatch_letters (word t rest : str) (prev : option Z)
    (k : option Z -> str -> bool) :
  same_letters word t = true ->
  rmatch (lit_with fold_eq word) prev (t ++ rest) k = k (last_of prev t) rest.
Proof.
  revert t prev. induction word as [|p word IH]; intros [|c t] prev H; try done.
  cbn [same_letters] in H. apply andb_true_iff in H as [Hc Ht].
  cbn [lit_with fold_right app]. cbn [rmatch]. rewrite Hc. cbn [andb].
  exact (IH t (Some c) Ht).
Qed.

Lemma rmatch_seq (a b : regex) (prev : option Z) (s : str)
    (k : option Z -> str -> bool) :
  rmatch (Seq a b) prev s k
  = rmatch a prev s (fun prev' s' => rmatch b prev' s' k).
Proof. reflexivity. Qed.

Lemma rmatch_bol (s : str) (k : option Z -> str -> bool) :
  rmatch Bol None s k = k None s.
Proof. reflexivity. Qed.

Lemma rmatch_spaces (r : regex) (prev : option Z) (rest : str)
    (k : option Z -> str -> bool) :
  rmatch r (Some 32) rest k = true ->
  rmatch (Seq (Plus (Chr is_space)) r) prev (32 :: rest) k = true.
Proof.
  intros H. unfold Plus. cbn [rmatch]. change (is_space 32) with true. cbn [andb].
  destruct (length rest); by rewrite H.
Qed.

Lemma search_from_later (r : regex) (before s : str) (prev : option Z) :
  rmatch r (last_of prev before) s (fun _ _ => true) = true ->
  search_from r prev (before ++ s) = true.
Proof.
  revert prev. induction before as [|c before IH]; intros prev H.
  - cbn [app]. destruct s; cbn [search_from]; cbn [last_of fold_left] in H;
      by rewrite H.
  - cbn [app search_from]. rewrite (IH (Some c)); [apply orb_true_r|done].
Qed.

Lemma share_labels_junk (text before facebook twitter after : str) :
  normalize_whitespace text = before ++ facebook ++ 32 :: twitter ++ after ->
  same_letters (s2l "facebook") facebook = true ->
  same_letters (s2l "twitter") twitter = true ->
  is_junk_or_boilerplate text = true.
Proof.
  intros Hshape Hf Ht. unfold is_junk_or_boilerplate. rewrite Hshape.
  destruct (before ++ facebook ++ 32 :: twitter ++ after) as [|c cleaned] eqn:E;
    [done|]. rewrite <- E. clear E.
  destruct (_ <? _)%nat; [done|].
  unfold JUNK_PATTERNS. cbn [existsb].
  match goal with
  | |- _ || (?b || _) = true => assert (Hb : b = true); [|by rewrite Hb, orb_true_r]
  end.
  unfold re_search. apply search_from_later. rewrite rmatch_seq.
  unfold lit_i. rewrite (rmatch_letters _ _ _ _ _ Hf).
  apply rmatch_spaces. rewrite <- (app_nil_r (twitter ++ after)), <- app_assoc.
  by rewrite (rmatch_letters _ _ _ _ _ Ht).
Qed.

Lemma report_spam_junk (text report spam after : str) :
  normalize_whitespace text = report ++ 32 :: spam ++ after ->
  same_letters (s2l "report") report = true ->
  same_letters (s2l "spam") spam = true ->
  is_junk_or_boilerplate text = true.
Proof.
  intros Hshape Hr Hs. unfold is_junk_or_boilerplate. rewrite Hshape.
  destruct (report ++ 32 :: spam ++ after) as [|c cleaned] eqn:E; [done|].
  rewrite <- E. clear E.
  destruct (_ <? _)%nat; [done|].
  unfold JUNK_PATTERNS. cbn [existsb].
  match goal with
  | |- _ || (_ || (?b || _)) = true =>
      assert (Hb : b = true); [|by rewrite Hb, !orb_true_r]
  end.
  unfold re_search. apply (search_from_later _ []). cbn [last_of fold_left app].
  rewrite rmatch_seq, rmatch_bol, rmatch_seq.
  unfold lit_i. rewrite (rmatch_letters _ _ _ _ _ Hr).
  apply rmatch_spaces. rewrite <- (app_nil_r (spam ++ after)), <- app_assoc.
  by rewrite (rmatch_letters _ _ _ _ _ Hs).
Qed.

(** *** A scrape that brings nothing to keep *)

Lemma normalize_loop_all_junk (rows : list raw_row) (st : list comment * memo) :
  kept_texts rows = [] -> fold_left normalize_row rows st = st.
Proof.
  unfold kept_texts. induction rows as [|row rows IH]; [done|].
  cbn [map List.filter fold_left].
  destruct (is_junk_or_boilerplate (cleaned_text row)) eqn:E; cbn [negb]; [|done].
  intros H. rewrite (normalize_row_dropped st row E). by apply IH.
Qed.

Lemma pipeline_nothing_kept (max_pages : nat) (w : site) (s : source) (st : store)
    (rows : list raw_row) :
  (scrape_comments_paginated max_pages w).1 = Ok rows ->
  rows <> [] -> kept_texts rows = [] ->
  scrape_and_analyze_source max_pages w s st
  = (Raise (s2l "No valid comments after analysis."), st).
Proof.
  intros Hrows Hne Hjunk. unfold scrape_and_analyze_source. rewrite Hrows.
  destruct rows as [|r rs]; [done|]. unfold normalize_rows.
  rewrite (normalize_loop_all_junk (r :: rs) _ Hjunk). by destruct st.
Qed.

Lemma lookup_source_unknown (source_id : str) :
  source_id <> s2l "site1" -> source_id <> s2l "site2" ->
  lookup_source source_id = None.
Proof.
  intros H1 H2. destruct (lookup_source source_id) as [s|] eqn:E; [|done].
  apply lookup_source_known in E. by destruct s.
Qed.

(** ** The properties *)

(** X1: [normalize_whitespace] returns a text whose only whitespace is a
    single U+0020 between two words; the texts of that form are exactly its
    fixed points, so it is idempotent. It changes whitespace only: the other
    characters are kept, in order, and a text made of whitespace becomes the
    empty text. *)
Theorem normalize_whitespace_canonical (s : str) :
  tidy (normalize_whitespace s) = true
  /\ (normalize_whitespace s = s <-> tidy s = true)
  /\ normalize_whitespace (normalize_whitespace s) = normalize_whitespace s
  /\ List.filter (fun c => negb (is_space c)) (normalize_whitespace s)
     = List.filter (fun c => negb (is_space c)) s
  /\ (forallb is_space s = true -> normalize_whitespace s = []).
Proof.
  split; [apply normalize_whitespace_tidy|].
  split; [apply normalize_whitespace_fixed|].
  split; [apply normalize_whitespace_idempotent|].
  split; [apply normalize_keeps_words|apply normalize_blank].
Qed.

(** X2: [text_hash] always returns 64 characters, each a decimal digit or a
    letter from a to f. *)
Theorem text_hash_shape (value : str) :
  length (text_hash value) = 64%nat /\ forallb is_hex (text_hash value) = true.
Proof. apply hexdigest_hex. Qed.

(** X3: [text_hash] encodes with [errors="ignore"], so an unpaired surrogate
    does not count: a text hashes as the text without it. *)
Theorem text_hash_skips_surrogates (a b : str) (c : Z) :
  is_surrogate c = true -> text_hash (a ++ c :: b) = text_hash (a ++ b).
Proof.
  intros Hc. unfold text_hash. rewrite utf8_encode_skips; [done|].
  unfold is_surrogate, is_scalar, in_range in *.
  apply andb_true_iff in Hc as [H1 H2]. apply Z.leb_le in H1, H2.
  destruct (Z.leb_spec c 55295); [lia|]. rewrite andb_false_r.
  destruct (Z.leb_spec 57344 c); [lia|]. done.
Qed.

(** X4: whatever [fix_mojibake] is given, its result is whitespace-normalized.
    A text without U+00C3, U+00C2 and U+00E2 is only normalized; so is a
    text with one of them that Latin-1 cannot encode or whose bytes are not
    UTF-8: the failed repair leaves the cleaned text. When the bytes do
    decode, the result is the normalized decoding. *)
Theorem fix_mojibake_result (text : str) :
  let cleaned := normalize_whitespace text in
  tidy (fix_mojibake text) = true
  /\ (has_marker cleaned = false -> fix_mojibake text = cleaned)
  /\ (latin1_encode cleaned ≫= utf8_decode = None -> fix_mojibake text = cleaned)
  /\ (forall repaired,
        has_marker cleaned = true ->
        latin1_encode cleaned ≫= utf8_decode = Some repaired ->
        fix_mojibake text = normalize_whitespace repaired).
Proof.
  cbv zeta. split; [apply fix_mojibake_tidy|]. split; [apply fix_mojibake_plain|].
  unfold fix_mojibake, has_marker.
  destruct (normalize_whitespace text) as [|c cleaned].
  - split; [done|]. intros repaired H. done.
  - split.
    + intros ->. by destruct (existsb _ _).
    + intros repaired -> ->. done.
Qed.

(** X5: the repair undoes the misreading it is meant for. When a clean text
    was encoded in UTF-8 and the bytes were read as Latin-1, and the text so
    obtained is itself whitespace-normalized and has one of the three marker
    characters, [fix_mojibake] gives the original text back. *)
Theorem fix_mojibake_repairs (s : str) :
  forallb is_scalar s = true ->
  tidy s = true ->
  tidy (utf8_encode s) = true ->
  has_marker (utf8_encode s) = true ->
  fix_mojibake (utf8_encode s) = s.
Proof. apply fix_mojibake_decodes. Qed.

(** X6: [detect_language_from_script] answers one of the language names or
    "Unknown". It is "Unknown" exactly when the text has no character of the
    ten scripts and no Latin letter, and "English" exactly when it has a
    Latin letter and no character of the scripts. The scripts are tried in
    the order of the table, not of the text: an entry answers as soon as the
    text has one of its characters and none of the entries before it. *)
Theorem language_of_script (text : str) :
  In (detect_language_from_script text) (s2l "Unknown" :: LANGUAGE_NAMES)
  /\ (detect_language_from_script text = s2l "Unknown"
      <-> existsb in_script text = false /\ existsb is_latin text = false)
  /\ (detect_language_from_script text = s2l "English"
      <-> existsb in_script text = false /\ existsb is_latin text = true)
  /\ (forall before after lo hi name,
        SCRIPT_PATTERNS = before ++ (lo, hi, name) :: after ->
        Forall (fun p => existsb (in_range p.1.1 p.1.2) text = false) before ->
        existsb (in_range lo hi) text = true ->
        detect_language_from_script text = name).
Proof.
  split; [apply detect_language_from_script_known|].
  split; [apply detect_language_from_script_unknown|].
  split; [apply detect_language_from_script_english|].
  intros before after lo hi name Htable Hbefore Hhere.
  unfold detect_language_from_script. rewrite Htable.
  by rewrite (first_script_order before after lo hi name text).
Qed.

(** X7: [normalize_language_name] never returns the empty text and its
    result is whitespace-normalized; applying it again changes nothing. A
    code of [LANGUAGE_CODE_MAP], in any letter case and with any whitespace
    around it, gives the name of the language. *)
Theorem language_name_normal_form (raw : str) :
  normalize_language_name raw <> []
  /\ tidy (normalize_language_name raw) = true
  /\ normalize_language_name (normalize_language_name raw)
     = normalize_language_name raw
  /\ (forall code name,
        In (code, name) LANGUAGE_CODE_MAP ->
        lower (normalize_whitespace raw) = code ->
        normalize_language_name raw = name).
Proof.
  destruct (normalize_language_name_tidy raw) as [Hne Htidy].
  split; [done|]. split; [done|]. split; [apply normalize_language_name_fixed|].
  intros code name. apply normalize_language_name_code.
Qed.

(** X8: [detect_language_name] answers "Unknown" or one of the twelve names
    of [LANGUAGE_CODE_MAP]. A text of whitespace is "Unknown". When the
    detector gives a code of the map, in any letter case, the name of that
    code is the answer, whatever the script of the text; when it fails or
    gives another code, the answer is that of
    [detect_language_from_script]. *)
Theorem detected_language (text : str) :
  let cleaned := normalize_whitespace text in
  (cleaned = [] -> detect_language_name text = s2l "Unknown")
  /\ (forall code name,
        cleaned <> [] -> detect cleaned = Some code ->
        In (lower code, name) LANGUAGE_CODE_MAP ->
        detect_language_name text = name)
  /\ (cleaned <> [] ->
      detect cleaned ≫= (fun code => assoc (lower code) LANGUAGE_CODE_MAP) = None ->
      detect_language_name text = detect_language_from_script cleaned)
  /\ In (detect_language_name text) (s2l "Unknown" :: LANGUAGE_NAMES).
Proof. apply detect_language_name_cases. Qed.

(** X9: a summary is whitespace-normalized and has at most 220 characters,
    whatever the text, and summarizing a summary returns it unchanged. *)
Theorem short_summary_stable (text : str) :
  tidy (short_summary text) = true
  /\ (length (short_summary text) <= 220)%nat
  /\ short_summary (short_summary text) = short_summary text.
Proof.
  split; [apply short_summary_tidy|].
  split; [apply short_summary_length|apply short_summary_fixed].
Qed.

(** X10: the score of the heuristic takes few values: 0.00 for unknown, 0.50
    for neutral, and for a positive or negative verdict one of the ten
    values 0.59, 0.63, ..., 0.95, that is 0.55 + 0.04 j with j from 1 to 10.
    The cap of 0.99 written in the function is never reached. *)
Theorem heuristic_score_values (text : str) :
  match v_sentiment (heuristic_sentiment text) with
  | Positive | Negative =>
      exists j : Z,
        1 <= j <= 10
        /\ (v_score (heuristic_sentiment text) == 0.55 + inject_Z j * 0.04)%Q
  | Neutral => (v_score (heuristic_sentiment text) == 0.50)%Q
  | Unknown => (v_score (heuristic_sentiment text) == 0.00)%Q
  end
  /\ (0 <= v_score (heuristic_sentiment text))%Q
  /\ (v_score (heuristic_sentiment text) <= 0.95)%Q.
Proof. split; [apply heuristic_score_steps|apply heuristic_score_unit]. Qed.

(** X11: [analyze_with_gemini] gives nothing exactly when the model gave no
    usable answer or the sentiment of the answer normalizes to unknown.
    Otherwise the sentiment is positive, negative or neutral, the score is
    the score of the answer, or the default of the sentiment when the answer
    has none, brought into [0, 1], the language is never empty, and the
    summary is whitespace-normalized with at most 220 characters. *)
Theorem external_analysis_contract (answer : option reply) (text_input : str) :
  (analyze_with_gemini answer text_input = None
   <-> answer = None
       \/ exists r, answer = Some r
                    /\ normalize_sentiment (reply_sentiment r) = Unknown)
  /\ (forall a,
        analyze_with_gemini answer text_input = Some a ->
        a_sentiment a <> Unknown
        /\ unit_score (a_score a)
        /\ (exists r, answer = Some r
                      /\ a_score a
                         = clamp01 (default (DEFAULT_SENTIMENT_SCORE (a_sentiment a))
                                            (reply_score r)))
        /\ a_lang a <> [] /\ tidy (a_lang a) = true
        /\ tidy (a_summary a) = true /\ (length (a_summary a) <= 220)%nat).
Proof.
  split; [apply analyze_with_gemini_none|]. intros a Ha.
  apply analyze_with_gemini_some in Ha
    as (r & Hr & Hs & Hne & Hscore & Hlang & Hsum).
  split; [done|]. split; [rewrite Hscore; apply clamp01_unit|].
  split; [by exists r|]. rewrite Hlang, Hsum.
  destruct (normalize_language_name_tidy (reply_language r)) as [H1 H2].
  split; [done|]. split; [done|].
  split; [apply short_summary_tidy|apply short_summary_length].
Qed.

(** X12: [analyze_comment] caches by the hash of the cleaned text. Once a
    text was analysed, analysing it again, or any text whose cleaned form
    has the same hash, returns the same analysis and neither calls the model
    nor changes the cache. The cache only grows, and the model is called at
    most once per call, exactly when the cleaned text is not empty and its
    hash is not in the cache. A text of whitespace is unknown, and is not
    cached. *)
Theorem analysis_cache (m : memo) (text : str) :
  let out := analyze_comment m text in
  (forall text',
     fix_mojibake text <> [] -> fix_mojibake text' <> [] ->
     text_hash (fix_mojibake text') = text_hash (fix_mojibake text) ->
     analyze_comment out.2 text' = (out.1, out.2))
  /\ cache m ⊆ cache out.2
  /\ (model_calls m <= model_calls out.2 <= S (model_calls m))%nat
  /\ (model_calls out.2 = S (model_calls m)
      <-> fix_mojibake text <> []
          /\ cache m !! text_hash (fix_mojibake text) = None)
  /\ (forallb is_space text = true -> out = (empty_analysis, m)).
Proof.
  cbv zeta. split.
  - intros text' Hne Hne' Hhash. apply analyze_comment_hit; [done|].
    rewrite Hhash. by apply analyze_comment_stored.
  - destruct (analyze_comment_grows m text) as (H1 & H2 & H3).
    split; [done|]. split; [done|]. split; [done|]. apply analyze_comment_blank.
Qed.

(** X13: [normalize_rows] establishes what the program expects of a row.
    Provided the scores in the cache are in [0, 1], as they are when the
    process starts, every row it returns has whitespace-normalized author,
    timestamp, text, language and summary; a text of at least three
    characters that is not boilerplate; an author that is not empty and is
    either "Unknown" or not a placeholder; a language that is not empty; a
    score in [0, 1]; a summary of at most 220 characters. The cache keeps
    its property. *)
Theorem normalize_rows_invariants (m : memo) (rows : list raw_row) :
  memo_ok m ->
  Forall wellformed (normalize_rows m rows).1 /\ memo_ok (normalize_rows m rows).2.
Proof. intros Hm. by apply normalize_loop_wellformed. Qed.

(** X14: [normalize_rows] is a filter that keeps the order: the texts of the
    rows it returns are the cleaned texts of the rows given that are not
    junk, in the same order, so it returns at most as many rows as it was
    given. Which rows are kept, and their identities, do not depend on the
    cache. *)
Theorem normalize_rows_filters (m m' : memo) (rows : list raw_row) :
  map text (normalize_rows m rows).1 = kept_texts rows
  /\ (length (normalize_rows m rows).1 <= length rows)%nat
  /\ map comment_key (normalize_rows m rows).1
     = map comment_key (normalize_rows m' rows).1.
Proof.
  pose proof (normalize_loop_texts rows ([], m)) as Htexts. cbn [fst map app] in Htexts.
  split; [exact Htexts|]. split; [|apply normalize_rows_keys].
  apply (f_equal (@length str)) in Htexts. rewrite length_map in Htexts.
  unfold normalize_rows. rewrite Htexts.
  etrans; [apply List.filter_length_le|]. by rewrite length_map.
Qed.

(** X15: junk by its labels. A cleaned text in which "facebook" and
    "twitter" follow one another, in any letter case, is junk wherever that
    stands in the text, and so is a cleaned text that starts with "report
    spam": [normalize_rows] drops such a row, whatever else it says. *)
Theorem share_labels_are_junk (st : list comment * memo) (row : raw_row)
    (before first second after : str) :
  (cleaned_text row = before ++ first ++ 32 :: second ++ after
   /\ same_letters (s2l "facebook") first = true
   /\ same_letters (s2l "twitter") second = true)
  \/ (cleaned_text row = first ++ 32 :: second ++ after
      /\ same_letters (s2l "report") first = true
      /\ same_letters (s2l "spam") second = true) ->
  is_junk_or_boilerplate (cleaned_text row) = true
  /\ normalize_row st row = st.
Proof.
  intros H.
  assert (Hclean : normalize_whitespace (cleaned_text row) = cleaned_text row)
    by apply tidy_fixed, fix_mojibake_tidy.
  assert (Hjunk : is_junk_or_boilerplate (cleaned_text row) = true).
  { destruct H as [(Hshape & H1 & H2)|(Hshape & H1 & H2)].
    - apply (share_labels_junk _ before first second after); [|done|done].
      by rewrite Hclean.
    - apply (report_spam_junk _ first second after); [|done|done].
      by rewrite Hclean. }
  split; [done|by apply normalize_row_dropped].
Qed.

(** X16: the rows that [scrape_comments_paginated] returns have pairwise
    distinct identities, and each of them is a row of the answer to one of
    the requests made, all of which were answered. When it raises, it is the
    first fetch that raised, or the last request made, and the rows
    collected until then are lost. *)
Theorem scraped_rows_distinct (max_pages : nat) (w : site) :
  let out := scrape_comments_paginated max_pages w in
  (forall rows,
     out.1 = Ok rows ->
     NoDup (map raw_key rows) /\ extracted_from w out.2 rows /\ answered w out.2)
  /\ (forall e,
        out.1 = Raise e ->
        (site_root w = Raise e /\ out.2 = [])
        \/ (exists before t, out.2 = before ++ [t] /\ answered w before
                             /\ site_page w t = Raise e)).
Proof.
  cbv zeta. unfold scrape_comments_paginated.
  destruct (site_root w) as [[]|e0]; [|split; [done|]; intros e [= <-]; by left].
  pose proof (page_loop_keeps w (seq 0 max_pages) initial_scrape
                initial_scrape_inv (Forall_nil _) (Forall_nil _)) as H.
  destruct (page_loop w (seq 0 max_pages) initial_scrape) as [st|st|e0 log];
    cbn [fst snd].
  - destruct H as ([_ Hnd] & Hext & Hans). split; [|done].
    by intros rows [= <-].
  - destruct H as ([_ Hnd] & Hext & Hans). split; [|done].
    by intros rows [= <-].
  - split; [done|]. intros e [= <-]. by right.
Qed.

(** X17: the requests of a scrape are made in one fixed order, page by page:
    they are a subsequence of "0", "0,1", "1", "0,2", "2", ..., so at most
    2 * MAX_PAGES - 1 of them are made. The plain token of a page is asked
    only after its composite token brought no row, and no page is asked when
    the first fetch raises. *)
Theorem scrape_requests_in_order (max_pages : nat) (w : site) :
  let log := (scrape_comments_paginated max_pages w).2 in
  sublist log (all_requests max_pages)
  /\ (length log <= 2 * max_pages - 1)%nat
  /\ (forall i, Plain (S i) ∈ log -> site_page w (Composite (S i)) = Ok [])
  /\ (forall e, site_root w = Raise e -> log = []).
Proof.
  cbv zeta. pose proof (scrape_requests max_pages w) as Hsub.
  split; [done|]. split; [|split].
  - rewrite <- all_requests_length. by apply sublist_length.
  - intros i. rewrite scrape_log. destruct (site_root w); [|by intros ?%elem_of_nil].
    intros H. destruct (page_loop_plain _ _ _ _ H) as [H'|H']; [|done].
    by apply elem_of_nil in H'.
  - intros e He. by rewrite scrape_log, He.
Qed.

(** X18: what a run of [scrape_and_analyze_source] that succeeds has done.
    The rows it returns are not empty and have pairwise distinct identities;
    their identities are those of the normalized scrape together with those
    of the normalized rows of the main file of the source. The four files of
    the source hold the same bytes, the corpus written by
    [save_rows_to_csv]; no other path is touched. When the scores in the
    cache were in [0, 1], every row returned is well formed and the cache
    keeps its property. *)
Theorem pipeline_success_effects (max_pages : nat) (w : site) (s : source)
    (st st' : store) (merged_rows : list comment) :
  scrape_and_analyze_source max_pages w s st = (Ok merged_rows, st') ->
  exists scraped_rows,
    (scrape_comments_paginated max_pages w).1 = Ok scraped_rows
    /\ merged_rows <> []
    /\ NoDup (map comment_key merged_rows)
    /\ identities merged_rows
       = identities (normalize_rows (analysis_memo st) scraped_rows).1
         ∪ identities (normalize_rows (analysis_memo st)
                         (load_rows_from_csv (files st !! csv_path s))).1
    /\ (forall p, p ∈ source_paths s ->
                  files st' !! p = Some (save_rows_to_csv merged_rows).1)
    /\ (forall p, p ∉ source_paths s -> files st' !! p = files st !! p)
    /\ (memo_ok (analysis_memo st) ->
        Forall wellformed merged_rows /\ memo_ok (analysis_memo st')).
Proof. apply pipeline_written. Qed.

(** X19: how [scrape_and_analyze_source] fails. An exception of the scrape
    is passed on; a scrape without rows raises "No comments extracted from
    source."; a scrape whose rows are all junk raises "No valid comments
    after analysis."; in these three cases neither a file nor the cache has
    changed. Whenever the run raises, either no file has changed or the
    exception is the encoding error of a write. Whatever the outcome, the
    cache has only grown and the paths that are not files of the source hold
    what they held. *)
Theorem pipeline_failure_effects (max_pages : nat) (w : site) (s : source)
    (st : store) :
  let scrape := (scrape_comments_paginated max_pages w).1 in
  let out := scrape_and_analyze_source max_pages w s st in
  (forall e, scrape = Raise e -> out = (Raise e, st))
  /\ (scrape = Ok [] ->
      out = (Raise (s2l "No comments extracted from source."), st))
  /\ (forall rows,
        scrape = Ok rows -> rows <> [] -> kept_texts rows = [] ->
        out = (Raise (s2l "No valid comments after analysis."), st))
  /\ (forall e, out.1 = Raise e -> files out.2 = files st \/ e = ENCODE_ERROR)
  /\ cache (analysis_memo st) ⊆ cache (analysis_memo out.2)
  /\ (forall p, p ∉ source_paths s -> files out.2 !! p = files st !! p).
Proof.
  cbv zeta. split; [|split; [|split; [|split; [|split]]]].
  - intros e He. unfold scrape_and_analyze_source. by rewrite He.
  - intros He. unfold scrape_and_analyze_source. by rewrite He.
  - intros rows. apply pipeline_nothing_kept.
  - intros e He. apply (pipeline_failed max_pages w s st _ e).
    rewrite <- He. apply surjective_pairing.
  - apply pipeline_cache_grows.
  - intros p. apply pipeline_untouched.
Qed.

(** X20: [trigger_refresh_if_needed] starts a refresh exactly when the
    in-progress flag of the source is clear and the call is forced, or the
    source was never updated, or its last update is at least
    REFRESH_INTERVAL_SECONDS old. It changes neither the state of a source
    nor the files nor the cache: a call that starts a refresh adds one unit
    for the source, a call that does not changes nothing. *)
Theorem trigger_decision (refresh_interval : Z) (sys : system) (s : source)
    (force : bool) (now : Q) :
  let out := trigger_refresh_if_needed refresh_interval sys s force now in
  (out.1 = true
   <-> in_progress (site_states sys s) = false
       /\ (force = true
           \/ last_updated (site_states sys s) = None
           \/ exists t, last_updated (site_states sys s) = Some t
                        /\ (inject_Z refresh_interval <= now - t)%Q))
  /\ site_states out.2 = site_states sys
  /\ shared out.2 = shared sys
  /\ units out.2
     = units sys ++ (if out.1 then [ {| target := s; at_ := Spawned |} ] else []).
Proof. cbv zeta. split; [apply trigger_started|apply trigger_spawns]. Qed.

(** X21: a refresh and the polls that follow it. After [refresh_site_state]
    has run for a source whose flag was clear, a forced trigger starts a new
    refresh at any time. When the pipeline succeeded at time [now], a poll
    at time [t] starts one exactly when [t - now] has reached the interval;
    when it raised, a poll is answered as it was before the refresh: a
    failure does not postpone the next attempt. *)
Theorem refresh_then_poll (refresh_interval : Z) (max_pages : nat) (w : site)
    (now : Q) (sys : system) (i : nat) (s : source) :
  in_progress (site_states sys s) = false ->
  let after := refresh_site_state max_pages w now sys i s in
  (forall t, (trigger_refresh_if_needed refresh_interval after s true t).1 = true)
  /\ match (scrape_and_analyze_source max_pages w s (shared sys)).1 with
     | Ok _ =>
         forall t, (trigger_refresh_if_needed refresh_interval after s false t).1 = true
                   <-> (inject_Z refresh_interval <= t - now)%Q
     | Raise _ =>
         forall t, (trigger_refresh_if_needed refresh_interval after s false t).1
                   = (trigger_refresh_if_needed refresh_interval sys s false t).1
     end.
Proof. apply poll_after_refresh. Qed.


(** X23: the sources do not interfere. A step of a background unit, at any
    point of [refresh_site_state], leaves the state of every source other
    than its own as it was, and leaves the four files of that other source
    as they were. *)
Theorem sources_are_isolated (refresh_interval : Z) (max_pages : nat)
    (sys : system) (i : nat) (u : unit_of_work) (w : site) (now : Q)
    (s' : source) :
  units sys !! i = Some u -> s' <> target u ->
  site_states (step refresh_interval max_pages sys (Advance i w now)) s'
  = site_states sys s'
  /\ forall p, p ∈ source_paths s' ->
               files (shared (step refresh_interval max_pages sys (Advance i w now))) !! p
               = files (shared sys) !! p.
Proof. apply step_isolated. Qed.

(** X24: the two routes. A request changes neither the state of a source nor
    the files nor the cache; it starts at most one unit, and only for a
    source whose flag is clear. A request without a source is a request for
    "site1". A source that is neither "site1" nor "site2" is answered with
    the error "Unknown source: " followed by what was given, and nothing is
    started. Otherwise /api/live-comments answers with the state of the
    source as it is, and /api/refresh-now reports a refresh as started
    exactly when the flag of the source was clear. *)
Theorem requests_only_spawn (refresh_interval : Z) (gemini_enabled : bool)
    (r : request) (now : Q) (sys : system) :
  let out := serve refresh_interval gemini_enabled r now sys in
  let source_id :=
    default (s2l "site1") match r with GetLiveComments arg | RefreshNow arg => arg end in
  (site_states out.2 = site_states sys /\ shared out.2 = shared sys
   /\ (units out.2 = units sys
       \/ exists s, units out.2 = units sys ++ [ {| target := s; at_ := Spawned |} ]
                    /\ in_progress (site_states sys s) = false))
  /\ (source_id <> s2l "site1" -> source_id <> s2l "site2" ->
      out = (UnknownSource (s2l "Unknown source: " ++ source_id), sys))
  /\ (forall s,
        lookup_source source_id = Some s ->
        out.1 = match r with
                | GetLiveComments _ =>
                    LiveComments (state_payload gemini_enabled sys source_id s)
                | RefreshNow _ =>
                    RefreshStarted (negb (in_progress (site_states sys s))) source_id
                end).
Proof.
  cbv zeta. split; [apply serve_spawns|]. split.
  - intros H1 H2. pose proof (lookup_source_unknown _ H1 H2) as Hnone.
    destruct r as [arg|arg]; cbn [serve]; unfold get_live_comments, refresh_now;
      by rewrite Hnone.
  - intros s Hs. destruct r as [arg|arg]; cbn [serve].
    + by apply get_live_comments_answer.
    + by apply refresh_now_answer.
Qed.

(** X25: the start of the process. When no flag is set, as in the initial
    state, the body of [__main__] starts exactly one unit for each source,
    "site1" first, after the seeding, which it leaves as the state of the
    sources, the files and the cache. *)
Theorem start_up_spawns_each_source (refresh_interval : Z) (now : source -> Q)
    (sys : system) :
  (forall s, in_progress (site_states sys s) = false) ->
  units (start_up refresh_interval now sys)
  = units sys ++ [ {| target := site1; at_ := Spawned |};
                   {| target := site2; at_ := Spawned |} ]
  /\ site_states (start_up refresh_interval now sys)
     = site_states (ensure_seed_data now sys)
  /\ shared (start_up refresh_interval now sys) = shared (ensure_seed_data now sys).
Proof. apply start_up_units. Qed.

End Further.

(** * The further properties on concrete inputs *)

Lemma text_hash_skips_surrogates_witness :
  is_surrogate 55357 = true
  /\ text_hash (s2l "Roads " ++ 55357 :: s2l "need repair")
     = text_hash (s2l "Roads " ++ s2l "need repair").
Proof.
  assert (H : is_surrogate 55357 = true) by reflexivity.
  split; [exact H|].
  exact (text_hash_skips_surrogates (s2l "Roads ") (s2l "need repair") 55357 H).
Defined.

Lemma fix_mojibake_repairs_witness :
  utf8_encode cafe = misread_cafe
  /\ has_marker misread_cafe = true
  /\ fix_mojibake misread_cafe = cafe.
Proof.
  split; [reflexivity|]. split; [reflexivity|].
  exact (fix_mojibake_repairs cafe eq_refl eq_refl eq_refl eq_refl).
Defined.

Lemma normalize_rows_invariants_witness :
  memo_ok empty_memo
  /\ Forall (wellformed (U := ascii_tables))
       (normalize_rows (U := ascii_tables) (W := offline) empty_memo [stale_row]).1
  /\ memo_ok
       (normalize_rows (U := ascii_tables) (W := offline) empty_memo [stale_row]).2.
Proof.
  assert (H : memo_ok empty_memo) by apply map_Forall_empty.
  split; [exact H|].
  exact (normalize_rows_invariants (U := ascii_tables) (W := offline)
           empty_memo [stale_row] H).
Defined.

Lemma share_labels_are_junk_witness :
  is_junk_or_boilerplate (U := ascii_tables)
    (cleaned_text share_row) = true
  /\ normalize_row (U := ascii_tables) (W := offline) ([], empty_memo) share_row
     = ([], empty_memo).
Proof.
  apply (share_labels_are_junk (U := ascii_tables) (W := offline)
           ([], empty_memo) share_row
           (s2l "Share on ") (s2l "Facebook") (s2l "Twitter") (s2l " now")).
  left. split; [reflexivity|]. split; reflexivity.
Defined.

Lemma pipeline_success_effects_witness :
  let out := scrape_and_analyze_source (U := ascii_tables) (W := offline) 50
               repeating_site site1 (shared (boot ∅)) in
  out = (Ok first_corpus, out.2)
  /\ NoDup (map (comment_key (U := ascii_tables)) first_corpus)
  /\ (forall p, p ∈ source_paths site1 ->
                files out.2 !! p
                = Some (save_rows_to_csv (U := ascii_tables) first_corpus).1)
  /\ files out.2 !! csv_path site2 = None
  /\ Forall (wellformed (U := ascii_tables)) first_corpus.
Proof.
  assert (Hrows : (scrape_and_analyze_source (U := ascii_tables) (W := offline) 50
                     repeating_site site1 (shared (boot ∅))).1
                  = Ok first_corpus)
    by (vm_compute; reflexivity).
  assert (Hrun : scrape_and_analyze_source (U := ascii_tables) (W := offline) 50
                   repeating_site site1 (shared (boot ∅))
                 = (Ok first_corpus,
                    (scrape_and_analyze_source (U := ascii_tables) (W := offline) 50
                       repeating_site site1 (shared (boot ∅))).2))
    by (rewrite <- Hrows; apply surjective_pairing).
  intros out. split; [exact Hrun|].
  destruct (pipeline_success_effects (U := ascii_tables) (W := offline) 50
              repeating_site site1 (shared (boot ∅)) _ first_corpus Hrun)
    as (scraped_rows & _ & _ & Hdistinct & _ & Hfiles & Hother & Hwf).
  split; [exact Hdistinct|]. split; [exact Hfiles|]. split.
  - rewrite Hother; [reflexivity|]. intros H. unfold source_paths in H.
    repeat (apply elem_of_cons in H as [H|H]; [discriminate H|]).
    by apply elem_of_nil in H.
  - apply Hwf. apply map_Forall_empty.
Defined.

Lemma refresh_then_poll_witness :
  let after := refresh_site_state (U := ascii_tables) (W := offline) 50
                 repeating_site 10%Q triggered 0 site1 in
  in_progress (site_states triggered site1) = false
  /\ (forall t, (trigger_refresh_if_needed 300 after site1 true t).1 = true)
  /\ (forall t, (trigger_refresh_if_needed 300 after site1 false t).1 = true
                <-> (inject_Z 300 <= t - 10)%Q).
Proof.
  assert (Hflag : in_progress (site_states triggered site1) = false) by reflexivity.
  assert (Hrows : (scrape_and_analyze_source (U := ascii_tables) (W := offline) 50
                     repeating_site site1 (shared triggered)).1
                  = Ok first_corpus)
    by (vm_compute; reflexivity).
  intros after. split; [exact Hflag|].
  destruct (refresh_then_poll (U := ascii_tables) (W := offline) 300 50
              repeating_site 10%Q triggered 0 site1 Hflag) as [Hforced Hpoll].
  split; [exact Hforced|]. rewrite Hrows in Hpoll. exact Hpoll.
Defined.

Lemma sources_are_isolated_witness :
  let after := step (U := ascii_tables) (W := offline) 300 50 busy
                 (Advance 0 repeating_site 10%Q) in
  units busy !! 0%nat = Some {| target := site1; at_ := InPipeline |}
  /\ site_states after site2 = site_states busy site2
  /\ (forall p, p ∈ source_paths site2 ->
                files (shared after) !! p = files (shared busy) !! p).
Proof.
  assert (Hunit : units busy !! 0%nat = Some {| target := site1; at_ := InPipeline |})
    by reflexivity.
  intros after. split; [exact Hunit|].
  refine (sources_are_isolated (U := ascii_tables) (W := offline) 300 50 busy 0
            {| target := site1; at_ := InPipeline |} repeating_site 10%Q site2
            Hunit _).
  discriminate.
Defined.

Lemma start_up_spawns_each_source_witness :
  (forall s, in_progress (site_states (boot ∅) s) = false)
  /\ units (start_up (U := ascii_tables) (W := offline) 300 (fun _ => 0%Q) (boot ∅))
     = [ {| target := site1; at_ := Spawned |}; {| target := site2; at_ := Spawned |} ].
Proof.
  assert (Hidle : forall s, in_progress (site_states (boot ∅) s) = false)
    by (intros []; reflexivity).
  split; [exact Hidle|].
  destruct (start_up_spawns_each_source (U := ascii_tables) (W := offline) 300
              (fun _ => 0%Q) (boot ∅) Hidle) as [Hunits _].
  exact Hunits.
Defined.
